(* ===== verification/_CoqProject ===== *)
-Q . S2P
Prelude.v
Python.v
Playwright.v
App.v
World.v
Verifier.v
Direct.v
Protocol.v
Replay.v
Soundness.v
Faults.v
Scenarios.v
