(* ===== verification/Prelude.v ===== *)
(** * Verification of [verify_debounce.py]

    ** The program

    [src/verify_debounce.py] is a browser-automation script.  Its function
    [verify_app(page)] drives one page of a web application through seven
    calls of the Playwright API (navigate, wait for an element, fill two
    inputs, wait one second for the application's debounce timer, take a
    screenshot, print a confirmation).  Its entry block acquires the
    Playwright driver in a [with] statement, launches a headless browser,
    opens a page, runs [verify_app] inside [try / except Exception /
    finally], prints ["Error: ..."] when an exception is caught and closes
    the browser in the [finally] clause.

    The script owns no data structure: what can go wrong in it is the
    control flow around exceptions and the order of its calls.  The
    development therefore models the script as a program over an explicit
    signature of API calls, gives Python's exception constructs their
    semantics, and proves what the script does for every behaviour of
    the environment (every call may return or raise), and then what it
    does against a model of the browser and of the application under test.

    ** Files

    In the order of their dependencies:
    - [Prelude] (this file): the notation scope [py_scope], the hint
      databases [py], [lst] and [run], the tactics, and the lemmas on
      lists ([countb], [none_after], [leads_to], [increasing]) shared
      by the trace properties.
    - [Python]: exceptions ([exn]), call outcomes ([outcome]), programs as
      trees of calls ([prog]) with sequencing ([bind]), the statements
      [try_except], [try_finally] and [with_], the interpreter [run] that
      executes a program against a handler of the calls and records the
      trace of events, extensional equality of programs ([peq]) with its
      [Proper] instances, the monad laws, and the equations of [run] on
      each construct.
    - [Playwright]: the signature of the calls the script makes ([call],
      [ret]), the typed wrappers named after the API methods ([goto],
      [fill], ...), the classification of events, and the class
      [Environment]: what the state-based theorems assume of an
      environment (an invariant [ok] of its states, the live browsers
      [live], the standard output [out], and the laws of the calls).
    - [App]: the application under test as the specification and the
      comments of the source describe it: inputs, a table derived from
      them, recomputed once the inputs have been stable for the debounce
      delay ([app_input], [app_elapse], [app_settled], [table_points]).
    - [World]: a model of the driver, the browsers, the pages, the file
      system and the standard output ([world]); one operation per call
      ([w_goto], [w_fill], ...) and the handler [world_handler]; the
      well-formedness invariant [wf], preserved by every call; the
      instance of [Environment]; the equations of the operations on an
      open page.
    - [Verifier]: [verify_app] and [main], translated line by line from
      the source, and [script], the module with the guard of line 27
      (imported as a module it makes no call); the specification of
      their executions as the inductive predicate [session] and the
      lemma [run_main_session] that every execution of [main], against
      any handler, is a session; from it, for every behaviour of the
      environment: the order of the steps, fail-fast behaviour, the
      handling and the propagation of exceptions (which exception leaves
      [main]: that of the last call it does not absorb, [last_failure]),
      what is printed (at most one line, the confirmation or an error),
      the path of an interrupt (an exception outside [Exception] raised
      by a step is not reported: the browser is closed next, and the
      exception leaves [main]),
      the order of all the calls (each call has its place in the
      procedure, [stage], and the places increase strictly along every
      trace: no step is retried or made twice),
      and the resource discipline (the browser is closed exactly once,
      after the last use of the page; the driver is stopped last; what
      was acquired is eventually released).  For every environment that
      honours [Environment]: no browser is leaked, and the standard
      output of a successful run.
    - [Direct]: a second translation of the source, in explicit
      state-passing style ([verify_app_direct], [main_direct]: functions
      from the state of the environment to the outcome, final state and
      trace, with the case analyses Python performs on the outcome of
      each call), and the theorem that [run] on [main] computes exactly
      [main_direct].
    - [Protocol]: the resource discipline as a state machine over events:
      the phases of a run, the step relation [step] (one rule per kind of
      event), its executable acceptor [accept], proved to decide the
      relation; invariants of the machine by induction on its rules; the
      typing judgment [typed] of programs against the machine, with one
      rule per statement and its soundness; and the theorems that [main]
      is well typed, that every trace of [main] is accepted and that the
      page is used only after it was opened.
    - [Replay]: the environment that replays a recorded trace, and the
      converse of [run_main_session]: every session is an execution of
      [main], so that [session] (and [verify_trace] for [verify_app]) is
      exactly the set of behaviours of the script.  That the replay of
      a recorded execution reproduces it ([run_replay]) holds of every
      program and is a lemma of the file, not a result about the script.
    - [Soundness]: the protocol against the world model: what each phase
      of the protocol says is open in the world ([holds]); every step of
      the machine answered by the world keeps it and is not answered
      with the error of a closed page or browser; hence a program typed
      against the protocol, and [main], never use a closed page or
      browser, in any world.
    - [Faults]: failures injected into the calls on a page (the steps 3
      to 8 of the contract): an environment under a plan ([inject]), one
      entry per call on a page, that lets the call through or makes it
      raise before it reaches the environment.  An environment under a
      plan honours [Environment] when the environment does (the second
      instance of the class); under a plan without failures it behaves
      as the environment itself ([run_inject_quiet]); the first failure
      of a plan ends a script of calls where it strikes
      ([run_inject_fail_at]); and what is raised under a plan is raised
      by the environment or is a failure of the plan
      ([run_inject_raises]).
    - [Scenarios]: [main] executed symbolically by [world_handler], under
      a plan where the theorem is about failures the world does not
      produce by itself: the scenarios of the specification (happy path,
      server down, one of the two input elements missing) and the failure
      of the launch; what [main] returns, prints, writes and how long it
      takes in every world ([main_world_summary]); non-propagation (P3):
      under every plan of failures that derive from [Exception], in
      every world with a browser, [main] returns and prints exactly one
      line ([main_always_reports]), and a failure injected into any of
      the six calls on the page of a served application is the one
      reported ([main_injected_failure]); the content of the
      screenshot; the sufficiency of the one-second wait for a debounce
      delay of at most 1000 ms and its insufficiency above; idempotence
      of two successive runs (P1); and, for every plan of injected
      failures, the existence of the screenshot file whenever the
      confirmation is printed (P4) and the release of every resource
      (P2).

    ** Theorems and what they rest on

    The theorems of [Python] and the trace theorems of [Verifier] hold
    for an arbitrary handler: they assume nothing of Playwright, of the
    browser or of the application, and are statements about the source
    alone.  The theorems of [Verifier] stated with [env] assume the laws
    of [Environment].  The theorems of [Scenarios] are about the source
    executed in the model of [World] and [App], which is written from the
    specification: they say what the script does if the library and the
    application behave as that model.  Each theorem with hypotheses is
    applied to a concrete execution (a scripted environment in
    [Verifier], the scenario worlds and a plan that fails the first
    [fill] in [Scenarios]) by the lemma named
    after it with the suffix [_witness].

    What the models assume, beyond the words of the specification:
    - [Environment] asks that the exit of the [with] statement release
      every browser of the driver, also when the exit raises
      ([env_exit]).  The theorem that no browser is leaked rests on this
      law and on the [with] statement, not on [browser.close()]: it
      holds on the paths where [close] is not called.
    - In [World] the start and the stop of the driver, [browser.close()]
      and [print] never raise; the theorems of [Scenarios] that [main]
      returns hold in such worlds.  What [main] does when these calls
      raise is stated by the theorems of [Verifier], for every handler:
      their exceptions leave [main].
    - [App.table_points] is the formula the comment of lines 19 to 21 of
      the source suggests (96 percent of 100 points is 96 points); the
      specification leaves the rendering of the table out of scope.
      The theorems on the screenshot use that the table is computed
      from the inputs; the formula itself is used once, to evaluate the
      row the comment names.
    - The rule of [Protocol.step] for a failed [new_page] and the
      constructor [session_no_page] describe the code, where line 30 is
      outside the [try] statement and the browser is left to the exit of
      the driver; the specification asks for a release on every path.
      The difference is recorded as a finding.
    - [with_] merges the call of [sync_playwright()] and the entry of
      the context manager into one call, and the exit of the manager
      never suppresses an exception, as Playwright's does not.  The
      f-string of line 34 is the concatenation of ["Error: "] with the
      text of the exception ([str]), which cannot raise.  A call
      returns or raises: a call that never answers is not modelled.

    ** Correspondence with the source

    Every call of the source is a constructor of [Playwright.call]; a
    method [page.m(args)] is the wrapper [m page args].  Python's
    statement sequencing is [bind] (written [x <- c ;; k] and [c ;; k]);
    an exception raised by a call aborts the rest of the block, as in
    Python.  [try: A except Exception as e: H finally: F] is
    [try_finally (try_except A isinstance_Exception H) F]; [with M as p:
    B] is [with_ enter exit B].  The literals of the source (URL,
    selectors, texts, the delay, the file name) are written in
    [verify_app] and [main] as they are in the source.  [verify_app] is
    lines 3 to 25, the guard of line 27 is [script], and [main] is lines
    28 to 36; the import of line 1 is translated by no definition.

    ** Bounds

    Programs are finite trees, so [run] is structurally recursive and
    needs no fuel: the script contains no loop, and [main] makes at most
    thirteen calls.  Time is an integer number of milliseconds ([Z]).
    The only numeric bound of the script is the wait of 1000 ms;
    [Scenarios] proves it sufficient for every debounce delay of at most
    1000 ms and insufficient for every delay above.  Handles are natural
    numbers drawn from one counter of the world.

    ** Not modelled

    The rendering engine and the Playwright library themselves (only
    their observable contract is modelled, in [World], from the
    specification); the pixels of the screenshot (an image is the page
    state it shows); the values the script discards (the response of
    [goto], the element handle of [wait_for_selector], the bytes of
    [screenshot]); interrupts delivered between two calls (an interrupt
    is modelled as a call that raises an exception outside [Exception]);
    failures injected into the calls that are not on a page (they are left
    to the theorems of [Verifier], which hold for every handler); the
    import of line 1, assumed to succeed (when it raises, no other line
    runs); the exit status of the process as a number: by Python's rule
    it is 0 exactly when the module returns, which is what the theorems
    on the outcome of [main] state. *)

From stdpp Require Import base strings list sorting.

(** * Notation

    Statement sequencing of the modelled programs.  [c ;; k] is stdpp's. *)

Declare Scope py_scope.
Delimit Scope py_scope with py.

Notation "x <- c ;; k" := (mbind (fun x => k) c)
  (at level 100, c at next level, right associativity, only parsing) : py_scope.

(** * Hint databases

    [py] collects the resolution hints of the development; the rewrite
    database [run] collects the equations of the interpreter and [lst] the
    equations of the list functions below. *)

Create HintDb py discriminated.
Create Rewrite HintDb lst.
Create Rewrite HintDb run.

(** * Tactics *)

(** Case analysis on the scrutinee of the first [match] or [if] of the goal. *)
Ltac case_scrutinee :=
  match goal with
  | |- context [match ?x with _ => _ end] => destruct x eqn:?
  end.

(** Split a hypothesis that is a conjunction of boolean facts. *)
Ltac split_andb :=
  repeat match goal with
  | H : _ && _ = true |- _ => apply andb_prop in H; destruct H
  | |- _ && _ = true => apply andb_true_intro; split
  end.

(** Prove [Forall P] of a list written out, element by element with [tac]. *)
Ltac Forall_each tac :=
  repeat (apply List.Forall_cons; [tac |]); try apply List.Forall_nil.

(** Proves [increasing f [a; b; ...]] for a list given by its elements,
    when [f] computes on each. *)
Ltac increasing_each :=
  repeat (apply Sorted.SSorted_cons; [|Forall_each ltac:(simpl; lia)]);
  apply Sorted.SSorted_nil.

(** Case analysis on a hypothesis [H : x ∈ l ++ [a; b; ...] ++ ...]; each
    case in which [x] is one of the listed elements is closed by [done]
    (typically by discrimination), the others are left. *)
Ltac elem_of_cases H :=
  repeat first
    [ apply elem_of_nil in H; destruct H
    | apply elem_of_cons in H as [->|H]; [done |]
    | apply elem_of_app in H as [H|H] ].

(** * Counting and ordering elements of a list

    A trace is a list of events; the safety properties count the events of
    a kind ([countb]) and forbid an event of one kind after an event of
    another ([none_after]). *)

Section Lists.
Context {A : Type}.
Implicit Types (P Q : A -> bool) (l k : list A) (x : A).

Fixpoint countb P l : nat :=
  match l with
  | [] => 0
  | x :: l' => (if P x then 1 else 0) + countb P l'
  end.

(** [none_after P Q l]: no element satisfying [P] occurs in [l] after an
    element satisfying [Q]. *)
Fixpoint none_after P Q l : bool :=
  match l with
  | [] => true
  | x :: l' => (if Q x then forallb (fun y => negb (P y)) l' else true)
               && none_after P Q l'
  end.

(** [leads_to P Q l]: every element of [l] satisfying [P] is followed, later
    in [l], by an element satisfying [Q]. *)
Fixpoint leads_to P Q l : bool :=
  match l with
  | [] => true
  | x :: l' => (if P x then existsb Q l' else true) && leads_to P Q l'
  end.

(** [increasing f l]: the images under [f] of the elements of [l] increase
    strictly along [l]. *)
Definition increasing (f : A -> nat) l : Prop :=
  StronglySorted (fun x y => f x < f y) l.

Lemma countb_app P l k : countb P (l ++ k) = countb P l + countb P k.
Proof. induction l as [|x l IH]; simpl; [done | rewrite IH; lia]. Qed.

Lemma countb_cons P x l : countb P (x :: l) = (if P x then 1 else 0) + countb P l.
Proof. reflexivity. Qed.

Lemma countb_nil P : countb P [] = 0.
Proof. reflexivity. Qed.

Lemma countb_zero P l : countb P l = 0 <-> forallb (fun y => negb (P y)) l = true.
Proof.
  induction l as [|x l IH]; simpl; [done |].
  destruct (P x); simpl; [split; [lia | done] | exact IH].
Qed.

Lemma countb_zero_Forall P l : Forall (fun x => P x = false) l -> countb P l = 0.
Proof. induction 1 as [|x l Hx _ IH]; simpl; [done | by rewrite Hx, IH]. Qed.

Lemma countb_le_length P l : countb P l <= length l.
Proof. induction l as [|x l IH]; simpl; [done | destruct (P x); lia]. Qed.

Lemma forallb_negb_Forall P l :
  forallb (fun y => negb (P y)) l = true <-> Forall (fun x => P x = false) l.
Proof.
  induction l as [|x l IH]; simpl; [split; [constructor | done] |].
  rewrite andb_true_iff, IH, negb_true_iff. split.
  - by intros [? ?]; constructor.
  - by inversion 1.
Qed.

Lemma none_after_app P Q l k :
  none_after P Q (l ++ k) =
  none_after P Q l && none_after P Q k
  && (negb (existsb Q l) || forallb (fun y => negb (P y)) k).
Proof.
  induction l as [|x l IH]; simpl.
  - by rewrite andb_true_r.
  - rewrite IH, forallb_app. destruct (Q x); simpl; [|done].
    destruct (forallb _ l), (none_after P Q l), (none_after P Q k),
      (forallb _ k), (existsb Q l); done.
Qed.

Lemma none_after_no_Q P Q l : existsb Q l = false -> none_after P Q l = true.
Proof.
  induction l as [|x l IH]; simpl; [done |].
  destruct (Q x); simpl; [done | exact IH].
Qed.

Lemma none_after_no_P P Q l :
  forallb (fun y => negb (P y)) l = true -> none_after P Q l = true.
Proof.
  induction l as [|x l IH]; simpl; [done |].
  intros [_ Hl]%andb_prop. rewrite (IH Hl), Hl. by destruct (Q x).
Qed.

(** The meaning of [none_after]: whenever the list splits around an element
    satisfying [Q], nothing after it satisfies [P]. *)
Lemma none_after_spec P Q l :
  none_after P Q l = true <->
  forall l1 x l2, l = l1 ++ x :: l2 -> Q x = true -> Forall (fun y => P y = false) l2.
Proof.
  induction l as [|y l IH]; simpl.
  - split; [intros _ [|??] ?? ?; done | done].
  - rewrite andb_true_iff, IH. split.
    + intros [Hy Hl] [|z l1] x l2 [= -> ->] Hq.
      * rewrite Hq in Hy. by apply forallb_negb_Forall.
      * by eapply Hl.
    + intros H. split.
      * destruct (Q y) eqn:Hq; [|done].
        apply forallb_negb_Forall, (H [] y l); done.
      * intros l1 x l2 -> Hq. by apply (H (y :: l1) x l2).
Qed.

Lemma existsb_false_Forall Q l :
  existsb Q l = false <-> Forall (fun x => Q x = false) l.
Proof.
  induction l as [|x l IH]; simpl; [split; [constructor | done] |].
  rewrite orb_false_iff, IH. split.
  - by intros [? ?]; constructor.
  - by inversion 1.
Qed.

Lemma existsb_countb Q l : existsb Q l = false <-> countb Q l = 0.
Proof.
  induction l as [|x l IH]; simpl; [done |].
  destruct (Q x); simpl; [split; [done | lia] | exact IH].
Qed.

(** Where no element of [l] satisfies [Q], the order constraint bears on
    the rest of the list only. *)
Lemma none_after_app_l P Q l k :
  countb Q l = 0 -> none_after P Q (l ++ k) = none_after P Q k.
Proof.
  intros Hl%existsb_countb. rewrite none_after_app, Hl, none_after_no_Q by done.
  simpl. by rewrite andb_true_r.
Qed.

Lemma last_app_cons l x k : last (l ++ x :: k) = last (x :: k).
Proof. induction l as [|y [|z l] IH]; simpl in *; done. Qed.

(** [existsb] in terms of membership. *)
Lemma existsb_elem_of Q l : existsb Q l = true <-> exists y, y ∈ l /\ Q y = true.
Proof. rewrite existsb_exists. by setoid_rewrite list_elem_of_In. Qed.

(** The meaning of [leads_to]: wherever the list splits at an element
    satisfying [P], an element satisfying [Q] occurs in the rest. *)
Lemma leads_to_spec P Q l :
  leads_to P Q l = true <->
  forall l1 x l2, l = l1 ++ x :: l2 -> P x = true -> exists y, y ∈ l2 /\ Q y = true.
Proof.
  induction l as [|y l IH]; simpl.
  - split; [intros _ [|??] ?? ?; done | done].
  - rewrite andb_true_iff, IH. split.
    + intros [Hy Hl] [|z l1] x l2 [= -> ->] Hp.
      * rewrite Hp in Hy. by apply existsb_elem_of.
      * by eapply Hl.
    + intros H. split.
      * destruct (P y) eqn:Hp; [|done]. apply existsb_elem_of, (H [] y l); done.
      * intros l1 x l2 -> Hp. by apply (H (y :: l1) x l2).
Qed.

(** What comes before a suffix that contains an element satisfying [Q]
    and is itself in order does not matter. *)
Lemma leads_to_app_r P Q l k :
  existsb Q k = true -> leads_to P Q k = true -> leads_to P Q (l ++ k) = true.
Proof.
  intros HQ Hk. induction l as [|x l IH]; simpl; [done |].
  rewrite IH, existsb_app, HQ, orb_true_r. by destruct (P x).
Qed.

(** An element that occurs only at the end of a list splits it there. *)
Lemma app_last_unique x l k1 k2 :
  x ∉ l -> l ++ [x] = k1 ++ x :: k2 -> k1 = l /\ k2 = [].
Proof.
  revert k1. induction l as [|y l IH]; intros [|z k1] Hx Heq; simplify_eq/=.
  - done.
  - by destruct k1.
  - by apply not_elem_of_cons in Hx as [? _].
  - apply not_elem_of_cons in Hx as [_ Hx]. by destruct (IH k1 Hx) as [-> ->].
Qed.

(** Two increasing lists, one below [n] and the other not, make an
    increasing list. *)
Lemma increasing_app (f : A -> nat) (n : nat) l k :
  increasing f l -> increasing f k ->
  Forall (fun x => f x < n) l -> Forall (fun y => n <= f y) k ->
  increasing f (l ++ k).
Proof.
  intros Hl Hk Hln Hkn. apply StronglySorted_app_2; [|done..].
  intros x y Hx Hy. rewrite Forall_forall in Hln, Hkn.
  specialize (Hln x Hx). specialize (Hkn y Hy). lia.
Qed.

Lemma increasing_prefix (f : A -> nat) l k :
  l `prefix_of` k -> increasing f k -> increasing f l.
Proof. intros [k' ->]. apply StronglySorted_app_1_l. Qed.

(** An increasing list has no duplicates. *)
Lemma increasing_NoDup (f : A -> nat) l : increasing f l -> NoDup l.
Proof.
  induction 1 as [|x l _ IH Hx]; constructor; [|done].
  intros Hin. rewrite Forall_forall in Hx. specialize (Hx x Hin). lia.
Qed.

End Lists.

#[export] Hint Rewrite @countb_app @countb_cons @countb_nil : lst.
#[export] Hint Rewrite @forallb_app @existsb_app : lst.
#[export] Hint Resolve countb_zero_Forall : py.
