(* ===== verification/Python.v ===== *)
(** * Python: exceptions, statements and their execution

    The fragment of Python the script is written in: calls that return or
    raise, sequencing, [try / except / finally] and [with].  A program is a
    finite tree of calls ([prog]); [run] executes it against a handler that
    answers each call, threading the state of the environment and recording
    the trace of events.  The file is parametric in the signature of calls
    ([call], [ret]); [Playwright] instantiates it. *)

From stdpp Require Import base strings list.
From S2P Require Import Prelude.

#[local] Open Scope py_scope.

(** * Exceptions and outcomes *)

(** An exception object, as far as the script observes it: the name of its
    class, whether that class derives from [Exception] (what
    [except Exception] tests; [KeyboardInterrupt] and [SystemExit] do not),
    and the text [str(e)] that an f-string interpolates. *)
Record exn : Type := Exn {
  exn_class : string;
  exn_is_Exception : bool;
  exn_msg : string
}.

#[export] Instance exn_eq_dec : EqDecision exn.
Proof. solve_decision. Defined.

Definition isinstance_Exception (e : exn) : bool := exn_is_Exception e.

Definition str (e : exn) : string := exn_msg e.

(** The result of a call or of a block: a value, or a raised exception. *)
Inductive outcome (A : Type) : Type :=
| Returned (a : A)
| Raised (e : exn).
Arguments Returned {A} a.
Arguments Raised {A} e.

#[export] Instance outcome_eq_dec {A} `{EqDecision A} : EqDecision (outcome A).
Proof. solve_decision. Defined.

Definition returned {A} (o : outcome A) : bool :=
  match o with Returned _ => true | Raised _ => false end.

Definition raised {A} (o : outcome A) : option exn :=
  match o with Returned _ => None | Raised e => Some e end.

(** The outcome of a block whose outcome was [o], once a finalizer has run
    with outcome [o']: an exception of the finalizer replaces [o]. *)
Definition after {A} (o' : outcome unit) (o : outcome A) : outcome A :=
  match o' with
  | Returned _ => o
  | Raised e' => Raised e'
  end.

Section Prog.
Context {call : Type} {ret : call -> Type}.

(** * Programs

    [Call c k] performs the call [c] and continues with [k] applied to its
    outcome; the continuation sees a raised exception, which is what lets
    [try_except] and [try_finally] be defined on programs. *)
Inductive prog (R : Type) : Type :=
| Ret (r : R)
| Raise (e : exn)
| Call (c : call) (k : outcome (ret c) -> prog R).
Arguments Ret {R} r.
Arguments Raise {R} e.
Arguments Call {R} c k.

(** A call as a statement: its value is returned, its exception propagates. *)
Definition perform (c : call) : prog (ret c) :=
  Call c (fun o => match o with Returned a => Ret a | Raised e => Raise e end).

(** [p; k]: an exception raised by [p] skips [k]. *)
Fixpoint bind {A B} (p : prog A) (k : A -> prog B) : prog B :=
  match p with
  | Ret a => k a
  | Raise e => Raise e
  | Call c q => Call c (fun o => bind (q o) k)
  end.

#[export] Instance prog_ret : MRet prog := @Ret.
#[export] Instance prog_bind : MBind prog := fun A B k p => bind p k.

(** [try: p  except C as e: h e] where [catches] decides [isinstance(e, C)].
    An exception raised inside the handler is not caught by the clause. *)
Fixpoint try_except {R} (p : prog R) (catches : exn -> bool) (h : exn -> prog R) : prog R :=
  match p with
  | Ret r => Ret r
  | Raise e => if catches e then h e else Raise e
  | Call c q => Call c (fun o => try_except (q o) catches h)
  end.

(** [try: p  finally: f]: [f] runs whether [p] returns or raises; then the
    outcome of [p] is resumed, unless [f] itself raises, in which case its
    exception replaces the outcome of [p]. *)
Fixpoint try_finally {R} (p : prog R) (f : prog unit) : prog R :=
  match p with
  | Ret r => bind f (fun _ => Ret r)
  | Raise e => bind f (fun _ => Raise e)
  | Call c q => Call c (fun o => try_finally (q o) f)
  end.

(** [with M as a: body], for a context manager whose [__exit__] does not
    suppress exceptions: [enter] yields [a]; if it raises, neither the body
    nor [exit] runs; otherwise [exit a] runs on every way out of the body. *)
Definition with_ {A R} (enter : prog A) (exit : A -> prog unit) (body : A -> prog R) : prog R :=
  bind enter (fun a => try_finally (body a) (exit a)).

(** A script: the calls of a list performed in order, their values
    discarded. *)
Fixpoint perform_all (cs : list call) : prog unit :=
  match cs with
  | [] => Ret tt
  | c :: cs' => bind (perform c) (fun _ => perform_all cs')
  end.

(** * Extensional equality of programs

    Two programs are equal when they make the same calls and continue
    equally on every outcome.  Continuations are functions, so this is
    coarser than [=]; the laws below hold up to it, and [run] respects it. *)
Inductive peq {R} : relation (prog R) :=
| peq_Ret r : peq (Ret r) (Ret r)
| peq_Raise e : peq (Raise e) (Raise e)
| peq_Call c k k' : (forall o, peq (k o) (k' o)) -> peq (Call c k) (Call c k').

(** * Execution *)

(** One event of a trace: a call and the outcome the environment gave it. *)
Record event : Type := Ev { ev_call : call; ev_outcome : outcome (ret ev_call) }.

Definition ev_returned (ev : event) : bool := returned (ev_outcome ev).

Definition ev_raised (ev : event) : option exn := raised (ev_outcome ev).

(** The environment: each call, in a state, has an outcome and a next state. *)
Definition handler (W : Type) : Type := forall c : call, W -> outcome (ret c) * W.

(** What an execution leaves: the outcome, the final state and the trace. *)
Record final (R W : Type) : Type := Final {
  outcome_of : outcome R;
  world_of : W;
  trace_of : list event
}.
Arguments Final {R W} _ _ _.
Arguments outcome_of {R W} _.
Arguments world_of {R W} _.
Arguments trace_of {R W} _.

(** An execution preceded by the events [t]. *)
Definition prepend {R W} (t : list event) (r : final R W) : final R W :=
  Final (outcome_of r) (world_of r) (t ++ trace_of r).

Fixpoint run {W R} (h : handler W) (p : prog R) (w : W) : final R W :=
  match p with
  | Ret r => Final (Returned r) w []
  | Raise e => Final (Raised e) w []
  | Call c k => let '(o, w') := h c w in prepend [Ev c o] (run h (k o) w')
  end.

(** [andthen r k]: continue an execution [r] with [k], which sees the
    outcome and state [r] ended with; the traces are concatenated. *)
Definition andthen {A B W} (r : final A W) (k : outcome A -> W -> final B W) : final B W :=
  let r' := k (outcome_of r) (world_of r) in
  Final (outcome_of r') (world_of r') (trace_of r ++ trace_of r').

(** What follows an execution that ended with outcome [o] in state [w]:
    the rest of a sequence, the handler of an [except] clause, the body of
    a [finally] clause.  They give the constructs their big-step reading;
    [run_bind], [run_try_except] and [run_try_finally] prove that the
    definitions on program trees agree with it. *)
Definition seq_k {A B W} (h : handler W) (k : A -> prog B) (o : outcome A) (w : W) : final B W :=
  match o with
  | Returned a => run h (k a) w
  | Raised e => Final (Raised e) w []
  end.

Definition except_k {R W} (h : handler W) (catches : exn -> bool) (hd : exn -> prog R)
    (o : outcome R) (w : W) : final R W :=
  match o with
  | Returned r => Final (Returned r) w []
  | Raised e => if catches e then run h (hd e) w else Final (Raised e) w []
  end.

Definition finally_k {R W} (h : handler W) (f : prog unit) (o : outcome R) (w : W) : final R W :=
  let r := run h f w in
  Final (after (outcome_of r) o) (world_of r) (trace_of r).

(** [fail_fast t o]: in an execution with trace [t] and outcome [o], every
    call returned, except possibly the last one, whose exception is then
    the outcome. *)
Definition fail_fast {R} (t : list event) (o : outcome R) : Prop :=
  match o with
  | Returned _ => Forall (fun ev => ev_returned ev = true) t
  | Raised e =>
      exists t' ev, t = t' ++ [ev]
        /\ Forall (fun ev => ev_returned ev = true) t'
        /\ ev_raised ev = Some e
  end.

(** * The calls a program can make *)

(** [straight p]: [p] is straight-line code, a sequence of calls with no
    handler: an exception raised by a call ends the program with it. *)
Inductive straight {R} : prog R -> Prop :=
| straight_Ret r : straight (Ret r)
| straight_Call c k :
    (forall e, k (Raised e) = Raise e) ->
    (forall a, straight (k (Returned a))) ->
    straight (Call c k).

(** [calls_sat P p]: every call [p] can make, on any outcomes, satisfies [P]. *)
Inductive calls_sat {R} (P : call -> Prop) : prog R -> Prop :=
| calls_Ret r : calls_sat P (Ret r)
| calls_Raise e : calls_sat P (Raise e)
| calls_Call c k : P c -> (forall o, calls_sat P (k o)) -> calls_sat P (Call c k).

(** [calls_at_most n p]: on every path through [p], whatever the outcomes,
    at most [n] calls are made. *)
Inductive calls_at_most {R} : nat -> prog R -> Prop :=
| most_Ret n r : calls_at_most n (Ret r)
| most_Raise n e : calls_at_most n (Raise e)
| most_Call n c k : (forall o, calls_at_most n (k o)) -> calls_at_most (S n) (Call c k).

End Prog.

Arguments prog {call} ret R.
Arguments Ret {call ret R} r.
Arguments Raise {call ret R} e.
Arguments Call {call ret R} c k.
Arguments event {call} ret.
Arguments Ev {call ret} ev_call ev_outcome.
Arguments handler {call} ret W.
Arguments final {call} ret R W.
Arguments Final {call ret R W} _ _ _.
Arguments outcome_of {call ret R W} _.
Arguments world_of {call ret R W} _.
Arguments trace_of {call ret R W} _.
Arguments prepend {call ret R W} t r.

#[export] Hint Constructors peq calls_sat calls_at_most straight : py.

(** * A signature for examples

    Two calls: [true] returns, [false] raises [boom]; the state counts
    the calls performed. *)

Definition boom : exn := Exn "RuntimeError" true "boom".

Definition interrupt : exn := Exn "KeyboardInterrupt" false "".

Definition demo_call (c : bool) : prog (fun _ : bool => unit) unit := perform c.

Definition demo_handler : handler (fun _ : bool => unit) nat :=
  fun c n => (if c then Returned tt else Raised boom, S n).

Definition demo_interrupting : handler (fun _ : bool => unit) nat :=
  fun c n => (if c then Returned tt else Raised interrupt, S n).

(** * Outcomes *)

Lemma returned_raised {A} (o : outcome A) : returned o = true <-> raised o = None.
Proof. by destruct o. Qed.

Lemma raised_Some {A} (o : outcome A) e : raised o = Some e <-> o = Raised e.
Proof. destruct o; simpl; split; congruence. Qed.

Section ProgTheory.
Context {call : Type} {ret : call -> Type}.
#[local] Abbreviation prog := (prog ret).
#[local] Abbreviation handler := (handler ret).
#[local] Abbreviation event := (event ret).
#[local] Abbreviation final := (final ret).

(** ** [peq] is an equivalence, and the constructs respect it *)

(** Inversion of [peq] on the shape of its left program. *)
Lemma peq_inv {R} (p q : prog R) (H : peq p q) :
  match p with
  | Ret r => q = Ret r
  | Raise e => q = Raise e
  | Call c k => exists k', q = Call c k' /\ forall o, peq (k o) (k' o)
  end.
Proof. destruct H; eauto. Qed.

Lemma peq_refl {R} (p : prog R) : peq p p.
Proof. induction p; auto with py. Qed.

Lemma peq_sym {R} (p q : prog R) : peq p q -> peq q p.
Proof. induction 1; auto with py. Qed.

Lemma peq_trans {R} (p q r : prog R) : peq p q -> peq q r -> peq p r.
Proof.
  revert q r. induction p as [a|e|c k IH]; intros q r Hpq Hqr;
    apply peq_inv in Hpq; simpl in Hpq.
  - by subst.
  - by subst.
  - destruct Hpq as (k' & -> & Hk). apply peq_inv in Hqr as (k'' & -> & Hk').
    constructor. intros o. by eapply IH.
Qed.

#[export] Instance peq_equivalence {R} : Equivalence (@peq call ret R).
Proof. split; [exact peq_refl | exact peq_sym | exact peq_trans]. Qed.

#[export] Instance bind_proper {A B} :
  Proper (peq ==> pointwise_relation A peq ==> peq) (@bind call ret A B).
Proof.
  intros p p' Hp k k' Hk. induction Hp; simpl; [apply Hk | constructor | auto with py].
Qed.

#[export] Instance try_except_proper {R} :
  Proper (peq ==> eq ==> pointwise_relation exn peq ==> peq) (@try_except call ret R).
Proof.
  intros p p' Hp c ? <- h h' Hh. induction Hp; simpl; [constructor | | auto with py].
  destruct (c e); [apply Hh | constructor].
Qed.

#[export] Instance try_finally_proper {R} :
  Proper (peq ==> peq ==> peq) (@try_finally call ret R).
Proof.
  intros p p' Hp f f' Hf. induction Hp; simpl; [| | auto with py].
  - apply bind_proper; [done | intros ?; reflexivity].
  - apply bind_proper; [done | intros ?; reflexivity].
Qed.

(** ** The monad laws *)

Lemma bind_Ret_l {A B} (a : A) (k : A -> prog B) : bind (Ret a) k = k a.
Proof. reflexivity. Qed.

Lemma bind_Ret_r {A} (p : prog A) : peq (bind p Ret) p.
Proof. induction p; simpl; auto with py. Qed.

Lemma bind_assoc {A B C} (p : prog A) (k : A -> prog B) (j : B -> prog C) :
  peq (bind (bind p k) j) (bind p (fun a => bind (k a) j)).
Proof. induction p; simpl; auto with py. apply peq_refl. Qed.

Lemma bind_Raise {A B} (e : exn) (k : A -> prog B) : bind (Raise e) k = Raise e.
Proof. reflexivity. Qed.

Lemma mbind_bind {A B} (p : prog A) (k : A -> prog B) : mbind k p = bind p k.
Proof. reflexivity. Qed.

(** ** Equations of [run] *)

Lemma final_eta {R W} (r : final R W) :
  Final (outcome_of r) (world_of r) (trace_of r) = r.
Proof. by destruct r. Qed.

Lemma andthen_nil {A B W} (o : outcome A) (w : W) (k : outcome A -> W -> final B W) :
  andthen (Final o w []) k = k o w.
Proof. unfold andthen; simpl. apply final_eta. Qed.

Lemma andthen_Final {A B W} (o : outcome A) (w : W) t (k : outcome A -> W -> final B W) :
  andthen (Final o w t) k = prepend t (k o w).
Proof. reflexivity. Qed.

Lemma andthen_prepend {A B W} t (r : final A W) (k : outcome A -> W -> final B W) :
  andthen (prepend t r) k = prepend t (andthen r k).
Proof. unfold andthen, prepend; simpl. by rewrite app_assoc. Qed.

Lemma prepend_nil {R W} (r : final R W) : prepend [] r = r.
Proof. apply final_eta. Qed.

Lemma prepend_prepend {R W} t t' (r : final R W) :
  prepend t (prepend t' r) = prepend (t ++ t') r.
Proof. unfold prepend; simpl. by rewrite app_assoc. Qed.

Lemma finally_k_eq {R W} (h : handler W) f (o : outcome R) w :
  finally_k h f o w =
  Final (after (outcome_of (run h f w)) o) (world_of (run h f w)) (trace_of (run h f w)).
Proof. reflexivity. Qed.

Lemma andthen_assoc {A B C W} (r : final A W)
    (k : outcome A -> W -> final B W) (j : outcome B -> W -> final C W) :
  andthen (andthen r k) j = andthen r (fun o w => andthen (k o w) j).
Proof. unfold andthen; simpl. by rewrite app_assoc. Qed.

Lemma run_Call {W R} (h : handler W) c (k : outcome (ret c) -> prog R) w :
  run h (Call c k) w = prepend [Ev c (h c w).1] (run h (k (h c w).1) (h c w).2).
Proof. simpl. by destruct (h c w). Qed.

Lemma run_perform {W} (h : handler W) c w :
  run h (perform c) w = Final (h c w).1 (h c w).2 [Ev c (h c w).1].
Proof. unfold perform. rewrite run_Call. simpl. by destruct (h c w).1. Qed.

Lemma run_bind {W A B} (h : handler W) (p : prog A) (k : A -> prog B) w :
  run h (bind p k) w = andthen (run h p w) (seq_k h k).
Proof.
  revert w. induction p as [a|e|c q IH]; intros w; simpl.
  - by rewrite andthen_nil.
  - reflexivity.
  - destruct (h c w) as [o w']. by rewrite IH.
Qed.

Lemma run_try_except {W R} (h : handler W) (p : prog R) catches hd w :
  run h (try_except p catches hd) w = andthen (run h p w) (except_k h catches hd).
Proof.
  revert w. induction p as [a|e|c q IH]; intros w; simpl.
  - reflexivity.
  - rewrite andthen_nil. simpl. by destruct (catches e).
  - destruct (h c w) as [o w']. by rewrite IH.
Qed.

Lemma run_try_finally {W R} (h : handler W) (p : prog R) f w :
  run h (try_finally p f) w = andthen (run h p w) (finally_k h f).
Proof.
  revert w. induction p as [a|e|c q IH]; intros w; simpl.
  - rewrite run_bind. unfold andthen, finally_k, seq_k, after; simpl.
    destruct (run h f w) as [[[]|e] w' t]; simpl; by rewrite ?app_nil_r.
  - rewrite run_bind. unfold andthen, finally_k, seq_k, after; simpl.
    destruct (run h f w) as [[[]|e'] w' t]; simpl; by rewrite ?app_nil_r.
  - destruct (h c w) as [o w']. by rewrite IH.
Qed.

Lemma run_with {W A R} (h : handler W) (enter : prog A) exit (body : A -> prog R) w :
  run h (with_ enter exit body) w =
  andthen (run h enter w) (seq_k h (fun a => try_finally (body a) (exit a))).
Proof. apply run_bind. Qed.

(** [run] does not distinguish extensionally equal programs. *)
#[export] Instance run_proper {W R} (h : handler W) :
  Proper (peq ==> eq ==> eq) (@run call ret W R h).
Proof.
  intros p p' Hp w ? <-. revert w.
  induction Hp as [| |c k k' _ IH]; intros w; simpl; [done | done |].
  destruct (h c w) as [o w']. by rewrite IH.
Qed.

(** ** The statements, case by case *)

(** The [finally] clause runs on every path: whether the body returns
    or raises, the trace of [try: p finally: f] is the trace of [p]
    followed by the trace of [f], started in the state [p] left. *)
Theorem trace_try_finally {W R} (h : handler W) (p : prog R) f w :
  trace_of (run h (try_finally p f) w) =
  trace_of (run h p w) ++ trace_of (run h f (world_of (run h p w))).
Proof. by rewrite run_try_finally. Qed.

(** The outcome of [try: p finally: f] is the outcome of [p], unless
    [f] raises: an exception of the [finally] clause replaces a value or
    an exception of the body. *)
Theorem outcome_try_finally {W R} (h : handler W) (p : prog R) f w :
  outcome_of (run h (try_finally p f) w) =
  after (outcome_of (run h f (world_of (run h p w)))) (outcome_of (run h p w)).
Proof. by rewrite run_try_finally. Qed.

(** [except] does nothing when the body returns: the clause leaves no
    event and the value of the body is the value of the statement. *)
Theorem run_try_except_returned {W R} (h : handler W) (p : prog R) catches hd w r :
  outcome_of (run h p w) = Returned r ->
  run h (try_except p catches hd) w = run h p w.
Proof.
  intros Hr. rewrite run_try_except. destruct (run h p w) as [o w' t].
  simpl in Hr. subst. rewrite andthen_Final. unfold prepend. simpl. by rewrite app_nil_r.
Qed.

(** [except] catches: when the body raises an exception the clause
    tests positive on, the handler runs in the state the body left, after
    the events of the body, and its outcome is the outcome of the
    statement. *)
Theorem run_try_except_caught {W R} (h : handler W) (p : prog R) catches hd w e :
  outcome_of (run h p w) = Raised e ->
  catches e = true ->
  run h (try_except p catches hd) w =
  prepend (trace_of (run h p w)) (run h (hd e) (world_of (run h p w))).
Proof.
  intros Hr Hc. rewrite run_try_except. destruct (run h p w) as [o w' t].
  simpl in Hr. subst. rewrite andthen_Final. simpl. by rewrite Hc.
Qed.

(** [except] lets through what it does not catch: when the body raises
    an exception the clause tests negative on, the handler does not run
    and the exception is the outcome of the statement. *)
Theorem run_try_except_passed {W R} (h : handler W) (p : prog R) catches hd w e :
  outcome_of (run h p w) = Raised e ->
  catches e = false ->
  run h (try_except p catches hd) w = run h p w.
Proof.
  intros Hr Hc. rewrite run_try_except. destruct (run h p w) as [o w' t].
  simpl in Hr. subst. rewrite andthen_Final. simpl. rewrite Hc.
  unfold prepend. simpl. by rewrite app_nil_r.
Qed.

(** [with] does not run its body when entering fails: if [enter]
    raises, the statement raises the same exception, and neither the body
    nor the exit of the context leaves an event. *)
Theorem run_with_not_entered {W A R} (h : handler W) (enter : prog A) exit
    (body : A -> prog R) w e :
  outcome_of (run h enter w) = Raised e ->
  run h (with_ enter exit body) w =
  Final (Raised e) (world_of (run h enter w)) (trace_of (run h enter w)).
Proof.
  intros Hr. rewrite run_with. destruct (run h enter w) as [o w' t].
  simpl in Hr. subst. rewrite andthen_Final. unfold prepend. simpl. by rewrite app_nil_r.
Qed.

(** [with] always leaves the context it entered: if [enter] returns
    [a], the trace of the statement is the trace of [enter], then of the
    body, then of [exit a], whatever the outcome of the body. *)
Theorem trace_with_entered {W A R} (h : handler W) (enter : prog A) exit
    (body : A -> prog R) w a :
  outcome_of (run h enter w) = Returned a ->
  trace_of (run h (with_ enter exit body) w) =
  trace_of (run h enter w)
  ++ trace_of (run h (body a) (world_of (run h enter w)))
  ++ trace_of (run h (exit a) (world_of (run h (body a) (world_of (run h enter w))))).
Proof.
  intros Hr. rewrite run_with. destruct (run h enter w) as [o w' t].
  simpl in Hr. subst. rewrite andthen_Final. simpl. by rewrite run_try_finally.
Qed.

(** Inversion of [calls_sat] on a call. *)
Lemma calls_sat_inv {R} (P : call -> Prop) c (k : outcome (ret c) -> prog R) :
  calls_sat P (Call c k) -> P c /\ forall o, calls_sat P (k o).
Proof.
  intros H.
  refine (match H in calls_sat _ p return
            match p with Call c k => P c /\ forall o, calls_sat P (k o) | _ => True end
          with calls_Call _ c k Hc Hk => conj Hc Hk | _ => I end).
Qed.

Lemma trace_calls_sat {W R} (P : call -> Prop) (h : handler W) (p : prog R) w :
  calls_sat P p -> Forall (fun ev => P (ev_call ev)) (trace_of (run h p w)).
Proof.
  intros Hp. revert w. induction Hp as [r|e|c k Hc _ IH]; intros w; simpl;
    [constructor | constructor |].
  destruct (h c w) as [o w']. simpl. constructor; [done | apply IH].
Qed.

Lemma calls_sat_mono {R} (P Q : call -> Prop) (p : prog R) :
  (forall c, P c -> Q c) -> calls_sat P p -> calls_sat Q p.
Proof. induction 2; auto with py. Qed.

Lemma calls_sat_perform (P : call -> Prop) c : P c -> calls_sat P (perform (ret:=ret) c).
Proof. intros Hc. constructor; [done | intros []; constructor]. Qed.

Lemma calls_sat_bind {A B} (P : call -> Prop) (p : prog A) (k : A -> prog B) :
  calls_sat P p -> (forall a, calls_sat P (k a)) -> calls_sat P (bind p k).
Proof. induction 1; simpl; auto with py. Qed.

Lemma calls_sat_try_except {R} (P : call -> Prop) (p : prog R) catches hd :
  calls_sat P p -> (forall e, calls_sat P (hd e)) -> calls_sat P (try_except p catches hd).
Proof.
  induction 1 as [r|e|c k Hc _ IH]; intros Hh; simpl; auto with py.
  destruct (catches e); auto with py.
Qed.

Lemma calls_sat_try_finally {R} (P : call -> Prop) (p : prog R) f :
  calls_sat P p -> calls_sat P f -> calls_sat P (try_finally p f).
Proof.
  induction 1; intros Hf; simpl; auto with py;
    apply calls_sat_bind; auto with py.
Qed.

(** The state after [try: p finally: f] is the state [f] leaves when
    started in the state [p] left. *)
Lemma world_try_finally {W R} (h : handler W) (p : prog R) f w :
  world_of (run h (try_finally p f) w) = world_of (run h f (world_of (run h p w))).
Proof. by rewrite run_try_finally. Qed.

(** An invariant of the environment's state that every call of the program
    preserves holds when the program ends. *)
Lemma run_invariant {W R} (P : call -> Prop) (I : W -> Prop) (h : handler W) (p : prog R) w :
  calls_sat P p ->
  (forall c w, P c -> I w -> I (h c w).2) ->
  I w -> I (world_of (run h p w)).
Proof.
  intros Hp Hstep. revert w. induction Hp as [r|e|c k Hc _ IH]; intros w Hw; [done | done |].
  rewrite run_Call. apply IH. by apply Hstep.
Qed.

(** The calls a program can make do not depend on how it is written. *)
Lemma calls_sat_peq {R} (P : call -> Prop) (p q : prog R) :
  peq p q -> calls_sat P p -> calls_sat P q.
Proof.
  induction 1 as [| |c k k' _ IH]; [done | done |].
  intros Hk%calls_sat_inv. destruct Hk as [Hc Hk]. constructor; auto.
Qed.

(** A call that does not satisfy the test leaves no event that does. *)
Lemma countb_calls_sat {W R} (P : call -> bool) (h : handler W) (p : prog R) w :
  calls_sat (fun c => P c = false) p ->
  countb (fun ev => P (ev_call ev)) (trace_of (run h p w)) = 0.
Proof. intros Hp. apply countb_zero_Forall. by apply (trace_calls_sat _ h p w) in Hp. Qed.

(** ** Executions are finite *)

Lemma calls_at_most_mono {R} n m (p : prog R) :
  n <= m -> calls_at_most n p -> calls_at_most m p.
Proof.
  intros Hnm Hp. revert m Hnm. induction Hp as [| |n c k _ IH]; intros m Hnm; auto with py.
  destruct m as [|m]; [lia |]. constructor. intros o. apply IH. lia.
Qed.

Lemma calls_at_most_perform c : calls_at_most 1 (perform (ret:=ret) c).
Proof. constructor. intros []; constructor. Qed.

Lemma calls_at_most_bind {A B} n m (p : prog A) (k : A -> prog B) :
  calls_at_most n p -> (forall a, calls_at_most m (k a)) -> calls_at_most (n + m) (bind p k).
Proof.
  induction 1 as [n r|n e|n c q _ IH]; intros Hk; simpl; auto with py.
  apply calls_at_most_mono with m; [lia | done].
Qed.

Lemma calls_at_most_try_except {R} n m (p : prog R) catches hd :
  calls_at_most n p -> (forall e, calls_at_most m (hd e)) ->
  calls_at_most (n + m) (try_except p catches hd).
Proof.
  induction 1 as [n r|n e|n c q _ IH]; intros Hh; simpl; auto with py.
  destruct (catches e); [|constructor].
  apply calls_at_most_mono with m; [lia | done].
Qed.

Lemma calls_at_most_try_finally {R} n m (p : prog R) f :
  calls_at_most n p -> calls_at_most m f -> calls_at_most (n + m) (try_finally p f).
Proof.
  induction 1 as [n r|n e|n c q _ IH]; intros Hf; simpl; auto with py;
    (apply calls_at_most_mono with (m + 0); [lia |]);
    apply calls_at_most_bind; auto with py.
Qed.

Lemma length_trace_at_most {W R} n (h : handler W) (p : prog R) w :
  calls_at_most n p -> length (trace_of (run h p w)) <= n.
Proof.
  intros Hp. revert w. induction Hp as [| |n c k _ IH]; intros w; simpl; [lia | lia |].
  destruct (h c w) as [o w']. simpl. specialize (IH o w'). lia.
Qed.

(** ** Straight-line code stops at the first exception *)

(** A fail-fast trace whose first event raised has no other event. *)
Lemma fail_fast_raised_first {R} c e (t : list event) (o : outcome R) :
  fail_fast (Ev c (Raised e) :: t) o -> t = [] /\ o = Raised e.
Proof.
  destruct o as [r|e']; simpl.
  - intros [H _]%Forall_cons_1. by cbv in H.
  - intros (t' & ev & Heq & Ht' & He).
    destruct t' as [|ev' t']; simplify_eq/=; [by cbv in He; simplify_eq |].
    apply Forall_cons_1 in Ht' as [H _]. by cbv in H.
Qed.

Lemma fail_fast_returned_first {R} c a (t : list event) (o : outcome R) :
  fail_fast (Ev c (Returned a) :: t) o -> fail_fast t o.
Proof.
  destruct o as [r|e']; simpl.
  - by intros [_ ?]%Forall_cons_1.
  - intros (t' & ev & Heq & Ht' & He).
    destruct t' as [|ev' t']; simplify_eq/=.
    apply Forall_cons_1 in Ht' as [_ Ht']. by exists t', ev.
Qed.

Lemma fail_fast_nil {R} (o : outcome R) :
  fail_fast ([] : list event) o -> exists r, o = Returned r.
Proof.
  destruct o as [r|e]; [by exists r |]. intros (t' & ev & Heq & _). by destruct t'.
Qed.

(** In a fail-fast execution every event but the last returned. *)
Lemma fail_fast_not_last {R} (t1 t2 : list event) ev (o : outcome R) :
  fail_fast (t1 ++ ev :: t2) o -> t2 <> [] -> ev_returned ev = true.
Proof.
  intros Hf Ht2. destruct o as [r|e]; simpl in Hf.
  - by apply Forall_app in Hf as [_ [? _]%Forall_cons_1].
  - destruct Hf as (t' & ev' & Heq & Ht' & _).
    destruct t2 as [|x t2 _] using rev_ind; [done |].
    change (ev :: t2 ++ [x]) with ((ev :: t2) ++ [x]) in Heq.
    rewrite app_assoc in Heq. apply app_inj_tail in Heq as [<- _].
    by apply Forall_app in Ht' as [_ [? _]%Forall_cons_1].
Qed.

Lemma straight_perform c : straight (perform (ret:=ret) c).
Proof. constructor; [done | intros a; constructor]. Qed.

Lemma straight_bind {A B} (p : prog A) (k : A -> prog B) :
  straight p -> (forall a, straight (k a)) -> straight (bind p k).
Proof.
  induction 1 as [r|c q Hq _ IH]; intros Hk; simpl; [done |].
  constructor; [intros e; by rewrite Hq | auto].
Qed.

Lemma straight_fail_fast {W R} (h : handler W) (p : prog R) w :
  straight p -> fail_fast (trace_of (run h p w)) (outcome_of (run h p w)).
Proof.
  intros Hp. revert w. induction Hp as [r|c k Hk _ IH]; intros w.
  - constructor.
  - rewrite run_Call. destruct (h c w) as [[a|e] w']; simpl.
    + specialize (IH a w'). unfold fail_fast in *.
      destruct (outcome_of (run h (k (Returned a)) w')).
      * by constructor.
      * destruct IH as (t & ev & -> & Ht & Hev).
        exists (Ev c (Returned a) :: t), ev. split_and!; [done | by constructor | done].
    + rewrite Hk. unfold fail_fast; simpl.
      exists [], (Ev c (Raised e)). split_and!; [done | constructor | done].
Qed.

(** ** Scripts *)

Lemma perform_all_cons c cs :
  perform_all (ret:=ret) (c :: cs) = bind (perform c) (fun _ => perform_all cs).
Proof. reflexivity. Qed.

Lemma straight_perform_all cs : straight (perform_all (ret:=ret) cs).
Proof.
  induction cs; [constructor |].
  rewrite perform_all_cons. auto using straight_bind, straight_perform.
Qed.

Lemma calls_sat_perform_all (P : call -> Prop) cs :
  Forall P cs -> calls_sat P (perform_all (ret:=ret) cs).
Proof.
  induction 1; [constructor |]. rewrite perform_all_cons.
  apply calls_sat_bind; [by apply calls_sat_perform | done].
Qed.

Lemma calls_at_most_perform_all cs :
  calls_at_most (length cs) (perform_all (ret:=ret) cs).
Proof.
  induction cs; [constructor |]. rewrite perform_all_cons.
  apply (calls_at_most_bind 1); [apply calls_at_most_perform | done].
Qed.

Lemma run_perform_all_cons {W} (h : handler W) c cs w :
  run h (perform_all (c :: cs)) w =
  match (h c w).1 with
  | Returned _ => prepend [Ev c (h c w).1] (run h (perform_all cs) (h c w).2)
  | Raised e => Final (Raised e) (h c w).2 [Ev c (h c w).1]
  end.
Proof.
  rewrite perform_all_cons, run_bind, run_perform. unfold andthen; simpl.
  by destruct (h c w).1.
Qed.

(** A script performs a prefix of its calls, in order. *)
Lemma run_perform_all_prefix {W} (h : handler W) cs w :
  map ev_call (trace_of (run h (perform_all cs) w)) `prefix_of` cs.
Proof.
  revert w. induction cs as [|c cs IH]; intros w; [done |].
  rewrite run_perform_all_cons. destruct (h c w).1; simpl.
  - apply (prefix_app [c]), IH.
  - by exists cs.
Qed.

(** A script in two parts: the second runs where the first returned. *)
Lemma run_perform_all_app {W} (h : handler W) cs1 cs2 w :
  run h (perform_all (cs1 ++ cs2)) w
  = andthen (run h (perform_all cs1) w) (seq_k h (fun _ => perform_all cs2)).
Proof.
  revert w. induction cs1 as [|c cs1 IH]; intros w.
  - unfold andthen; simpl. by destruct (run h (perform_all cs2) w).
  - rewrite <- app_comm_cons, !run_perform_all_cons.
    destruct (h c w).1; [|done]. by rewrite IH, andthen_prepend.
Qed.

(** The first part of a script that returns has returned. *)
Lemma run_perform_all_app_returned {W} (h : handler W) cs1 cs2 w :
  outcome_of (run h (perform_all (cs1 ++ cs2)) w) = Returned tt ->
  outcome_of (run h (perform_all cs1) w) = Returned tt.
Proof.
  rewrite run_perform_all_app. unfold andthen; simpl.
  by destruct (outcome_of (run h (perform_all cs1) w)) as [[]|e].
Qed.

(** It returns exactly when every call was performed and returned. *)
Lemma run_perform_all_returned {W} (h : handler W) cs w :
  let r := run h (perform_all cs) w in
  outcome_of r = Returned tt <->
  map ev_call (trace_of r) = cs /\ Forall (fun ev => ev_returned ev = true) (trace_of r).
Proof.
  revert w. induction cs as [|c cs IH]; intros w; [done |].
  cbv zeta in *. rewrite run_perform_all_cons.
  destruct (h c w).1 as [a|e] eqn:Ho; simpl.
  - rewrite IH. split.
    + intros [-> ?]. split; [done | by constructor].
    + intros [[= ?] ?%Forall_cons_1]. tauto.
  - split; [done |]. by intros [_ [[=] _]%Forall_cons_1].
Qed.

End ProgTheory.

#[export] Hint Rewrite @mbind_bind @run_bind @run_try_except @run_try_finally
  @run_with @andthen_Final @andthen_prepend @finally_k_eq : run.

(** Reduce the continuations of an execution whose outcome is known. *)
Ltac run_simpl :=
  repeat progress
    (cbn [fst snd seq_k except_k outcome_of world_of trace_of];
     autorewrite with run).

(** Reduce the bookkeeping of a finished execution to its trace and outcome. *)
Ltac run_done :=
  cbn [fst snd andthen prepend seq_k except_k outcome_of world_of trace_of app].
#[export] Hint Resolve calls_sat_perform calls_sat_bind calls_sat_try_except
  calls_sat_try_finally straight_perform straight_bind : py.

(** * Executions of the example signature *)

Lemma run_try_except_returned_witness :
  run demo_handler (try_except (demo_call true) isinstance_Exception (fun _ => Ret tt)) 0
  = run demo_handler (demo_call true) 0.
Proof.
  apply (run_try_except_returned demo_handler (demo_call true) isinstance_Exception
           (fun _ => Ret tt) 0 tt).
  reflexivity.
Defined.

Lemma run_try_except_caught_witness :
  run demo_handler (try_except (demo_call false) isinstance_Exception (fun _ => demo_call true)) 0
  = prepend (trace_of (run demo_handler (demo_call false) 0))
            (run demo_handler (demo_call true) (world_of (run demo_handler (demo_call false) 0))).
Proof.
  apply (run_try_except_caught demo_handler (demo_call false) isinstance_Exception
           (fun _ => demo_call true) 0 boom); reflexivity.
Defined.

Lemma run_try_except_passed_witness :
  run demo_interrupting
      (try_except (demo_call false) isinstance_Exception (fun _ => demo_call true)) 0
  = run demo_interrupting (demo_call false) 0.
Proof.
  apply (run_try_except_passed demo_interrupting (demo_call false) isinstance_Exception
           (fun _ => demo_call true) 0 interrupt); reflexivity.
Defined.

Lemma run_with_not_entered_witness :
  run demo_handler (with_ (demo_call false) (fun _ => demo_call true) (fun _ => demo_call true)) 0
  = Final (Raised boom) (world_of (run demo_handler (demo_call false) 0))
          (trace_of (run demo_handler (demo_call false) 0)).
Proof.
  apply (run_with_not_entered demo_handler (demo_call false) (fun _ => demo_call true)
           (fun _ => demo_call true) 0 boom).
  reflexivity.
Defined.

Lemma trace_with_entered_witness :
  trace_of (run demo_handler
              (with_ (demo_call true) (fun _ => demo_call true) (fun _ => demo_call false)) 0)
  = trace_of (run demo_handler (demo_call true) 0)
    ++ trace_of (run demo_handler (demo_call false) 1)
    ++ trace_of (run demo_handler (demo_call true) 2).
Proof.
  apply (trace_with_entered demo_handler (demo_call true) (fun _ => demo_call true)
           (fun _ => demo_call false) 0 tt).
  reflexivity.
Defined.
