(* ===== verification/Playwright.v ===== *)
(** * Playwright: the calls the script makes

    The signature of the environment as the script sees it: the handles
    it receives (the driver, a browser, a page), one constructor of [call]
    per API method the source invokes (and [print]), the type each call
    returns, and a wrapper per method named as in the source, so that
    [Verifier] reads like the script.  The file then classifies events
    (which browser a call closes, which page it uses, what it prints) for
    the trace properties, and states in the class [Environment] what the
    state-based theorems of [Verifier] assume of an environment. *)

From stdpp Require Import base strings list gmap.
From S2P Require Import Prelude Python.

#[local] Open Scope Z_scope.

(** * Handles *)

(** The object [sync_playwright().__enter__()] returns (source line 28). *)
Record playwright : Type := Playwright { playwright_id : nat }.

(** The object [p.chromium.launch(...)] returns (source line 29). *)
Record browser : Type := Browser { browser_id : nat }.

(** The object [browser.new_page()] returns (source line 30). *)
Record page : Type := Page { page_id : nat }.

#[export] Instance playwright_eq_dec : EqDecision playwright.
Proof. solve_decision. Defined.
#[export] Instance browser_eq_dec : EqDecision browser.
Proof. solve_decision. Defined.
#[export] Instance page_eq_dec : EqDecision page.
Proof. solve_decision. Defined.

#[export] Instance playwright_countable : Countable playwright.
Proof. apply (inj_countable' playwright_id Playwright). by intros []. Defined.
#[export] Instance browser_countable : Countable browser.
Proof. apply (inj_countable' browser_id Browser). by intros []. Defined.
#[export] Instance page_countable : Countable page.
Proof. apply (inj_countable' page_id Page). by intros []. Defined.

(** * Calls *)

Inductive call : Type :=
| SyncPlaywrightEnter
| SyncPlaywrightExit (p : playwright)
| Launch (p : playwright) (headless : bool)
| NewPage (b : browser)
| Goto (pg : page) (url : string)
| WaitForSelector (pg : page) (selector : string)
| Fill (pg : page) (selector value : string)
| WaitForTimeout (pg : page) (timeout : Z)
| Screenshot (pg : page) (path : string)
| PrintLine (s : string)
| Close (b : browser).

#[export] Instance call_eq_dec : EqDecision call.
Proof. solve_decision. Defined.

(** What a call returns.  The script discards the response of [goto], the
    element handle of [wait_for_selector] and the bytes of [screenshot]. *)
Definition ret (c : call) : Type :=
  match c with
  | SyncPlaywrightEnter => playwright
  | Launch _ _ => browser
  | NewPage _ => page
  | _ => unit
  end.

#[global] Abbreviation prog := (Python.prog ret).
#[global] Abbreviation event := (Python.event ret).
#[global] Abbreviation handler := (Python.handler ret).
#[global] Abbreviation final := (Python.final ret).

(** * The API, method by method *)

(** [with sync_playwright() as p]: entering and leaving the context. *)
Definition sync_playwright : prog playwright := perform SyncPlaywrightEnter.

Definition sync_playwright_exit (p : playwright) : prog unit :=
  perform (SyncPlaywrightExit p).

(** [p.chromium.launch(headless=...)] *)
Definition launch (p : playwright) (headless : bool) : prog browser :=
  perform (Launch p headless).

(** [browser.new_page()] *)
Definition new_page (b : browser) : prog page := perform (NewPage b).

(** [browser.close()] *)
Definition close (b : browser) : prog unit := perform (Close b).

(** [page.goto(url)] *)
Definition goto (pg : page) (url : string) : prog unit := perform (Goto pg url).

(** [page.wait_for_selector(selector)] *)
Definition wait_for_selector (pg : page) (selector : string) : prog unit :=
  perform (WaitForSelector pg selector).

(** [page.fill(selector, value)] *)
Definition fill (pg : page) (selector value : string) : prog unit :=
  perform (Fill pg selector value).

(** [page.wait_for_timeout(timeout)], in milliseconds *)
Definition wait_for_timeout (pg : page) (timeout : Z) : prog unit :=
  perform (WaitForTimeout pg timeout).

(** [page.screenshot(path=...)] *)
Definition screenshot (pg : page) (path : string) : prog unit :=
  perform (Screenshot pg path).

(** [print(s)] *)
Definition print (s : string) : prog unit := perform (PrintLine s).

(** * Classification of calls and events *)

(** The page a call operates on. *)
Definition page_of (c : call) : option page :=
  match c with
  | Goto pg _ | WaitForSelector pg _ | Fill pg _ _
  | WaitForTimeout pg _ | Screenshot pg _ => Some pg
  | _ => None
  end.

Definition is_page_call (c : call) : bool := bool_decide (is_Some (page_of c)).

Definition is_close (c : call) : bool :=
  match c with Close _ => true | _ => false end.

Definition closes (b : browser) (c : call) : bool := bool_decide (c = Close b).

Definition is_exit (c : call) : bool :=
  match c with SyncPlaywrightExit _ => true | _ => false end.

Definition is_print (c : call) : bool :=
  match c with PrintLine _ => true | _ => false end.

(** The line a call prints. *)
Definition printed (c : call) : option string :=
  match c with PrintLine s => Some s | _ => None end.

(** The browser a [launch] event returned, the page a [new_page] event
    returned, the driver an entry returned. *)
Definition ev_launched (ev : event) : option browser :=
  match ev with
  | Ev (Launch _ _) (Returned b) => Some b
  | _ => None
  end.

Definition ev_opened (ev : event) : option page :=
  match ev with
  | Ev (NewPage _) (Returned pg) => Some pg
  | _ => None
  end.

Definition ev_entered (ev : event) : option playwright :=
  match ev with
  | Ev SyncPlaywrightEnter (Returned p) => Some p
  | _ => None
  end.

(** Whether an event is a [new_page] that returned a page. *)
Definition opened (ev : event) : bool := bool_decide (is_Some (ev_opened ev)).

(** Whether an event is the entry of the [with] statement that returned a
    driver. *)
Definition entered (ev : event) : bool := bool_decide (is_Some (ev_entered ev)).

(** Tests on events, by the call they record. *)
Definition on_call (P : call -> bool) (ev : event) : bool := P (ev_call ev).

(** The lines a trace prints, in order (a [print] that raised printed
    nothing). *)
Definition lines_of (t : list event) : list string :=
  omap (fun ev => if ev_returned ev then printed (ev_call ev) else None) t.

(** * The contract of an environment

    What the state-based theorems of [Verifier] assume of an environment
    with states [W]: it answers the calls ([env]); it keeps the live
    browsers, each with the driver that launched it ([live]), and the
    lines written to the standard output ([out]); its states have an
    invariant [ok] that every call preserves; and
    - entering the [with] statement in a state that satisfies the
      invariant returns a driver that owns no live browser;
    - [launch] in such a state returns a browser that was not live, now
      owned by the driver; when it raises, no browser appears;
    - [close] removes at most the browser it names, and removes it when
      it returns;
    - the exit of the [with] statement removes the browsers of the
      driver, whether it returns or raises;
    - no other call changes the live browsers;
    - a [print] that returns appends its line, and nothing else writes
      to the standard output. *)
Class Environment (W : Type) : Type := {
  env : handler W;
  live : W -> gmap browser playwright;
  out : W -> list string;
  ok : W -> Prop;
  env_ok c w : ok w -> ok (env c w).2;
  env_enter w :
    ok w ->
    match (env SyncPlaywrightEnter w).1 with
    | Returned p => forall b, live w !! b <> Some p
    | Raised _ => True
    end
    /\ live (env SyncPlaywrightEnter w).2 = live w;
  env_launch w p hl :
    ok w ->
    match (env (Launch p hl) w).1 with
    | Returned b =>
        live w !! b = None /\ live (env (Launch p hl) w).2 = <[b := p]> (live w)
    | Raised _ => live (env (Launch p hl) w).2 = live w
    end;
  env_close w b :
    live (env (Close b) w).2 ⊆ live w
    /\ (returned (env (Close b) w).1 = true ->
        live (env (Close b) w).2 = delete b (live w));
  env_exit w p :
    live (env (SyncPlaywrightExit p) w).2 = filter (fun bq => bq.2 <> p) (live w);
  env_live_other w c :
    match c with
    | SyncPlaywrightEnter | SyncPlaywrightExit _ | Launch _ _ | Close _ => True
    | _ => live (env c w).2 = live w
    end;
  env_out w c :
    out (env c w).2 = out w ++ lines_of [Ev c (env c w).1]
}.

(** Decide a fact about the classification of calls by cases on the call. *)
Ltac by_call :=
  first [ done
        | by intros []
        | let c := fresh "c" in intros c; destruct c; done ].

(** * A scripted environment

    The simplest environment: its state is the list of answers it will
    give, one per call ([None]: the call returns; [Some e]: it raises [e];
    past the end of the list every call returns).  Handles are numbered 0.
    It serves to execute the script on concrete behaviours. *)

Definition default_ret (c : call) : ret c :=
  match c return ret c with
  | SyncPlaywrightEnter => Playwright 0
  | Launch _ _ => Browser 0
  | NewPage _ => Page 0
  | SyncPlaywrightExit _ | Goto _ _ | WaitForSelector _ _ | Fill _ _ _
  | WaitForTimeout _ _ | Screenshot _ _ | PrintLine _ | Close _ => tt
  end.

Definition scripted : handler (list (option exn)) :=
  fun c w =>
    match w with
    | [] => (Returned (default_ret c), [])
    | None :: w' => (Returned (default_ret c), w')
    | Some e :: w' => (Raised e, w')
    end.

(** Exceptions of the kinds the specification names, and an interrupt. *)
Definition NavigationError : exn :=
  Exn "Error" true "net::ERR_CONNECTION_REFUSED at http://localhost:3000".

Definition TimeoutError : exn :=
  Exn "TimeoutError" true "Timeout 30000ms exceeded.".

Definition KeyboardInterrupt : exn := Exn "KeyboardInterrupt" false "".

(** * The lines a trace prints *)

Lemma lines_of_app (t1 t2 : list event) : lines_of (t1 ++ t2) = lines_of t1 ++ lines_of t2.
Proof. apply omap_app. Qed.

Lemma lines_of_returned (t : list event) :
  Forall (fun ev => ev_returned ev = true) t -> lines_of t = omap printed (map ev_call t).
Proof.
  induction 1 as [|ev t Hev _ IH]; [done |].
  change (lines_of (ev :: t)) with
    (from_option (fun s => s :: lines_of t) (lines_of t)
       (if ev_returned ev then printed (ev_call ev) else None)).
  rewrite Hev, IH. simpl. by destruct (printed (ev_call ev)).
Qed.

(** * Consequences of the contract *)

Section Contract.
Context `{Environment W}.

(** The standard output after a program is the output before it followed
    by the lines of its trace. *)
Lemma run_out {R} (p : prog R) (w : W) :
  out (world_of (run env p w)) = out w ++ lines_of (trace_of (run env p w)).
Proof.
  revert w. induction p as [r|e|c k IH]; intros w; [by rewrite app_nil_r.. |].
  rewrite run_Call. cbn [prepend world_of trace_of].
  by rewrite IH, env_out, lines_of_app, app_assoc.
Qed.

(** The invariant holds after a program when it held before. *)
Lemma run_ok {R} (p : prog R) (w : W) : ok w -> ok (world_of (run env p w)).
Proof.
  revert w. induction p as [r|e|c k IH]; intros w Hw; [done | done |].
  rewrite run_Call. apply IH. by apply env_ok.
Qed.

End Contract.

(** * Executing the API

    One equation per method: the call is answered by the handler and
    recorded.  They are the rewrite rules of [run] on this signature. *)

Section RunAPI.
Context {W : Type} (h : handler W).
Implicit Types (w : W) (p : playwright) (b : browser) (pg : page).

(** The execution of a single call [c]. *)
Definition answer (c : call) w : final (ret c) W :=
  Final (h c w).1 (h c w).2 [Ev c (h c w).1].

Lemma run_answer c w : run h (perform c) w = answer c w.
Proof. apply run_perform. Qed.

Lemma run_sync_playwright w : run h sync_playwright w = answer SyncPlaywrightEnter w.
Proof. exact (run_answer SyncPlaywrightEnter w). Qed.

Lemma run_sync_playwright_exit p w :
  run h (sync_playwright_exit p) w = answer (SyncPlaywrightExit p) w.
Proof. exact (run_answer (SyncPlaywrightExit p) w). Qed.

Lemma run_launch p hl w : run h (launch p hl) w = answer (Launch p hl) w.
Proof. exact (run_answer (Launch p hl) w). Qed.

Lemma run_new_page b w : run h (new_page b) w = answer (NewPage b) w.
Proof. exact (run_answer (NewPage b) w). Qed.

Lemma run_close b w : run h (close b) w = answer (Close b) w.
Proof. exact (run_answer (Close b) w). Qed.

Lemma run_goto pg url w : run h (goto pg url) w = answer (Goto pg url) w.
Proof. exact (run_answer (Goto pg url) w). Qed.

Lemma run_wait_for_selector pg sel w :
  run h (wait_for_selector pg sel) w = answer (WaitForSelector pg sel) w.
Proof. exact (run_answer (WaitForSelector pg sel) w). Qed.

Lemma run_fill pg sel v w : run h (fill pg sel v) w = answer (Fill pg sel v) w.
Proof. exact (run_answer (Fill pg sel v) w). Qed.

Lemma run_wait_for_timeout pg ms w :
  run h (wait_for_timeout pg ms) w = answer (WaitForTimeout pg ms) w.
Proof. exact (run_answer (WaitForTimeout pg ms) w). Qed.

Lemma run_screenshot pg path w :
  run h (screenshot pg path) w = answer (Screenshot pg path) w.
Proof. exact (run_answer (Screenshot pg path) w). Qed.

Lemma run_print s w : run h (print s) w = answer (PrintLine s) w.
Proof. exact (run_answer (PrintLine s) w). Qed.

End RunAPI.

#[export] Hint Rewrite @run_sync_playwright @run_sync_playwright_exit @run_launch
  @run_new_page @run_close @run_goto @run_wait_for_selector @run_fill
  @run_wait_for_timeout @run_screenshot @run_print : run.

(** Answer the next call of the goal: case analysis on what the handler
    [h] gives it (a value [a] or an exception [e]) and on the state it
    leaves. *)
Ltac answer_call h a e :=
  repeat progress (run_simpl; try unfold answer);
  match goal with
  | |- context [h ?c ?w] =>
      let w' := fresh "w" in
      destruct (h c w) as [[a|e] w']; run_simpl
  end.

(** One step of a script: case analysis on the answer to its first call. *)
Ltac script_step h :=
  rewrite run_perform_all_cons;
  match goal with
  | |- context [h ?c ?w] =>
      let e := fresh "e" in let w' := fresh "w" in
      destruct (h c w) as [[[]|e] w'];
      cbn [fst snd prepend outcome_of world_of trace_of app]
  end.

(** Prove [calls_sat P] of a program built from the API's methods and
    Python's statements, leaving the facts [P c] about its calls and the
    programs it does not know. *)
Ltac calls_sat_api :=
  repeat match goal with
  | |- calls_sat _ (mbind _ _) => unfold mbind, prog_bind
  | |- calls_sat _ (bind _ _) => apply calls_sat_bind; [|intros ?]
  | |- calls_sat _ (try_finally _ _) => apply calls_sat_try_finally
  | |- calls_sat _ (try_except _ _ _) => apply calls_sat_try_except; [|intros ?]
  | |- calls_sat ?P (perform ?c) => apply (@calls_sat_perform call ret P c)
  | |- calls_sat _ sync_playwright => unfold sync_playwright
  | |- calls_sat _ (sync_playwright_exit _) => unfold sync_playwright_exit
  | |- calls_sat _ (launch _ _) => unfold launch
  | |- calls_sat _ (new_page _) => unfold new_page
  | |- calls_sat _ (close _) => unfold close
  | |- calls_sat _ (goto _ _) => unfold goto
  | |- calls_sat _ (wait_for_selector _ _) => unfold wait_for_selector
  | |- calls_sat _ (fill _ _ _) => unfold fill
  | |- calls_sat _ (wait_for_timeout _ _) => unfold wait_for_timeout
  | |- calls_sat _ (screenshot _ _) => unfold screenshot
  | |- calls_sat _ (print _) => unfold print
  end.
