(* ===== verification/App.v ===== *)
(** * App: the application under test

    The web application the script drives is not part of the repository
    under [src/]; this file models what the specification (section 6) and
    the comments of the source (lines 16 to 21) say of it: a page with
    input elements addressed by selectors, and a table derived from the
    inputs that is recomputed once the inputs have been stable for the
    debounce delay.  The state of a loaded page is the current value of
    each input, the input values the table was last computed from, and
    the time left before the pending recomputation. *)

From stdpp Require Import base strings list gmap.
From Stdlib Require Import DecimalString.
From S2P Require Import Prelude.

#[local] Open Scope Z_scope.

(** * State *)

Record app_state : Type := AppState {
  inputs : gmap string string;
  rendered : gmap string string;
  timer : option Z
}.

#[export] Instance app_state_eq_dec : EqDecision app_state.
Proof. solve_decision. Defined.

(** * Operations *)

(** The page as the server delivers it. *)
Definition app_load (defaults : gmap string string) : app_state :=
  AppState defaults defaults None.

(** An input event: the value changes at once, the table does not; the
    debounce timer is restarted with the full delay. *)
Definition app_input (delay : Z) (selector value : string) (a : app_state) : app_state :=
  AppState (<[selector := value]> (inputs a)) (rendered a) (Some delay).

(** [t] milliseconds pass: a timer that expires fires the recomputation of
    the table from the current inputs. *)
Definition app_elapse (t : Z) (a : app_state) : app_state :=
  match timer a with
  | None => a
  | Some r =>
      if r <=? t then AppState (inputs a) (inputs a) None
      else AppState (inputs a) (rendered a) (Some (r - t))
  end.

(** The table shows the current inputs and no recomputation is pending. *)
Definition app_settled (a : app_state) : Prop :=
  timer a = None /\ rendered a = inputs a.

#[export] Instance app_settled_dec a : Decision (app_settled a).
Proof. unfold app_settled. apply _. Defined.

(** The table, as far as the source describes it (lines 19 to 21): a row
    gives the points needed for a percentage of the maximum.  The formula
    is read off the one example of the comment (96 percent of 100 points
    is 96 points); the specification does not give it. *)
Definition parse_points (s : string) : option Z :=
  Z.of_uint <$> NilZero.uint_of_string s.

Definition points_for (percent max_points : Z) : Z := percent * max_points / 100.

Definition table_points (a : app_state) (percent : Z) : option Z :=
  s ← rendered a !! "#maxPoints"; m ← parse_points s; Some (points_for percent m).

(** * Properties *)

Lemma app_load_settled defaults : app_settled (app_load defaults).
Proof. done. Qed.

Lemma inputs_app_elapse t a : inputs (app_elapse t a) = inputs a.
Proof. unfold app_elapse. destruct (timer a); [case_match |]; done. Qed.

Lemma inputs_app_input delay sel v a :
  inputs (app_input delay sel v a) = <[sel := v]> (inputs a).
Proof. done. Qed.

(** A settled page does not change with time. *)
Lemma app_elapse_settled t a : app_settled a -> app_elapse t a = a.
Proof. intros [Ht _]. unfold app_elapse. by rewrite Ht. Qed.

(** Time composes. *)
Lemma app_elapse_add t1 t2 a :
  0 <= t1 -> 0 <= t2 -> app_elapse t2 (app_elapse t1 a) = app_elapse (t1 + t2) a.
Proof.
  intros H1 H2. unfold app_elapse. destruct (timer a) as [r|] eqn:Hr; simpl; [|by rewrite Hr].
  destruct (Z.leb_spec r t1); simpl.
  - destruct (Z.leb_spec r (t1 + t2)); [done | lia].
  - destruct (Z.leb_spec (r - t1) t2), (Z.leb_spec r (t1 + t2)); try lia; [done |].
    do 2 f_equal. lia.
Qed.

(** Once the delay has passed after an input, the table shows the inputs. *)
Lemma app_elapse_input_settled delay t sel v a :
  delay <= t -> app_settled (app_elapse t (app_input delay sel v a)).
Proof.
  intros Ht. unfold app_elapse, app_input; simpl.
  by destruct (Z.leb_spec delay t); [|lia].
Qed.

(** Before the delay has passed, the table still shows what it showed:
    this is the debounce. *)
Lemma app_elapse_input_stale delay t sel v a :
  t < delay -> rendered (app_elapse t (app_input delay sel v a)) = rendered a.
Proof.
  intros Ht. unfold app_elapse, app_input; simpl.
  by destruct (Z.leb_spec delay t); [lia |].
Qed.

(** The row the source's comment expects: 96 percent of 100 points. *)
Lemma points_for_96_of_100 : points_for 96 100 = 96.
Proof. reflexivity. Qed.
