(* ===== verification/World.v ===== *)
(** * World: a model of what the script talks to

    The Playwright driver, the browsers, the pages with the application
    loaded in them, the file system and the standard output, as the
    specification describes their observable behaviour (sections 3 and 6):
    the state [world], one operation per call of [Playwright.call], the
    handler [world_handler] that dispatches on the call, the
    well-formedness invariant [wf] with its preservation by every call,
    the calls that neither write a file nor print ([silent]), and the
    instance of [Playwright.Environment].

    None of this is code of the repository: the definitions are written
    from the specification and from the contract of the API the source
    relies on.  In this world the start and the stop of the driver,
    [browser.close()] and [print] always return: the failures it
    produces are those of the scenarios of the specification (no
    browser, the server down, an element missing, a closed page or
    browser).  The theorems about the script in this world are in
    [Scenarios]; what the script does when the other calls fail is in
    [Verifier], for every handler. *)

From stdpp Require Import base strings list gmap.
From S2P Require Import Prelude Python Playwright App.

#[local] Open Scope Z_scope.

(** * State *)

(** What a run does not change: whether the application answers at the
    URL, whether a browser can be launched, the elements of the
    application's page, the initial values of its inputs, its debounce
    delay. *)
Record setup : Type := Setup {
  server_up : bool;
  chromium_installed : bool;
  elements : list string;
  defaults : gmap string string;
  debounce : Z
}.

(** A page of a browser; [tab_app] is the application once loaded. *)
Record tab : Type := Tab { tab_browser : browser; tab_app : option app_state }.

(** An image file is the state of the page it shows ([None]: a blank page). *)
Definition image : Type := option app_state.

Record world : Type := World {
  cfg : setup;
  clock : Z;
  next_id : nat;
  drivers : gset playwright;
  browsers : gmap browser playwright;
  pages : gmap page tab;
  files : gmap string image;
  stdout : list string
}.

Definition initial (c : setup) : world := World c 0 0 ∅ ∅ ∅ ∅ [].

(** * Field updates *)

Definition set_drivers (d : gset playwright) (w : world) : world :=
  World (cfg w) (clock w) (next_id w) d (browsers w) (pages w) (files w) (stdout w).

Definition set_browsers (b : gmap browser playwright) (w : world) : world :=
  World (cfg w) (clock w) (next_id w) (drivers w) b (pages w) (files w) (stdout w).

Definition set_pages (p : gmap page tab) (w : world) : world :=
  World (cfg w) (clock w) (next_id w) (drivers w) (browsers w) p (files w) (stdout w).

Definition set_files (f : gmap string image) (w : world) : world :=
  World (cfg w) (clock w) (next_id w) (drivers w) (browsers w) (pages w) f (stdout w).

Definition set_stdout (l : list string) (w : world) : world :=
  World (cfg w) (clock w) (next_id w) (drivers w) (browsers w) (pages w) (files w) l.

(** Take the next handle number. *)
Definition bump (w : world) : world :=
  World (cfg w) (clock w) (S (next_id w)) (drivers w) (browsers w) (pages w)
        (files w) (stdout w).

(** [t] milliseconds pass, in every page. *)
Definition elapse (t : Z) (w : world) : world :=
  World (cfg w) (clock w + t) (next_id w) (drivers w) (browsers w)
        ((fun tb => Tab (tab_browser tb) (app_elapse t <$> tab_app tb)) <$> pages w)
        (files w) (stdout w).

(** Replace what the page [pg] is. *)
Definition with_tab (pg : page) (tb : tab) (w : world) : world :=
  set_pages (<[pg := tb]> (pages w)) w.

Definition tab_elapse (t : Z) (tb : tab) : tab :=
  Tab (tab_browser tb) (app_elapse t <$> tab_app tb).

(** * Errors *)

Definition app_url : string := "http://localhost:3000".
Definition default_timeout : Z := 30000.

Definition refused (url : string) : exn :=
  Exn "Error" true ("net::ERR_CONNECTION_REFUSED at " +:+ url).

Definition timed_out : exn := Exn "TimeoutError" true "Timeout 30000ms exceeded.".

Definition target_closed : exn :=
  Exn "TargetClosedError" true "Target page, context or browser has been closed".

Definition no_executable : exn := Exn "Error" true "Executable doesn't exist".

(** * Operations, one per call *)

Definition w_enter (w : world) : outcome playwright * world :=
  let p := Playwright (next_id w) in
  (Returned p, bump (set_drivers ({[p]} ∪ drivers w) w)).

(** Stopping the driver ends its browsers and their pages. *)
Definition w_exit (p : playwright) (w : world) : outcome unit * world :=
  let bs := filter (fun bq => bq.2 <> p) (browsers w) in
  (Returned tt,
   set_pages (filter (fun pt => is_Some (bs !! tab_browser pt.2)) (pages w))
     (set_browsers bs (set_drivers (drivers w ∖ {[p]}) w))).

Definition w_launch (p : playwright) (headless : bool) (w : world)
  : outcome browser * world :=
  if bool_decide (p ∈ drivers w) && chromium_installed (cfg w) then
    let b := Browser (next_id w) in
    (Returned b, bump (set_browsers (<[b := p]> (browsers w)) w))
  else (Raised no_executable, w).

Definition w_new_page (b : browser) (w : world) : outcome page * world :=
  match browsers w !! b with
  | Some _ =>
      let pg := Page (next_id w) in
      (Returned pg, bump (set_pages (<[pg := Tab b None]> (pages w)) w))
  | None => (Raised target_closed, w)
  end.

(** Closing a browser ends its pages; closing a closed browser is allowed. *)
Definition w_close (b : browser) (w : world) : outcome unit * world :=
  (Returned tt,
   set_pages (filter (fun pt => tab_browser pt.2 <> b) (pages w))
     (set_browsers (delete b (browsers w)) w)).

(** A call on a page: the page must be open. *)
Definition on_page (pg : page) (w : world) (k : tab -> outcome unit * world)
  : outcome unit * world :=
  match pages w !! pg with
  | Some tb => k tb
  | None => (Raised target_closed, w)
  end.

Definition w_goto (pg : page) (url : string) (w : world) : outcome unit * world :=
  on_page pg w (fun tb =>
    if server_up (cfg w) && bool_decide (url = app_url) then
      (Returned tt,
       set_pages (<[pg := Tab (tab_browser tb) (Some (app_load (defaults (cfg w))))]>
                    (pages w)) w)
    else (Raised (refused url), w)).

(** The element is looked up in the loaded application; a missing element
    is waited for until the default timeout. *)
Definition has_element (w : world) (tb : tab) (selector : string) : bool :=
  bool_decide (is_Some (tab_app tb)) && bool_decide (selector ∈ elements (cfg w)).

Definition w_wait_for_selector (pg : page) (selector : string) (w : world)
  : outcome unit * world :=
  on_page pg w (fun tb =>
    if has_element w tb selector then (Returned tt, w)
    else (Raised timed_out, elapse default_timeout w)).

Definition w_fill (pg : page) (selector value : string) (w : world)
  : outcome unit * world :=
  on_page pg w (fun tb =>
    match tab_app tb with
    | Some a =>
        if bool_decide (selector ∈ elements (cfg w)) then
          (Returned tt,
           set_pages (<[pg := Tab (tab_browser tb)
                                  (Some (app_input (debounce (cfg w)) selector value a))]>
                        (pages w)) w)
        else (Raised timed_out, elapse default_timeout w)
    | None => (Raised timed_out, elapse default_timeout w)
    end).

Definition w_wait_for_timeout (pg : page) (t : Z) (w : world) : outcome unit * world :=
  on_page pg w (fun _ => (Returned tt, elapse t w)).

(** The screenshot file is created or overwritten with what the page shows. *)
Definition w_screenshot (pg : page) (path : string) (w : world) : outcome unit * world :=
  on_page pg w (fun tb => (Returned tt, set_files (<[path := tab_app tb]> (files w)) w)).

Definition w_print (s : string) (w : world) : outcome unit * world :=
  (Returned tt, set_stdout (stdout w ++ [s]) w).

Definition world_handler : handler world :=
  fun c =>
    match c return world -> outcome (ret c) * world with
    | SyncPlaywrightEnter => w_enter
    | SyncPlaywrightExit p => w_exit p
    | Launch p headless => w_launch p headless
    | NewPage b => w_new_page b
    | Goto pg url => w_goto pg url
    | WaitForSelector pg selector => w_wait_for_selector pg selector
    | Fill pg selector value => w_fill pg selector value
    | WaitForTimeout pg t => w_wait_for_timeout pg t
    | Screenshot pg path => w_screenshot pg path
    | PrintLine s => w_print s
    | Close b => w_close b
    end.

(** * Well-formedness

    Handles in use are below the next handle number; the driver of a live
    browser is running; the browser of an open page is live. *)
Record wf (w : world) : Prop := Wf {
  wf_drivers : forall p, p ∈ drivers w -> (playwright_id p < next_id w)%nat;
  wf_browsers : forall b p, browsers w !! b = Some p ->
    (browser_id b < next_id w)%nat /\ p ∈ drivers w;
  wf_pages : forall pg tb, pages w !! pg = Some tb ->
    (page_id pg < next_id w)%nat /\ is_Some (browsers w !! tab_browser tb)
}.

(** The calls that neither write a file nor print. *)
Definition silent (c : call) : Prop :=
  match c with
  | Screenshot _ _ | PrintLine _ => False
  | _ => True
  end.

(** No resource is held: no driver runs, no browser is live, no page is open. *)
Definition quiescent (w : world) : Prop :=
  drivers w = ∅ /\ browsers w = ∅ /\ pages w = ∅.

(** The setup of the specification's scenario A: the application is up and
    has the two inputs of the script, with a debounce delay of 500 ms. *)
Definition scenario_setup : setup :=
  Setup true true ["#examTitle"; "#maxPoints"]
        {[ "#examTitle" := ""; "#maxPoints" := "" ]} 500.

(** * Preservation of well-formedness *)

Lemma wf_initial c : wf (initial c).
Proof. split; simpl; intros *; [set_solver | by rewrite lookup_empty..]. Qed.

Lemma on_page_wf pg w k :
  wf w -> (forall tb, pages w !! pg = Some tb -> wf (k tb).2) -> wf (on_page pg w k).2.
Proof. intros Hw Hk. unfold on_page. destruct (pages w !! pg); auto. Qed.

Lemma wf_elapse t w : wf w -> wf (elapse t w).
Proof.
  intros [Hd Hb Hp]. split; simpl; [done | done |].
  intros pg tb. rewrite lookup_fmap. intros (tb' & Htb & ->)%fmap_Some_1. simpl. eauto.
Qed.

Lemma wf_set_files f w : wf w -> wf (set_files f w).
Proof. by intros []. Qed.

Lemma wf_set_stdout l w : wf w -> wf (set_stdout l w).
Proof. by intros []. Qed.

Lemma wf_set_tab pg tb a w :
  wf w -> pages w !! pg = Some tb ->
  wf (set_pages (<[pg := Tab (tab_browser tb) a]> (pages w)) w).
Proof.
  intros [Hd Hb Hp] Hpg. split; simpl; [done | done |].
  intros pg' tb'. rewrite lookup_insert. case_decide; [intros [= <-]; subst | ]; eauto.
  simpl. eauto.
Qed.

Lemma w_enter_wf w : wf w -> wf (w_enter w).2.
Proof.
  intros [Hd Hb Hp]. split; simpl.
  - intros p [->%elem_of_singleton|Hin]%elem_of_union; [simpl; lia | apply Hd in Hin; lia].
  - intros b p [? ?]%Hb. split; [lia | apply elem_of_union; by right].
  - intros pg tb [? ?]%Hp. split; [lia | done].
Qed.

Lemma w_exit_wf p w : wf w -> wf (w_exit p w).2.
Proof.
  intros [Hd Hb Hp]. split; simpl.
  - intros q [Hin _]%elem_of_difference. by apply Hd.
  - intros b q [[? ?]%Hb ?]%map_lookup_filter_Some. simpl in *.
    split; [done | apply elem_of_difference; split; [done | by intros ->%elem_of_singleton]].
  - intros pg tb [[? ?]%Hp ?]%map_lookup_filter_Some. done.
Qed.

Lemma w_launch_wf p hl w : wf w -> wf (w_launch p hl w).2.
Proof.
  intros [Hd Hb Hp]. unfold w_launch. case_match; [|done].
  split_andb. case_bool_decide; [|done]. split; simpl.
  - intros q ?%Hd. lia.
  - intros b q. rewrite lookup_insert.
    case_decide; [intros [= <-]; subst; simpl; split; [lia | done] |].
    intros [? ?]%Hb. split; [lia | done].
  - intros pg tb [? [q Hq]]%Hp. split; [lia |].
    rewrite lookup_insert. case_decide; eauto.
Qed.

Lemma w_new_page_wf b w : wf w -> wf (w_new_page b w).2.
Proof.
  intros [Hd Hb Hp]. unfold w_new_page. destruct (browsers w !! b) eqn:Hbb; [|done].
  split; simpl.
  - intros q ?%Hd. lia.
  - intros b' q [? ?]%Hb. split; [lia | done].
  - intros pg tb. rewrite lookup_insert.
    case_decide; [intros [= <-]; subst; simpl; split; [lia | eauto] |].
    intros [? ?]%Hp. split; [lia | done].
Qed.

Lemma w_close_wf b w : wf w -> wf (w_close b w).2.
Proof.
  intros [Hd Hb Hp]. split; simpl; [done | |].
  - intros b' q [_ ?]%lookup_delete_Some. eauto.
  - intros pg tb [[? ?]%Hp ?]%map_lookup_filter_Some. simpl in *.
    by rewrite lookup_delete_ne.
Qed.

Lemma world_handler_wf c w : wf w -> wf (world_handler c w).2.
Proof.
  intros Hw. destruct c; simpl;
    [ by apply w_enter_wf | by apply w_exit_wf | by apply w_launch_wf
    | by apply w_new_page_wf | .. | by apply wf_set_stdout | by apply w_close_wf ];
    apply on_page_wf; [done | intros tb Htb | done | intros tb Htb | done | intros tb Htb
                      | done | intros tb Htb | done | intros tb Htb ].
  - case_match; [by apply wf_set_tab | done].
  - case_match; [done | by apply wf_elapse].
  - repeat case_match; try by apply wf_elapse. by apply wf_set_tab.
  - by apply wf_elapse.
  - by apply wf_set_files.
Qed.

(** * Files and output *)

(** Only [screenshot] writes a file and only [print] prints. *)
Lemma world_handler_silent c w :
  silent c ->
  files (world_handler c w).2 = files w /\ stdout (world_handler c w).2 = stdout w.
Proof.
  destruct c; try done; intros _; simpl;
    unfold w_launch, w_new_page, w_goto, w_wait_for_selector, w_fill, w_wait_for_timeout,
      on_page; by repeat case_match.
Qed.

Lemma run_silent {R} (p : prog R) w :
  calls_sat silent p ->
  files (world_of (run world_handler p w)) = files w
  /\ stdout (world_of (run world_handler p w)) = stdout w.
Proof.
  intros Hp.
  apply (run_invariant silent (fun w' => files w' = files w /\ stdout w' = stdout w));
    [done | | done].
  intros c w' Hc [<- <-]. by apply world_handler_silent.
Qed.

(** Every error of the world derives from [Exception]. *)
Lemma world_raises_Exception c w e :
  (world_handler c w).1 = Raised e -> isinstance_Exception e = true.
Proof.
  destruct c; simpl;
    unfold w_launch, w_new_page, w_goto, w_wait_for_selector, w_fill, w_wait_for_timeout,
      w_screenshot, on_page; repeat case_match; by intros [= <-].
Qed.

(** * The contract *)

Lemma world_enter_law w :
  wf w ->
  match (world_handler SyncPlaywrightEnter w).1 with
  | Returned p => forall b, browsers w !! b <> Some p
  | Raised _ => True
  end
  /\ browsers (world_handler SyncPlaywrightEnter w).2 = browsers w.
Proof.
  intros [Hd Hb Hp]. split; [|done]. simpl. intros b [_ Hin]%Hb.
  apply Hd in Hin. simpl in Hin. lia.
Qed.

Lemma world_launch_law w p hl :
  wf w ->
  match (world_handler (Launch p hl) w).1 with
  | Returned b =>
      browsers w !! b = None
      /\ browsers (world_handler (Launch p hl) w).2 = <[b := p]> (browsers w)
  | Raised _ => browsers (world_handler (Launch p hl) w).2 = browsers w
  end.
Proof.
  intros [Hd Hb Hp]. simpl. unfold w_launch. destruct (_ && _); simpl; [|done].
  split; [|done]. destruct (browsers w !! _) eqn:Hl; [|done].
  apply Hb in Hl as [Hl _]. simpl in Hl. lia.
Qed.

Lemma world_close_law w b :
  browsers (world_handler (Close b) w).2 ⊆ browsers w
  /\ (returned (world_handler (Close b) w).1 = true ->
      browsers (world_handler (Close b) w).2 = delete b (browsers w)).
Proof. split; [apply delete_subseteq | done]. Qed.

Lemma world_other_law w c :
  match c with
  | SyncPlaywrightEnter | SyncPlaywrightExit _ | Launch _ _ | Close _ => True
  | _ => browsers (world_handler c w).2 = browsers w
  end.
Proof.
  destruct c; try done; simpl;
    unfold w_new_page, w_goto, w_wait_for_selector, w_fill, w_wait_for_timeout,
      w_screenshot, on_page; by repeat case_match.
Qed.

Lemma world_out_law w c :
  stdout (world_handler c w).2 = stdout w ++ lines_of [Ev c (world_handler c w).1].
Proof.
  destruct c; simpl; try done;
    unfold w_launch, w_new_page, w_goto, w_wait_for_selector, w_fill, w_wait_for_timeout,
      w_screenshot, on_page; repeat case_match; by rewrite ?app_nil_r.
Qed.

#[export] Instance world_environment : Environment world :=
  Build_Environment world world_handler browsers stdout wf
    world_handler_wf world_enter_law world_launch_law world_close_law
    (fun _ _ => eq_refl) world_other_law world_out_law.

(** * The operations on an open page

    The equations of the operations in a world written [with_tab pg tb w]:
    the page [pg] is open and is [tb].  They are the rules by which the
    script is executed symbolically in [Scenarios]. *)

Section Focus.
Implicit Types (w : world) (pg : page) (b : browser) (tb : tab) (a : app_state).

Lemma pages_with_tab pg tb w : pages (with_tab pg tb w) !! pg = Some tb.
Proof. apply lookup_insert_eq. Qed.

Lemma with_tab_with_tab pg tb tb' w :
  with_tab pg tb (with_tab pg tb' w) = with_tab pg tb w.
Proof. unfold with_tab, set_pages; simpl. by rewrite insert_insert_eq. Qed.

Lemma elapse_with_tab t pg tb w :
  elapse t (with_tab pg tb w) = with_tab pg (tab_elapse t tb) (elapse t w).
Proof. unfold with_tab, elapse, set_pages; simpl. by rewrite fmap_insert. Qed.

Lemma on_page_with_tab pg tb w k : on_page pg (with_tab pg tb w) k = k tb.
Proof. unfold on_page. by rewrite pages_with_tab. Qed.

Lemma w_goto_open pg b oa w :
  server_up (cfg w) = true ->
  w_goto pg app_url (with_tab pg (Tab b oa) w)
  = (Returned tt, with_tab pg (Tab b (Some (app_load (defaults (cfg w))))) w).
Proof.
  intros Hup. unfold w_goto. rewrite on_page_with_tab. simpl. rewrite Hup. simpl.
  f_equal. apply with_tab_with_tab.
Qed.

Lemma w_goto_refused pg tb url w :
  server_up (cfg w) = false ->
  w_goto pg url (with_tab pg tb w) = (Raised (refused url), with_tab pg tb w).
Proof. intros Hup. unfold w_goto. rewrite on_page_with_tab. simpl. by rewrite Hup. Qed.

Lemma w_wait_for_selector_open pg b a sel w :
  sel ∈ elements (cfg w) ->
  w_wait_for_selector pg sel (with_tab pg (Tab b (Some a)) w)
  = (Returned tt, with_tab pg (Tab b (Some a)) w).
Proof.
  intros Hsel. unfold w_wait_for_selector, has_element. rewrite on_page_with_tab. simpl.
  by rewrite !bool_decide_eq_true_2 by eauto.
Qed.

Lemma w_wait_for_selector_missing pg tb sel w :
  sel ∉ elements (cfg w) ->
  w_wait_for_selector pg sel (with_tab pg tb w)
  = (Raised timed_out, with_tab pg (tab_elapse default_timeout tb) (elapse default_timeout w)).
Proof.
  intros Hsel. unfold w_wait_for_selector, has_element. rewrite on_page_with_tab. simpl.
  rewrite (bool_decide_eq_false_2 (sel ∈ _)), andb_false_r by done.
  f_equal. apply elapse_with_tab.
Qed.

Lemma w_fill_open pg b a sel v w :
  sel ∈ elements (cfg w) ->
  w_fill pg sel v (with_tab pg (Tab b (Some a)) w)
  = (Returned tt, with_tab pg (Tab b (Some (app_input (debounce (cfg w)) sel v a))) w).
Proof.
  intros Hsel. unfold w_fill. rewrite on_page_with_tab. simpl.
  rewrite bool_decide_eq_true_2 by done. f_equal. apply with_tab_with_tab.
Qed.

Lemma w_fill_missing pg tb sel v w :
  sel ∉ elements (cfg w) ->
  w_fill pg sel v (with_tab pg tb w)
  = (Raised timed_out, with_tab pg (tab_elapse default_timeout tb) (elapse default_timeout w)).
Proof.
  intros Hsel. unfold w_fill. rewrite on_page_with_tab. simpl.
  rewrite bool_decide_eq_false_2 by done.
  destruct (tab_app tb); f_equal; apply elapse_with_tab.
Qed.

Lemma w_wait_for_timeout_open pg tb t w :
  w_wait_for_timeout pg t (with_tab pg tb w)
  = (Returned tt, with_tab pg (tab_elapse t tb) (elapse t w)).
Proof. unfold w_wait_for_timeout. by rewrite on_page_with_tab, elapse_with_tab. Qed.

Lemma w_screenshot_open pg tb path w :
  w_screenshot pg path (with_tab pg tb w)
  = (Returned tt, with_tab pg tb (set_files (<[path := tab_app tb]> (files w)) w)).
Proof. unfold w_screenshot. by rewrite on_page_with_tab. Qed.

Lemma w_print_with_tab pg tb s w :
  w_print s (with_tab pg tb w) = (Returned tt, with_tab pg tb (set_stdout (stdout w ++ [s]) w)).
Proof. done. Qed.

Lemma w_new_page_live b p w :
  browsers w !! b = Some p ->
  w_new_page b w = (Returned (Page (next_id w)), with_tab (Page (next_id w)) (Tab b None) (bump w)).
Proof. intros Hb. unfold w_new_page. by rewrite Hb. Qed.

Lemma w_launch_running p hl w :
  p ∈ drivers w -> chromium_installed (cfg w) = true ->
  w_launch p hl w
  = (Returned (Browser (next_id w)),
     bump (set_browsers (<[Browser (next_id w) := p]> (browsers w)) w)).
Proof.
  intros Hp Hc. unfold w_launch. by rewrite bool_decide_eq_true_2, Hc.
Qed.

Lemma w_launch_failed p hl w :
  chromium_installed (cfg w) = false -> w_launch p hl w = (Raised no_executable, w).
Proof. intros Hc. unfold w_launch. by rewrite Hc, andb_false_r. Qed.

End Focus.
