(* ===== verification/Verifier.v ===== *)
(** * Verifier: the script

    [verify_app] and [main] are the two blocks of
    [src/verify_debounce.py], translated statement by statement; [script]
    is the module, with the guard of line 27 around [main].  The
    theorems of the section [AnyEnvironment] hold for every handler of the
    calls, that is for every behaviour of the environment: whichever calls
    return and whichever raise, and whatever they raise.  The theorems of
    the section [AnyContract] hold for every environment that honours the
    laws of [Playwright.Environment].  The file ends with the executions
    on which the theorems are exercised. *)

From stdpp Require Import base strings list gmap.
From S2P Require Import Prelude Python Playwright App World.

#[local] Open Scope py_scope.
#[local] Open Scope string_scope.
#[local] Open Scope list_scope.

(** * The program *)

(** [def verify_app(page)], source lines 3 to 25. *)
Definition verify_app (page : page) : prog unit :=
  goto page "http://localhost:3000" ;;
  wait_for_selector page "#maxPoints" ;;
  fill page "#examTitle" "Debounce Test Exam" ;;
  fill page "#maxPoints" "100" ;;
  wait_for_timeout page 1000 ;;
  screenshot page "verification.png" ;;
  print "Screenshot taken".

(** The block under [if __name__ == "__main__":], source lines 28 to 36. *)
Definition main : prog unit :=
  with_ sync_playwright sync_playwright_exit (fun p =>
    browser <- launch p true ;;
    page <- new_page browser ;;
    try_finally
      (try_except (verify_app page) isinstance_Exception
         (fun e => print ("Error: " +:+ str e)))
      (close browser)).

(** The module as Python executes it with [__name__] bound to [name]
    (source lines 1 to 36): the import and the definition of [verify_app]
    make no call, and the block of line 27 runs only when the file is run
    as a script. *)
Definition script (name : string) : prog unit :=
  if decide (name = "__main__") then main else Ret tt.

(** * The specification *)

(** The body of the [with] statement (lines 29 to 36), as a function of
    the driver; [main] is [with_ sync_playwright sync_playwright_exit body]. *)
Definition body (p : playwright) : prog unit :=
  browser <- launch p true ;;
  page <- new_page browser ;;
  try_finally
    (try_except (verify_app page) isinstance_Exception
       (fun e => print ("Error: " +:+ str e)))
    (close browser).

(** The steps of the contract, in order (specification 4.1, steps 3 to 9). *)
Definition verify_steps (pg : page) : list call :=
  [ Goto pg "http://localhost:3000";
    WaitForSelector pg "#maxPoints";
    Fill pg "#examTitle" "Debounce Test Exam";
    Fill pg "#maxPoints" "100";
    WaitForTimeout pg 1000;
    Screenshot pg "verification.png";
    PrintLine "Screenshot taken" ].

(** What an execution of [verify_app] on the page [pg] looks like: it
    performs a prefix of the steps, stops at the first call that raises,
    and returns only after the last step. *)
Definition verify_trace (pg : page) (t : list event) (o : outcome unit) : Prop :=
  map ev_call t `prefix_of` verify_steps pg
  /\ fail_fast t o
  /\ (o = Returned tt -> map ev_call t = verify_steps pg).

(** The [except Exception as e] clause (specification 4.1, failure
    semantics): given the outcome of the protected block, the events of the
    clause and the outcome after it. *)
Inductive handled : outcome unit -> list event -> outcome unit -> Prop :=
| handled_returned :
    handled (Returned tt) [] (Returned tt)
| handled_caught e o :
    isinstance_Exception e = true ->
    handled (Raised e) [Ev (PrintLine ("Error: " +:+ str e)) o] o
| handled_passed e :
    isinstance_Exception e = false ->
    handled (Raised e) [] (Raised e).

(** The sessions of the script: the traces it may leave and the outcome
    that goes with each (specification 4.1 and 7).  The driver may fail to
    start; the browser may fail to launch; the page may fail to open; past
    that point the steps run, the error is reported if there is one, the
    browser is closed and the driver stopped. *)
Inductive session : list event -> outcome unit -> Prop :=
| session_no_driver e :
    session [Ev SyncPlaywrightEnter (Raised e)] (Raised e)
| session_no_browser p e ox :
    session [Ev SyncPlaywrightEnter (Returned p);
             Ev (Launch p true) (Raised e);
             Ev (SyncPlaywrightExit p) ox]
            (after ox (Raised e))
| session_no_page p b e ox :
    session [Ev SyncPlaywrightEnter (Returned p);
             Ev (Launch p true) (Returned b);
             Ev (NewPage b) (Raised e);
             Ev (SyncPlaywrightExit p) ox]
            (after ox (Raised e))
| session_page p b pg tv ov th oh oc ox :
    verify_trace pg tv ov ->
    handled ov th oh ->
    session ([Ev SyncPlaywrightEnter (Returned p);
              Ev (Launch p true) (Returned b);
              Ev (NewPage b) (Returned pg)]
             ++ tv ++ th
             ++ [Ev (Close b) oc; Ev (SyncPlaywrightExit p) ox])
            (after ox (after oc oh)).

(** An event that [main] absorbs: the call returned, or it is a step of
    [verify_app] (a call on the page, or the confirmation message) that
    raised an exception deriving from [Exception]. *)
Definition absorbed (ev : event) : bool :=
  match ev_raised ev with
  | None => true
  | Some e =>
      isinstance_Exception e
      && (is_page_call (ev_call ev)
          || bool_decide (ev_call ev = PrintLine "Screenshot taken"))
  end.

(** The exception an execution of [main] ends with, read off its trace:
    that of the last event [main] does not absorb. *)
Fixpoint last_failure (t : list event) : option exn :=
  match t with
  | [] => None
  | ev :: t' =>
      match last_failure t' with
      | Some e => Some e
      | None => if absorbed ev then None else ev_raised ev
      end
  end.

(** The place of a call in the procedure (specification 4.1): the driver,
    the browser, the page, the seven steps of [verify_app], the report of
    an error, the closing of the browser, the stop of the driver. *)
Definition stage (c : call) : nat :=
  match c with
  | SyncPlaywrightEnter => 0
  | Launch _ _ => 1
  | NewPage _ => 2
  | Goto _ _ => 3
  | WaitForSelector _ _ => 4
  | Fill _ selector _ => if decide (selector = "#examTitle") then 5 else 6
  | WaitForTimeout _ _ => 7
  | Screenshot _ _ => 8
  | PrintLine s => if decide (s = "Screenshot taken") then 9 else 10
  | Close _ => 11
  | SyncPlaywrightExit _ => 12
  end.

(** The calls the body of the [with] statement may make once the driver [p]
    is entered: it neither enters nor leaves a context, and it launches
    browsers from [p] only. *)
Definition in_session (p : playwright) (c : call) : Prop :=
  match c with
  | SyncPlaywrightEnter | SyncPlaywrightExit _ => False
  | Launch p' _ => p' = p
  | _ => True
  end.

(** The live browsers of a state [w], seen from the state [w0] in which
    the driver [p] was entered: each is a browser of [p] or was live. *)
Definition owned_or_old `{Environment W} (p : playwright) (w0 w : W) : Prop :=
  forall b q, live w !! b = Some q -> q = p \/ live w0 !! b = Some q.

(** Behaviours of the scripted environment on which the theorems are
    exercised: every call returns; navigation is refused (the fourth call
    raises); the page cannot be opened (the third call raises); the wait
    of one second is interrupted (the eighth call raises
    [KeyboardInterrupt]). *)
Definition all_return : list (option exn) := [].

Definition navigation_refused : list (option exn) :=
  [None; None; None; Some NavigationError].

Definition no_page : list (option exn) := [None; None; Some TimeoutError].

Definition interrupted_wait : list (option exn) :=
  [None; None; None; None; None; None; None; Some KeyboardInterrupt].

(** * [verify_app] *)

Lemma verify_app_script pg : peq (verify_app pg) (perform_all (verify_steps pg)).
Proof. cbv -[String.append]. repeat (constructor; intros [[]|?]). Qed.

Section AnyEnvironment.
Context {W : Type} (h : handler W).
Implicit Types (w : W) (pg : page).

Lemma run_verify_app pg w :
  run h (verify_app pg) w = run h (perform_all (verify_steps pg)) w.
Proof. by rewrite verify_app_script. Qed.

Lemma verify_app_trace pg w :
  verify_trace pg (trace_of (run h (verify_app pg) w))
                  (outcome_of (run h (verify_app pg) w)).
Proof.
  rewrite run_verify_app. split_and!.
  - apply run_perform_all_prefix.
  - apply straight_fail_fast, straight_perform_all.
  - by intros [? _]%run_perform_all_returned.
Qed.

(** ** Consequences of the specification *)

Lemma verify_trace_steps pg tv ov :
  verify_trace pg tv ov -> Forall (fun ev => ev_call ev ∈ verify_steps pg) tv.
Proof.
  intros [[k Hk] _]. apply Forall_forall. intros ev Hev.
  rewrite Hk. apply elem_of_app. left. by apply list_elem_of_fmap_2.
Qed.

(** A step is a call on the page [pg] or the confirmation message. *)
Lemma verify_steps_inv pg c :
  c ∈ verify_steps pg -> page_of c = Some pg \/ c = PrintLine "Screenshot taken".
Proof. unfold verify_steps. rewrite !elem_of_cons, elem_of_nil. intuition (subst; auto). Qed.

Lemma verify_trace_countb (P : call -> bool) pg tv ov :
  verify_trace pg tv ov ->
  (forall c, page_of c = Some pg -> P c = false) ->
  P (PrintLine "Screenshot taken") = false ->
  countb (on_call P) tv = 0.
Proof.
  intros Hv Hpage Hprint. apply countb_zero_Forall.
  eapply Forall_impl; [by eapply verify_trace_steps |].
  intros ev [Hp | Hc]%verify_steps_inv; unfold on_call; [auto | by rewrite Hc].
Qed.

Lemma handled_countb (P : call -> bool) ov th oh :
  handled ov th oh -> (forall s, P (PrintLine s) = false) -> countb (on_call P) th = 0.
Proof. intros [] HP; simpl; unfold on_call; simpl; by rewrite ?HP. Qed.

Lemma verify_trace_Forall (Q : event -> Prop) pg tv ov :
  verify_trace pg tv ov ->
  (forall ev,
      page_of (ev_call ev) = Some pg \/ ev_call ev = PrintLine "Screenshot taken" -> Q ev) ->
  Forall Q tv.
Proof.
  intros Hv HQ. eapply Forall_impl; [by eapply verify_trace_steps |].
  intros ev Hev%verify_steps_inv. auto.
Qed.

Lemma handled_Forall (Q : event -> Prop) ov th oh :
  handled ov th oh -> (forall ev s, ev_call ev = PrintLine s -> Q ev) -> Forall Q th.
Proof. intros [] HQ; repeat constructor. by eapply HQ. Qed.

Lemma handled_length ov th oh : handled ov th oh -> length th <= 1.
Proof. intros []; simpl; lia. Qed.

Lemma verify_trace_length pg tv ov : verify_trace pg tv ov -> length tv <= 7.
Proof.
  intros [Hp _]. apply prefix_length in Hp. by rewrite length_map in Hp.
Qed.

(** The event of [verify_app] that raised is the last one, and its
    exception is the outcome. *)
Lemma verify_trace_raised pg tv ov ev e :
  verify_trace pg tv ov -> ev ∈ tv -> ev_raised ev = Some e ->
  ov = Raised e /\ exists t', tv = t' ++ [ev].
Proof.
  intros (_ & Hf & _) Hev He. destruct ov as [u|e0]; simpl in Hf.
  - eapply Forall_forall in Hf; [|done].
    unfold ev_raised, ev_returned in *. by destruct (ev_outcome ev).
  - destruct Hf as (t' & ev0 & -> & Ht' & He0).
    apply elem_of_app in Hev as [Hev| ->%list_elem_of_singleton].
    + eapply Forall_forall in Ht'; [|done].
      unfold ev_raised, ev_returned in *. by destruct (ev_outcome ev).
    + split; [congruence | by exists t'].
Qed.

(** An execution of [verify_app] in which every call returned. *)
Lemma verify_trace_returned pg tv ov :
  verify_trace pg tv ov -> Forall (fun ev => ev_returned ev = true) tv ->
  ov = Returned tt /\ map ev_call tv = verify_steps pg.
Proof.
  intros (_ & Hf & Hr) Hall. destruct ov as [[]|e]; simpl in Hf; [auto |].
  destruct Hf as (t' & ev & -> & _ & He).
  apply Forall_app in Hall as [_ [Hev _]%Forall_cons_1].
  unfold ev_raised, ev_returned in *. by destruct (ev_outcome ev).
Qed.

(** The confirmation is the last step: when it is in the trace, the
    screenshot is the event before it, and it returned. *)
Lemma verify_trace_confirmation pg tv ov ev :
  verify_trace pg tv ov -> ev ∈ tv -> ev_call ev = PrintLine "Screenshot taken" ->
  exists t1, tv = t1 ++ [Ev (Screenshot pg "verification.png") (Returned tt); ev].
Proof.
  intros ([k Hk] & Hf & _) [l1 [l2 ->]]%list_elem_of_split Hc.
  rewrite map_app, <- app_assoc in Hk. simpl in Hk. rewrite Hc in Hk.
  apply (app_last_unique _ (take 6 (verify_steps pg))) in Hk as [Hl1 [Hl2 _]%app_eq_nil].
  2: { simpl. rewrite !not_elem_of_cons. split_and!; try done. apply not_elem_of_nil. }
  apply map_eq_nil in Hl2 as ->.
  destruct l1 as [|e6 l1 _] using rev_ind; [done |].
  rewrite map_app in Hl1. apply (app_inj_tail _ (take 5 (verify_steps pg))) in Hl1 as [_ H6].
  rewrite <- app_assoc in Hf |- *. apply fail_fast_not_last in Hf; [|done].
  exists l1. do 2 f_equal. destruct e6 as [c6 o6]. simpl in *. subst c6.
  by destruct o6 as [[]|].
Qed.

(** In a session the event before the confirmation is the screenshot,
    and it returned. *)
Lemma session_confirmation t o ev :
  session t o -> ev ∈ t -> ev_call ev = PrintLine "Screenshot taken" ->
  exists t1 pg t2, t = t1 ++ Ev (Screenshot pg "verification.png") (Returned tt) :: ev :: t2.
Proof.
  intros [e0|p e0 ox|p b e0 ox|p b pg tv ov th oh oc ox Hv Hh] Hin Hc.
  1-3: by elem_of_cases Hin.
  elem_of_cases Hin.
  - destruct (verify_trace_confirmation _ _ _ _ Hv Hin Hc) as [t1 ->].
    exists ([Ev SyncPlaywrightEnter (Returned p); Ev (Launch p true) (Returned b);
             Ev (NewPage b) (Returned pg)] ++ t1), pg,
           (th ++ [Ev (Close b) oc; Ev (SyncPlaywrightExit p) ox]).
    by rewrite <- !app_assoc.
  - by destruct Hh as [|e' o' He'|]; elem_of_cases Hin.
Qed.

(** *** What is printed *)

Lemma lines_of_nil (t : list event) :
  Forall (fun ev => ev_returned ev = true -> printed (ev_call ev) = None) t ->
  lines_of t = [].
Proof.
  induction 1 as [|ev t Hev _ IH]; [done |].
  change (lines_of (ev :: t)) with
    (from_option (fun s => s :: lines_of t) (lines_of t)
       (if ev_returned ev then printed (ev_call ev) else None)).
  rewrite IH. destruct (ev_returned ev); [by rewrite Hev | done].
Qed.

(** [verify_app] prints the confirmation when it returns, and nothing
    when it raises. *)
Lemma verify_trace_lines pg tv ov :
  verify_trace pg tv ov ->
  lines_of tv = if returned ov then ["Screenshot taken"] else [].
Proof.
  intros Hv. destruct ov as [[]|e]; simpl.
  - destruct Hv as (_ & Hf & Hr). by rewrite (lines_of_returned tv Hf), (Hr eq_refl).
  - apply lines_of_nil, Forall_forall. intros ev Hin Hret.
    pose proof (verify_trace_steps _ _ _ Hv) as Hs.
    eapply Forall_forall in Hs; [|done].
    apply verify_steps_inv in Hs as [Hpg|Hc]; [by destruct (ev_call ev) |].
    destruct (verify_trace_confirmation _ _ _ _ Hv Hin Hc) as [t1 Ht1].
    destruct Hv as (_ & (t' & ev0 & Ht' & _ & He0) & _). rewrite Ht' in Ht1.
    change [?x; ev] with ([x] ++ [ev]) in Ht1. rewrite app_assoc in Ht1.
    apply app_inj_tail in Ht1 as [_ ->].
    unfold ev_raised, ev_returned in *. by destruct (ev_outcome ev).
Qed.

(** *** What [main] absorbs *)

Lemma absorbed_returned (ev : event) : ev_returned ev = true -> absorbed ev = true.
Proof. unfold absorbed, ev_raised, ev_returned. by destruct (ev_outcome ev). Qed.

(** The error message is not the confirmation message. *)
Lemma error_line_not_confirmation s : "Error: " +:+ s <> "Screenshot taken".
Proof. by cbv [String.append]. Qed.

(** An event outside [verify_app] is absorbed only if it returned. *)
Lemma absorbed_outside (ev : event) :
  is_page_call (ev_call ev) = false ->
  ev_call ev <> PrintLine "Screenshot taken" ->
  absorbed ev = ev_returned ev.
Proof.
  unfold absorbed, ev_raised, ev_returned. intros -> Hc.
  destruct (ev_outcome ev); simpl; [done |].
  by rewrite bool_decide_eq_false_2, andb_false_r.
Qed.

Lemma step_absorbable pg c :
  c ∈ verify_steps pg ->
  is_page_call c || bool_decide (c = PrintLine "Screenshot taken") = true.
Proof.
  intros [Hp| ->]%verify_steps_inv; [|done]. unfold is_page_call. by rewrite Hp.
Qed.

Lemma verify_trace_absorbed pg tv ov :
  verify_trace pg tv ov ->
  forallb absorbed tv = match ov with Returned _ => true | Raised e => isinstance_Exception e end.
Proof.
  intros Hv. pose proof (verify_trace_steps _ _ _ Hv) as Hs.
  destruct Hv as (_ & Hf & _). destruct ov as [u|e]; simpl in Hf.
  - apply forallb_forall. intros ev Hev. apply absorbed_returned.
    by eapply Forall_forall in Hf; [|apply list_elem_of_In].
  - destruct Hf as (t' & ev & -> & Ht' & Hev). rewrite forallb_app.
    replace (forallb absorbed t') with true.
    + apply Forall_app in Hs as [_ [Hs _]%Forall_cons_1]. simpl.
      unfold absorbed. by rewrite Hev, (step_absorbable pg), !andb_true_r.
    + symmetry. apply forallb_forall. intros ev' Hev'. apply absorbed_returned.
      by eapply Forall_forall in Ht'; [|apply list_elem_of_In].
Qed.

Lemma handled_absorbed ov th oh :
  handled ov th oh ->
  (match ov with Returned _ => true | Raised e => isinstance_Exception e end)
    && forallb absorbed th = returned oh.
Proof.
  intros [|e o He|e He]; simpl; rewrite ?He; [done | | done].
  rewrite absorbed_outside; [by rewrite andb_true_r | done |].
  simpl. intros H. apply (error_line_not_confirmation (str e)). congruence.
Qed.

(** *** The last failure *)

Lemma last_failure_app t1 t2 :
  last_failure (t1 ++ t2) = from_option Some (last_failure t1) (last_failure t2).
Proof.
  induction t1 as [|ev t1 IH]; simpl; [by destruct (last_failure t2) |].
  rewrite IH. by destruct (last_failure t2).
Qed.

Lemma last_failure_absorbed t : forallb absorbed t = true -> last_failure t = None.
Proof.
  induction t as [|ev t IH]; [done |]. simpl. intros [Hev Ht]%andb_prop.
  by rewrite IH, Hev.
Qed.

(** An event outside [verify_app] fails exactly when it raises. *)
Lemma last_failure_outside c (o : outcome (ret c)) t :
  is_page_call c = false -> c <> PrintLine "Screenshot taken" ->
  last_failure (Ev c o :: t) = from_option Some (raised o) (last_failure t).
Proof.
  intros Hp Hc. simpl. rewrite (absorbed_outside (Ev c o)) by done.
  by destruct (last_failure t), o.
Qed.

(** The exception that leaves the [try / except] statement is the last
    failure of its trace. *)
Lemma last_failure_handled pg tv ov th oh :
  verify_trace pg tv ov -> handled ov th oh -> last_failure (tv ++ th) = raised oh.
Proof.
  intros Hv Hh. pose proof (verify_trace_absorbed pg tv ov Hv) as Ha.
  rewrite last_failure_app. destruct Hh as [|e o He|e He]; simpl.
  - by apply last_failure_absorbed.
  - rewrite He in Ha. rewrite (last_failure_absorbed tv Ha).
    rewrite (absorbed_outside (Ev _ o)); [by destruct o | done |].
    simpl. intros H. apply (error_line_not_confirmation (str e)). congruence.
  - destruct Hv as (_ & (t' & ev & -> & Ht' & Hev) & _). rewrite last_failure_app. simpl.
    unfold absorbed. by rewrite Hev, He.
Qed.

Lemma raised_after {A} (o' : outcome unit) (o : outcome A) :
  raised (after o' o) = from_option Some (raised o) (raised o').
Proof. by destruct o'. Qed.

(** The [except] clause of [main], started with the outcome [ov] of the
    protected block. *)
Lemma except_clause_handled (ov : outcome unit) w :
  exists th oh wh,
    except_k h isinstance_Exception (fun e => print ("Error: " +:+ str e)) ov w
      = Final oh wh th
    /\ handled ov th oh.
Proof.
  destruct ov as [[]|e]; cbn [except_k].
  - eexists _, _, _. split; [done | constructor].
  - destruct (isinstance_Exception e) eqn:He.
    + rewrite run_print. eexists _, _, _. split; [done | by constructor].
    + eexists _, _, _. split; [done | by constructor].
Qed.

(** Imported as a module, the file makes no call. *)
Lemma run_script_imported name w :
  name <> "__main__" -> run h (script name) w = Final (Returned tt) w [].
Proof. intros Hn. unfold script. by rewrite decide_False. Qed.

(** Run as a script, it is the entry block. *)
Lemma script_main : script "__main__" = main.
Proof. reflexivity. Qed.

Lemma main_body : main = with_ sync_playwright sync_playwright_exit body.
Proof. reflexivity. Qed.

(** The final state of [main]: the state after the exit of the [with]
    statement, which runs after the body however the body ends; or the
    state in which entering the statement failed. *)
Lemma world_of_main w :
  world_of (run h main w) =
  match (h SyncPlaywrightEnter w).1 with
  | Returned p =>
      (h (SyncPlaywrightExit p)
         (world_of (run h (body p) (h SyncPlaywrightEnter w).2))).2
  | Raised _ => (h SyncPlaywrightEnter w).2
  end.
Proof.
  rewrite main_body, run_with, run_sync_playwright. unfold answer.
  destruct (h SyncPlaywrightEnter w) as [[p|e] w1]; rewrite andthen_Final;
    cbn [fst snd seq_k prepend world_of]; [|done].
  by rewrite world_try_finally, run_sync_playwright_exit.
Qed.

(** Every execution of [main] is a session. *)
Lemma run_main_session w :
  session (trace_of (run h main w)) (outcome_of (run h main w)).
Proof.
  unfold main.
  answer_call h p e; [|run_done; constructor].
  answer_call h b e; [|answer_call h u e'; run_done; constructor].
  answer_call h pg e; [|answer_call h u e'; run_done; constructor].
  pose proof (verify_app_trace pg w2) as Hv.
  destruct (run h (verify_app pg) w2) as [ov wv tv]; cbn [outcome_of trace_of] in Hv.
  run_simpl. destruct (except_clause_handled ov wv) as (th & oh & wh & -> & Hh).
  run_simpl. unfold answer. run_simpl. run_done.
  by apply (session_page p b pg tv ov th oh).
Qed.

(** ** The steps of [verify_app] *)

(** C4. Order of the steps: on every behaviour of the environment,
    [verify_app] performs a prefix of the seven steps of the contract, in
    the order of the source: navigate, wait for [#maxPoints], fill the
    title, fill the points, wait 1000 ms, take the screenshot, print. *)
Theorem verify_app_performs_prefix pg w :
  map ev_call (trace_of (run h (verify_app pg) w)) `prefix_of` verify_steps pg.
Proof. rewrite run_verify_app. apply run_perform_all_prefix. Qed.

(** C5. [verify_app] returns if and only if all seven steps were
    performed and every one of them returned. *)
Theorem verify_app_returns_iff pg w :
  outcome_of (run h (verify_app pg) w) = Returned tt <->
  map ev_call (trace_of (run h (verify_app pg) w)) = verify_steps pg
  /\ Forall (fun ev => ev_returned ev = true) (trace_of (run h (verify_app pg) w)).
Proof. rewrite run_verify_app. apply run_perform_all_returned. Qed.

(** C10. [verify_app] stops at the first failure: every call of its trace
    returned except possibly the last one, and when the last one raised,
    its exception is the outcome of [verify_app], unchanged. *)
Theorem verify_app_stops_at_first_failure pg w :
  fail_fast (trace_of (run h (verify_app pg) w)) (outcome_of (run h (verify_app pg) w)).
Proof. rewrite run_verify_app. apply straight_fail_fast, straight_perform_all. Qed.

(** C9. The screenshot comes after the debounce wait: whenever the trace
    of [verify_app] contains the screenshot call, the five steps before it
    (navigate, wait for the element, both fills, the wait of 1000 ms) were
    performed in order and returned. *)
Theorem verify_app_screenshot_after_wait pg w ev :
  ev ∈ trace_of (run h (verify_app pg) w) ->
  ev_call ev = Screenshot pg "verification.png" ->
  exists t2,
    trace_of (run h (verify_app pg) w) =
    [ Ev (Goto pg "http://localhost:3000") (Returned tt);
      Ev (WaitForSelector pg "#maxPoints") (Returned tt);
      Ev (Fill pg "#examTitle" "Debounce Test Exam") (Returned tt);
      Ev (Fill pg "#maxPoints" "100") (Returned tt);
      Ev (WaitForTimeout pg 1000) (Returned tt) ] ++ ev :: t2.
Proof.
  rewrite run_verify_app. unfold verify_steps.
  do 5 (script_step h; [|intros Hin Hc; by elem_of_cases Hin]).
  script_step h; [script_step h |]; cbn [perform_all run trace_of app];
    intros Hin Hc; elem_of_cases Hin;
    (apply elem_of_cons in Hin as [->|Hin]; [by eexists | by elem_of_cases Hin]).
Qed.

(** ** The resource discipline of [main] *)

(** C1. Whatever the environment does, [main] calls [browser.close()]
    exactly once if [new_page] returned a page, and never otherwise: on
    every path through [verify_app], returning or raising, the [finally]
    clause closes the browser, and it does so once. *)
Theorem main_closes_browser_once w :
  countb (on_call is_close) (trace_of (run h main w)) =
  if existsb opened (trace_of (run h main w)) then 1 else 0.
Proof.
  destruct (run_main_session w) as [| | |p b pg tv ov th oh oc ox Hv Hh]; try done.
  autorewrite with lst.
  rewrite (verify_trace_countb is_close pg tv ov), (handled_countb is_close ov th oh);
    by_call.
Qed.

(** C23. The browser that [main] closes is the one [launch] returned: every
    [close] event in a trace of [main] names a browser that an earlier
    [launch] event of the same trace returned. *)
Theorem main_closes_launched_browser w :
  Forall (fun ev => forall b, ev_call ev = Close b ->
            exists ev', ev' ∈ trace_of (run h main w) /\ ev_launched ev' = Some b)
         (trace_of (run h main w)).
Proof.
  destruct (run_main_session w) as [| | |p b pg tv ov th oh oc ox Hv Hh];
    [by repeat constructor..|].
  rewrite !Forall_app. split_and!; [by repeat constructor | | |].
  - eapply verify_trace_Forall; [done |]. by intros ev [?| ->] b' ?; destruct (ev_call ev).
  - eapply handled_Forall; [done |]. by intros ev s -> b' ?.
  - repeat constructor; [|done]. intros b' [= <-].
    exists (Ev (Launch p true) (Returned b)). split; [|done].
    apply list_elem_of_further, list_elem_of_here.
Qed.

(** C3. No use after close: in every trace of [main], the only event that
    can follow [browser.close()] is the exit of the [with] statement; in
    particular no call on the page and no [print] comes after it. *)
Theorem main_nothing_after_close_but_exit w :
  none_after (fun ev => negb (on_call is_exit ev)) (on_call is_close)
             (trace_of (run h main w)) = true.
Proof.
  destruct (run_main_session w) as [| | |p b pg tv ov th oh oc ox Hv Hh]; try done.
  rewrite !none_after_app_l; [done | ..].
  - by eapply handled_countb.
  - eapply verify_trace_countb; by_call.
  - done.
Qed.

(** C8. The driver is stopped last and once: when the [with] statement was
    entered (its [__enter__] returned the driver [p]), the last event of
    the trace is the exit of that driver, and no other exit occurs. *)
Theorem main_stops_driver_last w p :
  head (trace_of (run h main w)) ≫= ev_entered = Some p ->
  ev_call <$> last (trace_of (run h main w)) = Some (SyncPlaywrightExit p)
  /\ countb (on_call is_exit) (trace_of (run h main w)) = 1.
Proof.
  destruct (run_main_session w) as [| | |p' b pg tv ov th oh oc ox Hv Hh];
    [done | by intros [= <-].. |].
  intros [= <-]. split.
  - by rewrite !app_assoc, last_app_cons.
  - autorewrite with lst.
    rewrite (verify_trace_countb is_exit pg tv ov), (handled_countb is_exit ov th oh);
      by_call.
Qed.

(** C13. Everything acquired is eventually released, whatever the
    environment does: in every trace of [main], a [new_page] that returned
    a page is followed by a call of [browser.close()], and an entry of the
    [with] statement that returned a driver is followed by its exit.  As
    [main] always terminates, these calls are made in every execution. *)
Theorem main_releases_eventually w :
  leads_to opened (on_call is_close) (trace_of (run h main w)) = true
  /\ leads_to entered (on_call is_exit) (trace_of (run h main w)) = true.
Proof.
  destruct (run_main_session w) as [| | |p b pg tv ov th oh oc ox Hv Hh]; try done.
  rewrite !(app_assoc _ _ [_; _]). split; by apply leads_to_app_r.
Qed.

(** ** Exceptions *)

(** C2. Non-propagation, exactly: [main] returns normally if and only if
    every call that raised was a step of [verify_app] raising an exception
    that derives from [Exception].  A failure of [launch], [new_page],
    [close], of the error [print] or of the exit of the [with] statement,
    and an exception that does not derive from [Exception], all propagate
    out of the entry block. *)
Theorem main_returns_iff_absorbed w :
  outcome_of (run h main w) = Returned tt <->
  forallb absorbed (trace_of (run h main w)) = true.
Proof.
  destruct (run_main_session w) as [e|p e ox|p b e ox|p b pg tv ov th oh oc ox Hv Hh].
  - simpl. by rewrite absorbed_outside.
  - simpl. rewrite !absorbed_outside by done. by destruct ox.
  - simpl. rewrite !absorbed_outside by done. by destruct ox.
  - rewrite !forallb_app, (verify_trace_absorbed pg tv ov Hv). simpl.
    rewrite !absorbed_outside by done. simpl.
    rewrite (andb_assoc _ (forallb absorbed th)), (handled_absorbed ov th oh Hh).
    unfold ev_returned; simpl. destruct ox as [[]|], oc as [[]|], oh as [[]|]; done.
Qed.

(** C14. Which exception propagates: the exception [main] ends with is the
    one raised by the last call it does not absorb, and [main] returns
    when there is none.  An exception raised by [browser.close()] or by the
    exit of the [with] statement replaces an earlier one, also an
    interrupt raised inside [verify_app]; an exception raised by the error
    [print] replaces the one being reported. *)
Theorem main_raises_last_failure w :
  raised (outcome_of (run h main w)) = last_failure (trace_of (run h main w)).
Proof.
  destruct (run_main_session w) as [e|p e ox|p b e ox|p b pg tv ov th oh oc ox Hv Hh].
  1-3: rewrite ?raised_after, !last_failure_outside by done; simpl; by try destruct ox.
  cbn [app]. rewrite !last_failure_outside by done. cbn [raised from_option].
  rewrite app_assoc, last_failure_app, (last_failure_handled pg tv ov th oh Hv Hh).
  rewrite !raised_after, !last_failure_outside by done. simpl.
  by destruct ox, oc, oh.
Qed.

(** C15. At most one line: on every behaviour of the environment, [main]
    prints nothing, or the confirmation "Screenshot taken" and nothing
    else, or one line ["Error: ..."] with the text of an exception that a
    call of its trace raised.  It never prints both the confirmation and
    an error. *)
Theorem main_prints_at_most_one_line w :
  lines_of (trace_of (run h main w)) = []
  \/ lines_of (trace_of (run h main w)) = ["Screenshot taken"]
  \/ exists ev e, ev ∈ trace_of (run h main w) /\ ev_raised ev = Some e
       /\ lines_of (trace_of (run h main w)) = ["Error: " +:+ str e].
Proof.
  destruct (run_main_session w) as [e|p e ox|p b e ox|p b pg tv ov th oh oc ox Hv Hh].
  1-3: left; apply lines_of_nil; Forall_each ltac:(done).
  rewrite !lines_of_app, (verify_trace_lines pg tv ov Hv).
  rewrite (lines_of_nil [_; _; _]), (lines_of_nil [_; _]) by Forall_each ltac:(done).
  rewrite app_nil_r. destruct Hh as [|e o He|e He]; simpl; [by right; left | | by left].
  destruct o as [[]|e']; [right; right | by left].
  destruct Hv as (_ & (t' & ev & -> & _ & Hev) & _). exists ev, e. split_and!; [|done..].
  rewrite !elem_of_cons, !elem_of_app, list_elem_of_singleton. tauto.
Qed.

(** *** The order of the calls *)

Lemma verify_steps_increasing pg : increasing stage (verify_steps pg).
Proof. increasing_each. Qed.

Lemma verify_steps_stage pg c : c ∈ verify_steps pg -> 3 <= stage c < 10.
Proof. revert c. apply Forall_forall. Forall_each ltac:(simpl; lia). Qed.

(** The calls of [verify_app] are made in the order of its steps. *)
Lemma verify_trace_increasing pg tv ov :
  verify_trace pg tv ov -> increasing stage (map ev_call tv).
Proof. intros [Hp _]. eapply increasing_prefix, verify_steps_increasing. done. Qed.

Lemma verify_trace_stage pg tv ov :
  verify_trace pg tv ov -> Forall (fun c => 3 <= stage c < 10) (map ev_call tv).
Proof.
  intros Hv%verify_trace_steps. apply Forall_fmap.
  eapply Forall_impl; [done |]. intros ev Hev. exact (verify_steps_stage pg _ Hev).
Qed.

(** The [except] clause makes at most one call, the report of the error. *)
Lemma handled_stage ov th oh :
  handled ov th oh -> Forall (fun c => stage c = 10) (map ev_call th).
Proof. intros [|e o' He|e He]; Forall_each ltac:(done). Qed.

Lemma handled_increasing ov th oh :
  handled ov th oh -> increasing stage (map ev_call th).
Proof. intros [|e o' He|e He]; repeat constructor. Qed.

(** The calls from [verify_app] on: its steps, the report of an error, the
    closing of the browser and the stop of the driver. *)
Lemma epilogue_increasing pg tv ov th oh (b : browser) (p : playwright) :
  verify_trace pg tv ov -> handled ov th oh ->
  increasing stage (map ev_call tv ++ map ev_call th ++ [Close b; SyncPlaywrightExit p]).
Proof.
  intros Hv Hh. pose proof (verify_trace_stage _ _ _ Hv) as Hsv.
  pose proof (handled_stage _ _ _ Hh) as Hsh.
  apply (increasing_app stage 10); [by eapply verify_trace_increasing| |..].
  - apply (increasing_app stage 11); [by eapply handled_increasing | increasing_each |..].
    + eapply Forall_impl; [done |]. simpl. lia.
    + Forall_each ltac:(simpl; lia).
  - eapply Forall_impl; [done |]. simpl. lia.
  - apply Forall_app. split; [|Forall_each ltac:(simpl; lia)].
    eapply Forall_impl; [done |]. simpl. lia.
Qed.

Lemma epilogue_stage pg tv ov th oh (b : browser) (p : playwright) :
  verify_trace pg tv ov -> handled ov th oh ->
  Forall (fun c => 3 <= stage c)
         (map ev_call tv ++ map ev_call th ++ [Close b; SyncPlaywrightExit p]).
Proof.
  intros Hv%verify_trace_stage Hh%handled_stage.
  rewrite !Forall_app. split_and!; [..|Forall_each ltac:(simpl; lia)].
  all: eapply Forall_impl; [done |]; simpl; lia.
Qed.

(** The calls of a session are made in the order of the procedure. *)
Lemma session_increasing t o : session t o -> increasing stage (map ev_call t).
Proof.
  intros [e|p e ox|p b e ox|p b pg tv ov th oh oc ox Hv Hh]; [increasing_each.. |].
  rewrite !map_app. apply (increasing_app stage 3); [increasing_each | |..].
  - by eapply epilogue_increasing.
  - Forall_each ltac:(simpl; lia).
  - by eapply epilogue_stage.
Qed.

(** C16. No retry and no step out of order: on every behaviour of the
    environment, the calls of [main] are made in the order of the
    procedure (the driver, the browser, the page, the steps of
    [verify_app] in their order, the report of an error, the closing of
    the browser, the stop of the driver), each at most once: no call is
    repeated after a failure, and none is made twice. *)
Theorem main_calls_in_order w :
  increasing stage (map ev_call (trace_of (run h main w)))
  /\ NoDup (map ev_call (trace_of (run h main w))).
Proof.
  pose proof (session_increasing _ _ (run_main_session w)) as Hs.
  split; [done | by eapply increasing_NoDup].
Qed.

(** C6. The error report: when a step of [verify_app] raises an exception
    [e] that derives from [Exception], the very next call of [main] is
    [print("Error: " + str(e))]. *)
Theorem main_reports_error w ev e :
  ev ∈ trace_of (run h main w) ->
  is_page_call (ev_call ev) || bool_decide (ev_call ev = PrintLine "Screenshot taken") = true ->
  ev_raised ev = Some e ->
  isinstance_Exception e = true ->
  exists t1 o t2,
    trace_of (run h main w) = t1 ++ ev :: Ev (PrintLine ("Error: " +:+ str e)) o :: t2.
Proof.
  destruct (run_main_session w) as [e0|p e0 ox|p b e0 ox|p b pg tv ov th oh oc ox Hv Hh];
    intros Hin Hstep Hraised Hexc.
  1-3: by repeat (apply elem_of_cons in Hin as [->|Hin]; [done |]); apply elem_of_nil in Hin.
  do 3 (apply elem_of_cons in Hin as [->|Hin]; [done |]).
  rewrite !elem_of_app in Hin. destruct Hin as [Hin|[Hin|Hin]].
  - destruct (verify_trace_raised _ _ _ _ _ Hv Hin Hraised) as [-> [t' ->]].
    inversion Hh; subst; [|congruence].
    exists ([Ev SyncPlaywrightEnter (Returned p); Ev (Launch p true) (Returned b);
             Ev (NewPage b) (Returned pg)] ++ t'). eexists _, _.
    simpl. by rewrite <- !app_assoc.
  - destruct Hh as [|e' o He'|]; [by apply elem_of_nil in Hin | | by apply elem_of_nil in Hin].
    by apply list_elem_of_singleton in Hin as ->.
  - by repeat (apply elem_of_cons in Hin as [->|Hin]; [done |]); apply elem_of_nil in Hin.
Qed.

(** C25. The interrupt path: when a step of [verify_app] raises an
    exception [e] that does not derive from [Exception] (a
    [KeyboardInterrupt], a [SystemExit]), the [except] clause does not
    run: nothing at all is printed, the very next call is
    [browser.close()], then the driver is stopped, and [main] raises [e],
    unless the closing of the browser or the stop of the driver raises in
    its turn. *)
Theorem main_passes_interrupt w ev e :
  ev ∈ trace_of (run h main w) ->
  is_page_call (ev_call ev) || bool_decide (ev_call ev = PrintLine "Screenshot taken") = true ->
  ev_raised ev = Some e ->
  isinstance_Exception e = false ->
  exists t1 p b oc ox,
    trace_of (run h main w) = t1 ++ [ev; Ev (Close b) oc; Ev (SyncPlaywrightExit p) ox]
    /\ lines_of (trace_of (run h main w)) = []
    /\ outcome_of (run h main w) = after ox (after oc (Raised e)).
Proof.
  destruct (run_main_session w) as [e0|p e0 ox|p b e0 ox|p b pg tv ov th oh oc ox Hv Hh];
    intros Hin Hstep Hraised Hexc.
  1-3: by repeat (apply elem_of_cons in Hin as [->|Hin]; [done |]); apply elem_of_nil in Hin.
  do 3 (apply elem_of_cons in Hin as [->|Hin]; [done |]).
  rewrite !elem_of_app in Hin. destruct Hin as [Hin|[Hin|Hin]].
  - pose proof (verify_trace_lines _ _ _ Hv) as Hl.
    destruct (verify_trace_raised _ _ _ _ _ Hv Hin Hraised) as [-> [t' Ht']].
    inversion Hh; subst; [congruence |].
    exists ([Ev SyncPlaywrightEnter (Returned p); Ev (Launch p true) (Returned b);
             Ev (NewPage b) (Returned pg)] ++ t'), p, b, oc, ox.
    split_and!; [by rewrite <- !app_assoc | | done].
    rewrite 2!lines_of_app, Hl. by destruct oc, ox.
  - destruct Hh as [|e' o He'|]; [by apply elem_of_nil in Hin | | by apply elem_of_nil in Hin].
    by apply list_elem_of_singleton in Hin as ->.
  - by repeat (apply elem_of_cons in Hin as [->|Hin]; [done |]); apply elem_of_nil in Hin.
Qed.

(** C7. The success path: if every call returned, [main] performed, in
    order, the entry of the [with] statement, the headless launch, the
    opening of the page, the seven steps of [verify_app] on that page, the
    closing of that browser and the exit of that driver; it returned, and
    printed the confirmation message and nothing else. *)
Theorem main_success w :
  Forall (fun ev => ev_returned ev = true) (trace_of (run h main w)) ->
  outcome_of (run h main w) = Returned tt
  /\ lines_of (trace_of (run h main w)) = ["Screenshot taken"]
  /\ exists p b pg,
       map ev_call (trace_of (run h main w)) =
       [SyncPlaywrightEnter; Launch p true; NewPage b] ++ verify_steps pg
       ++ [Close b; SyncPlaywrightExit p].
Proof.
  destruct (run_main_session w) as [e0|p e0 ox|p b e0 ox|p b pg tv ov th oh oc ox Hv Hh];
    intros Hall.
  1-3: by repeat (apply Forall_cons_1 in Hall as [? Hall]).
  do 3 apply Forall_cons_1 in Hall as [_ Hall].
  apply Forall_app in Hall as [Htv [_ Hco]%Forall_app].
  destruct (verify_trace_returned _ _ _ Hv Htv) as [-> Hcalls].
  inversion Hh; subst.
  apply Forall_cons_1 in Hco as [Hc [Hx _]%Forall_cons_1].
  unfold ev_returned in Hc, Hx; simpl in Hc, Hx.
  destruct oc as [[]|]; [|done]. destruct ox as [[]|]; [|done].
  split_and!; [done | | exists p, b, pg; simpl; by rewrite map_app, Hcalls].
  by rewrite !lines_of_app, (lines_of_returned tv), Hcalls.
Qed.

(** C17. The confirmation is never printed without the artifact (P4): in
    every execution of [main], whatever the environment does, the event
    just before the confirmation "Screenshot taken" is the call
    [page.screenshot(path="verification.png")], and it returned. *)
Theorem main_confirmation_after_screenshot w ev :
  ev ∈ trace_of (run h main w) ->
  ev_call ev = PrintLine "Screenshot taken" ->
  exists t1 pg t2,
    trace_of (run h main w) =
    t1 ++ Ev (Screenshot pg "verification.png") (Returned tt) :: ev :: t2.
Proof. apply session_confirmation with (outcome_of (run h main w)), run_main_session. Qed.

(** C39. The browser is always launched headless. *)
Theorem main_launches_headless w :
  Forall (fun ev => forall p hl, ev_call ev = Launch p hl -> hl = true)
         (trace_of (run h main w)).
Proof.
  destruct (run_main_session w) as [| | |p b pg tv ov th oh oc ox Hv Hh].
  1-3: Forall_each ltac:(simpl; intros; by simplify_eq).
  rewrite !Forall_app. split_and!; [Forall_each ltac:(simpl; intros; by simplify_eq) | | |].
  - eapply verify_trace_Forall; [done |]. by intros ev [?| ->] p' hl ?; destruct (ev_call ev).
  - eapply handled_Forall; [done |]. by intros ev s -> p' hl ?.
  - Forall_each ltac:(simpl; intros; by simplify_eq).
Qed.

(** C38. [main] terminates after at most thirteen calls, whatever the
    environment answers: the script has no loop and no retry. *)
Theorem main_at_most_13_calls w : length (trace_of (run h main w)) <= 13.
Proof.
  destruct (run_main_session w) as [| | |p b pg tv ov th oh oc ox Hv Hh];
    [simpl; lia..|].
  rewrite !length_app. simpl.
  pose proof (verify_trace_length _ _ _ Hv). pose proof (handled_length _ _ _ Hh). lia.
Qed.

(** C22. A failure before the [try] statement is not cleaned up by the
    [finally] clause: when [new_page] raises, [browser.close()] is never
    called and the exception leaves the entry block.  (The browser is
    then left to the exit of the [with] statement.) *)
Theorem main_new_page_failure w ev e :
  ev ∈ trace_of (run h main w) ->
  (exists b, ev_call ev = NewPage b) ->
  ev_raised ev = Some e ->
  countb (on_call is_close) (trace_of (run h main w)) = 0
  /\ returned (outcome_of (run h main w)) = false.
Proof.
  intros Hin [b' Hc] He.
  destruct (run_main_session w) as [e0|p e0 ox|p b e0 ox|p b pg tv ov th oh oc ox Hv Hh].
  - elem_of_cases Hin.
  - elem_of_cases Hin.
  - split; [done | by destruct ox].
  - elem_of_cases Hin.
    + eapply Forall_forall in Hin; [|by eapply verify_trace_steps].
      apply verify_steps_inv in Hin as [Hp|Hp]; by rewrite Hc in Hp.
    + destruct Hh; elem_of_cases Hin.
Qed.

End AnyEnvironment.

(** * Theorems for environments that honour the contract *)

Section AnyContract.
Context `{Environment W}.
Implicit Types (w : W) (p : playwright).

Lemma verify_app_in_session p pg : calls_sat (in_session p) (verify_app pg).
Proof.
  eapply calls_sat_peq; [symmetry; apply verify_app_script |].
  apply calls_sat_perform_all. by Forall_each ltac:(exact I).
Qed.

Lemma body_in_session p : calls_sat (in_session p) (body p).
Proof.
  unfold body. calls_sat_api; try done. apply verify_app_in_session.
Qed.

(** A call of the session keeps the invariant, and keeps every live
    browser either owned by the session's driver or live from before. *)
Lemma in_session_owned p w0 c w :
  in_session p c -> ok w /\ owned_or_old p w0 w ->
  ok (env c w).2 /\ owned_or_old p w0 (env c w).2.
Proof.
  intros Hc [Hok Hw]. split; [by apply env_ok |].
  intros b q. pose proof (env_live_other w c) as Ho.
  destruct c; try done; simpl in Hc; cbv beta iota in Ho; try (rewrite Ho; by apply Hw).
  - subst. pose proof (env_launch w p headless Hok) as Hl.
    destruct (env (Launch p headless) w).1 as [b'|e]; [|rewrite Hl; apply Hw].
    destruct Hl as [_ ->]. rewrite lookup_insert. case_decide; [left; congruence | apply Hw].
  - pose proof (env_close w b0) as [Hsub _]. intros Hb.
    apply Hw. by eapply lookup_weaken.
Qed.

(** C35. No browser is leaked: in an environment that honours the contract,
    every browser that is live when [main] ends was already live when it
    started, on every path, including the paths on which [launch] or
    [new_page] raise and [browser.close()] is not called. *)
Theorem main_leaks_no_browser w :
  ok w -> live (world_of (run env main w)) ⊆ live w.
Proof.
  intros Hok. rewrite world_of_main.
  pose proof (env_enter w Hok) as [Hfresh Hlive].
  pose proof (env_ok SyncPlaywrightEnter w Hok) as Hok1.
  destruct (env SyncPlaywrightEnter w) as [[p|e] w1];
    cbn [fst snd] in *; [|by rewrite Hlive].
  rewrite env_exit. apply map_subseteq_spec. intros b q [Hb Hq]%map_lookup_filter_Some.
  eapply (run_invariant _ (fun w' => ok w' /\ owned_or_old p w w')) in Hb as [?|?];
    [done | done | apply body_in_session | by intros; apply in_session_owned |].
  split; [done |]. intros b' q'. rewrite Hlive. auto.
Qed.

(** The standard output: [main] appends to the standard output exactly
    the lines of its trace; when every call returns, that is the line
    "Screenshot taken" and nothing else. *)
Theorem main_output_on_success w :
  Forall (fun ev => ev_returned ev = true) (trace_of (run env main w)) ->
  out (world_of (run env main w)) = out w ++ ["Screenshot taken"].
Proof.
  intros Hall. rewrite run_out. f_equal.
  destruct (run_main_session env w) as [e0|p e0 ox|p b e0 ox|p b pg tv ov th oh oc ox Hv Hh].
  1-3: by repeat (apply Forall_cons_1 in Hall as [? Hall]).
  do 3 apply Forall_cons_1 in Hall as [_ Hall].
  apply Forall_app in Hall as [Htv [_ Hco]%Forall_app].
  destruct (verify_trace_returned _ _ _ Hv Htv) as [-> Hcalls].
  inversion Hh; subst.
  rewrite !lines_of_app, (lines_of_returned tv), Hcalls by done.
  rewrite (lines_of_returned [_; _]) by done. done.
Qed.

End AnyContract.

(** * Executions on concrete behaviours

    The theorems above, applied to the behaviours [all_return],
    [navigation_refused] and [no_page] of the scripted environment. *)

Lemma main_stops_driver_last_witness :
  head (trace_of (run scripted main all_return)) ≫= ev_entered = Some (Playwright 0)
  /\ ev_call <$> last (trace_of (run scripted main all_return))
       = Some (SyncPlaywrightExit (Playwright 0))
  /\ countb (on_call is_exit) (trace_of (run scripted main all_return)) = 1.
Proof.
  split; [reflexivity |].
  apply (main_stops_driver_last scripted all_return (Playwright 0)). reflexivity.
Defined.

Lemma main_reports_error_witness :
  exists t1 o t2,
    trace_of (run scripted main navigation_refused) =
    t1 ++ Ev (Goto (Page 0) "http://localhost:3000") (Raised NavigationError)
       :: Ev (PrintLine ("Error: " +:+ str NavigationError)) o :: t2.
Proof.
  apply (main_reports_error scripted navigation_refused
           (Ev (Goto (Page 0) "http://localhost:3000") (Raised NavigationError))
           NavigationError);
    [apply (list_elem_of_lookup_2 _ 3) | ..]; reflexivity.
Defined.

Lemma main_passes_interrupt_witness :
  exists t1 p b oc ox,
    trace_of (run scripted main interrupted_wait)
    = t1 ++ [Ev (WaitForTimeout (Page 0) 1000) (Raised KeyboardInterrupt);
             Ev (Close b) oc; Ev (SyncPlaywrightExit p) ox]
    /\ lines_of (trace_of (run scripted main interrupted_wait)) = []
    /\ outcome_of (run scripted main interrupted_wait)
       = after ox (after oc (Raised KeyboardInterrupt)).
Proof.
  apply (main_passes_interrupt scripted interrupted_wait
           (Ev (WaitForTimeout (Page 0) 1000) (Raised KeyboardInterrupt))
           KeyboardInterrupt);
    [apply (list_elem_of_lookup_2 _ 7) | ..]; reflexivity.
Defined.

Lemma main_success_witness :
  outcome_of (run scripted main all_return) = Returned tt
  /\ lines_of (trace_of (run scripted main all_return)) = ["Screenshot taken"]
  /\ exists p b pg,
       map ev_call (trace_of (run scripted main all_return)) =
       [SyncPlaywrightEnter; Launch p true; NewPage b] ++ verify_steps pg
       ++ [Close b; SyncPlaywrightExit p].
Proof.
  apply (main_success scripted all_return).
  Forall_each ltac:(reflexivity).
Defined.

Lemma main_new_page_failure_witness :
  countb (on_call is_close) (trace_of (run scripted main no_page)) = 0
  /\ returned (outcome_of (run scripted main no_page)) = false.
Proof.
  apply (main_new_page_failure scripted no_page
           (Ev (NewPage (Browser 0)) (Raised TimeoutError)) TimeoutError);
    [apply (list_elem_of_lookup_2 _ 2); reflexivity | by exists (Browser 0) | reflexivity].
Defined.

Lemma verify_app_screenshot_after_wait_witness :
  exists t2,
    trace_of (run scripted (verify_app (Page 0)) all_return) =
    [ Ev (Goto (Page 0) "http://localhost:3000") (Returned tt);
      Ev (WaitForSelector (Page 0) "#maxPoints") (Returned tt);
      Ev (Fill (Page 0) "#examTitle" "Debounce Test Exam") (Returned tt);
      Ev (Fill (Page 0) "#maxPoints" "100") (Returned tt);
      Ev (WaitForTimeout (Page 0) 1000) (Returned tt) ]
    ++ Ev (Screenshot (Page 0) "verification.png") (Returned tt) :: t2.
Proof.
  apply (verify_app_screenshot_after_wait scripted (Page 0) all_return
           (Ev (Screenshot (Page 0) "verification.png") (Returned tt)));
    [apply (list_elem_of_lookup_2 _ 5) | ]; reflexivity.
Defined.

Lemma main_leaks_no_browser_witness :
  live (world_of (run env main (initial scenario_setup))) ⊆ live (initial scenario_setup).
Proof. apply (main_leaks_no_browser (initial scenario_setup)). apply wf_initial. Defined.

Lemma main_output_on_success_witness :
  out (world_of (run env main (initial scenario_setup)))
  = out (initial scenario_setup) ++ ["Screenshot taken"].
Proof.
  apply (main_output_on_success (initial scenario_setup)).
  vm_compute. Forall_each ltac:(reflexivity).
Defined.

Lemma main_confirmation_after_screenshot_witness :
  exists t1 pg t2,
    trace_of (run scripted main all_return) =
    t1 ++ Ev (Screenshot pg "verification.png") (Returned tt)
       :: Ev (PrintLine "Screenshot taken") (Returned tt) :: t2.
Proof.
  apply (main_confirmation_after_screenshot scripted all_return
           (Ev (PrintLine "Screenshot taken") (Returned tt)));
    [apply (list_elem_of_lookup_2 _ 9) | ]; reflexivity.
Defined.
