(* ===== verification/Direct.v ===== *)
(** * Direct: the script in explicit state-passing style

    A second translation of [src/verify_debounce.py], independent of the
    program trees of [Python]: each block is a function from the state of
    the environment to the final outcome, state and trace, written with
    the case analyses Python's statements perform on the outcome of each
    call.  The theorems show that the two translations agree: executing
    the program [Verifier.main] with [run] computes exactly
    [main_direct]. *)

From stdpp Require Import base strings list gmap.
From S2P Require Import Prelude Python Playwright App World Verifier.

#[local] Open Scope string_scope.
#[local] Open Scope list_scope.

Section Direct.
Context {W : Type} (h : handler W).
Implicit Types (w : W).

(** A call as a statement: when it raises, the block ends with the
    exception; when it returns, the rest of the block [k] runs in the state
    the call left. *)
Definition call_then {R} (c : call) w (k : ret c -> W -> final R W) : final R W :=
  match h c w with
  | (Returned a, w') => prepend [Ev c (Returned a)] (k a w')
  | (Raised e, w') => Final (Raised e) w' [Ev c (Raised e)]
  end.

(** [def verify_app(page)], lines 3 to 25. *)
Definition verify_app_direct (page : page) w : final unit W :=
  call_then (Goto page "http://localhost:3000") w (fun _ w =>
  call_then (WaitForSelector page "#maxPoints") w (fun _ w =>
  call_then (Fill page "#examTitle" "Debounce Test Exam") w (fun _ w =>
  call_then (Fill page "#maxPoints" "100") w (fun _ w =>
  call_then (WaitForTimeout page 1000) w (fun _ w =>
  call_then (Screenshot page "verification.png") w (fun _ w =>
  call_then (PrintLine "Screenshot taken") w (fun _ w =>
  Final (Returned tt) w []))))))).

(** [except Exception as e: print(f"Error: {e}")], lines 33 and 34, after
    a protected block that ended as [r]. *)
Definition except_direct (r : final unit W) : final unit W :=
  match outcome_of r with
  | Returned _ => r
  | Raised e =>
      if isinstance_Exception e then
        let '(o, w') := h (PrintLine ("Error: " +:+ str e)) (world_of r) in
        Final o w' (trace_of r ++ [Ev (PrintLine ("Error: " +:+ str e)) o])
      else r
  end.

(** [finally: browser.close()], lines 35 and 36, after a block that ended
    as [r]: the call is made whatever [r] is, and its exception, if any,
    replaces the outcome. *)
Definition close_direct (b : browser) (r : final unit W) : final unit W :=
  let '(o, w') := h (Close b) (world_of r) in
  Final (after o (outcome_of r)) w' (trace_of r ++ [Ev (Close b) o]).

(** The exit of [with sync_playwright() as p], after a body that ended as
    [r]. *)
Definition exit_direct (p : playwright) (r : final unit W) : final unit W :=
  let '(o, w') := h (SyncPlaywrightExit p) (world_of r) in
  Final (after o (outcome_of r)) w' (trace_of r ++ [Ev (SyncPlaywrightExit p) o]).

(** The entry block, lines 28 to 36. *)
Definition main_direct w : final unit W :=
  match h SyncPlaywrightEnter w with
  | (Raised e, w') => Final (Raised e) w' [Ev SyncPlaywrightEnter (Raised e)]
  | (Returned p, w') =>
      prepend [Ev SyncPlaywrightEnter (Returned p)]
        (exit_direct p
           (call_then (Launch p true) w' (fun browser w =>
            call_then (NewPage browser) w (fun page w =>
            close_direct browser (except_direct (verify_app_direct page w))))))
  end.

(** * The two translations agree *)

Lemma run_perform_then {R} c (k : ret c -> prog R) w :
  run h (bind (perform c) k) w = call_then c w (fun a w' => run h (k a) w').
Proof.
  rewrite run_bind, run_perform. unfold call_then.
  destruct (h c w) as [[a|e] w']; reflexivity.
Qed.

Lemma call_then_ext {R} c w (k1 k2 : ret c -> W -> final R W) :
  (forall a w', k1 a w' = k2 a w') -> call_then c w k1 = call_then c w k2.
Proof. intros Hk. unfold call_then. destruct (h c w) as [[a|e] w']; by rewrite ?Hk. Qed.

Lemma run_perform_last c w :
  run h (perform c) w = call_then c w (fun a w' => Final (Returned a) w' []).
Proof.
  rewrite run_perform. unfold call_then. destruct (h c w) as [[a|e] w']; reflexivity.
Qed.

(** One statement of a block: the call, then the rest. *)
Ltac direct_step :=
  etrans; [apply run_perform_then | apply call_then_ext; intros ? ?].

Lemma run_verify_app_direct pg w : run h (verify_app pg) w = verify_app_direct pg w.
Proof.
  unfold verify_app, verify_app_direct. do 6 direct_step.
  etrans; [apply (run_perform_last (PrintLine "Screenshot taken")) | apply call_then_ext].
  by intros [] ?.
Qed.

Lemma run_except_direct (r : final unit W) :
  andthen r (except_k h isinstance_Exception (fun e => print ("Error: " +:+ str e)))
  = except_direct r.
Proof.
  destruct r as [[[]|e] w t]; unfold except_direct; rewrite andthen_Final;
    cbn [except_k outcome_of world_of trace_of].
  - unfold prepend; simpl. by rewrite app_nil_r.
  - destruct (isinstance_Exception e); [|unfold prepend; simpl; by rewrite app_nil_r].
    rewrite run_print. unfold answer. by destruct (h _ w).
Qed.

Lemma run_close_direct b (r : final unit W) :
  andthen r (finally_k h (close b)) = close_direct b r.
Proof.
  destruct r as [o w t]. rewrite andthen_Final, finally_k_eq, run_close.
  unfold close_direct, answer, prepend; simpl. by destruct (h (Close b) w).
Qed.

Lemma run_exit_direct p (r : final unit W) :
  andthen r (finally_k h (sync_playwright_exit p)) = exit_direct p r.
Proof.
  destruct r as [o w t]. rewrite andthen_Final, finally_k_eq, run_sync_playwright_exit.
  unfold exit_direct, answer, prepend; simpl. by destruct (h (SyncPlaywrightExit p) w).
Qed.

(** The [try] statement of the entry block. *)
Lemma run_protected_direct b pg w :
  run h (try_finally
           (try_except (verify_app pg) isinstance_Exception
              (fun e => print ("Error: " +:+ str e)))
           (close b)) w
  = close_direct b (except_direct (verify_app_direct pg w)).
Proof.
  by rewrite run_try_finally, run_try_except, run_verify_app_direct, run_except_direct,
    run_close_direct.
Qed.

(** C12. The program and its direct translation agree: for every
    environment and every state, executing [main] gives the outcome, the
    final state and the trace that [main_direct] computes by explicit case
    analysis on the outcome of each call. *)
Theorem main_direct_equiv w : run h main w = main_direct w.
Proof.
  rewrite main_body, run_with, run_sync_playwright. unfold answer, main_direct.
  destruct (h SyncPlaywrightEnter w) as [[p|e] w1]; rewrite andthen_Final;
    cbn [fst snd seq_k]; [|done].
  rewrite run_try_finally, run_exit_direct. do 2 f_equal. unfold body.
  direct_step. direct_step. apply run_protected_direct.
Qed.

End Direct.
