(* ===== verification/Protocol.v ===== *)
(** * Protocol: the resource discipline as an automaton

    The order in which the script may use the driver, the browser and the
    page, as a state machine over events: the phases of a run ([phase]),
    the step relation ([step], one rule per kind of event), its reflexive
    and transitive closure over traces ([steps]) and an executable
    acceptor ([next], [accept]) that decides it.  The invariants of the
    machine are proved by induction on the rules; the theorems on [main]
    follow from the fact that every trace of [main] is a run of the
    machine from [Idle] to [Ended]. *)

From stdpp Require Import base strings list gmap.
From S2P Require Import Prelude Python Playwright App World Verifier.

#[local] Open Scope string_scope.
#[local] Open Scope list_scope.

(** * The machine *)

Inductive phase : Type :=
| Idle
| Started (p : playwright)
| Launched (p : playwright) (b : browser)
| Opened (p : playwright) (b : browser) (pg : page)
| Closing (p : playwright)
| Ended.

#[export] Instance phase_eq_dec : EqDecision phase.
Proof. solve_decision. Defined.

Inductive step : phase -> event -> phase -> Prop :=
| step_enter p :
    step Idle (Ev SyncPlaywrightEnter (Returned p)) (Started p)
| step_enter_failed e :
    step Idle (Ev SyncPlaywrightEnter (Raised e)) Ended
| step_launch p hl b :
    step (Started p) (Ev (Launch p hl) (Returned b)) (Launched p b)
| step_launch_failed p hl e :
    step (Started p) (Ev (Launch p hl) (Raised e)) (Closing p)
| step_new_page p b pg :
    step (Launched p b) (Ev (NewPage b) (Returned pg)) (Opened p b pg)
| step_new_page_failed p b e :
    step (Launched p b) (Ev (NewPage b) (Raised e)) (Closing p)
| step_use p b pg ev :
    page_of (ev_call ev) = Some pg ->
    step (Opened p b pg) ev (Opened p b pg)
| step_print p b pg s o :
    step (Opened p b pg) (Ev (PrintLine s) o) (Opened p b pg)
| step_close p b pg o :
    step (Opened p b pg) (Ev (Close b) o) (Closing p)
| step_exit p o :
    step (Closing p) (Ev (SyncPlaywrightExit p) o) Ended.

Inductive steps : phase -> list event -> phase -> Prop :=
| steps_nil s : steps s [] s
| steps_cons s ev s' t s'' : step s ev s' -> steps s' t s'' -> steps s (ev :: t) s''.

(** The machine is deterministic: the acceptor computes the next phase. *)
Definition next (s : phase) (ev : event) : option phase :=
  match s with
  | Idle =>
      match ev with
      | Ev SyncPlaywrightEnter (Returned p) => Some (Started p)
      | Ev SyncPlaywrightEnter (Raised _) => Some Ended
      | _ => None
      end
  | Started p =>
      match ev with
      | Ev (Launch p' _) (Returned b) => if decide (p' = p) then Some (Launched p b) else None
      | Ev (Launch p' _) (Raised _) => if decide (p' = p) then Some (Closing p) else None
      | _ => None
      end
  | Launched p b =>
      match ev with
      | Ev (NewPage b') (Returned pg) => if decide (b' = b) then Some (Opened p b pg) else None
      | Ev (NewPage b') (Raised _) => if decide (b' = b) then Some (Closing p) else None
      | _ => None
      end
  | Opened p b pg =>
      match ev_call ev with
      | PrintLine _ => Some s
      | Close b' => if decide (b' = b) then Some (Closing p) else None
      | c => if decide (page_of c = Some pg) then Some s else None
      end
  | Closing p =>
      match ev_call ev with
      | SyncPlaywrightExit p' => if decide (p' = p) then Some Ended else None
      | _ => None
      end
  | Ended => None
  end.

Fixpoint accept (s : phase) (t : list event) : option phase :=
  match t with
  | [] => Some s
  | ev :: t' => s' ← next s ev; accept s' t'
  end.

(** Typing a program against the protocol: [typed Q s p] says that from
    the phase [s] every call of [p] is allowed by the machine, whatever
    the call answers, and that [p] ends in a phase and with an outcome
    that satisfy [Q]. *)
Fixpoint typed {R} (Q : phase -> outcome R -> Prop) (s : phase) (p : prog R) : Prop :=
  match p with
  | Ret r => Q s (Returned r)
  | Raise e => Q s (Raised e)
  | Call c k => forall o, from_option (fun s' => typed Q s' (k o)) False (next s (Ev c o))
  end.

#[export] Hint Constructors step steps : py.

(** * The acceptor decides the step relation *)

Lemma step_next s ev s' : step s ev s' -> next s ev = Some s'.
Proof.
  destruct 1; simpl; rewrite ?decide_True by done; try done.
  destruct ev as [[] o]; simplify_eq/=; by rewrite decide_True.
Qed.

Lemma next_step s ev s' : next s ev = Some s' -> step s ev s'.
Proof.
  destruct s, ev as [[] [?|?]]; simpl; intros; repeat case_decide; simplify_eq;
    eauto with py.
Qed.

Lemma step_deterministic s ev s1 s2 : step s ev s1 -> step s ev s2 -> s1 = s2.
Proof. intros H1%step_next H2%step_next. congruence. Qed.

Lemma steps_accept s t s' : steps s t s' <-> accept s t = Some s'.
Proof.
  split.
  - induction 1 as [|s ev s1 t s2 H1 _ IH]; [done |]. simpl. by rewrite (step_next _ _ _ H1).
  - revert s. induction t as [|ev t IH]; simpl; intros s.
    + intros [= ->]. constructor.
    + destruct (next s ev) as [s1|] eqn:Hn; [|done]. simpl. intros Ha.
      econstructor; [by apply next_step | by apply IH].
Qed.

Lemma steps_app s t1 s1 t2 s2 : steps s t1 s1 -> steps s1 t2 s2 -> steps s (t1 ++ t2) s2.
Proof. induction 1; simpl; eauto with py. Qed.

Lemma steps_loop s t : Forall (fun ev => step s ev s) t -> steps s t s.
Proof. induction 1; eauto with py. Qed.

(** * Invariants of the machine, by induction on its rules *)

(** A call on a page is made in the phase in which that page is open. *)
Lemma step_page_use s ev s' pg :
  step s ev s' -> page_of (ev_call ev) = Some pg -> exists p b, s = Opened p b pg /\ s' = s.
Proof. destruct 1; simpl; intros Hpg; simplify_eq; eauto. Qed.

(** The only way into the phase in which a page is open is the
    [new_page] that returned it. *)
Lemma step_opens s ev p b pg :
  step s ev (Opened p b pg) -> s = Opened p b pg \/ ev = Ev (NewPage b) (Returned pg).
Proof. inversion 1; subst; auto. Qed.

(** Every call on a page is made while that page is open: the run started
    in that phase, or the page was returned by an earlier [new_page]. *)
Lemma steps_page_use s t s' ev pg :
  steps s t s' -> ev ∈ t -> page_of (ev_call ev) = Some pg ->
  (exists p b, s = Opened p b pg)
  \/ exists t1 b t2, t = t1 ++ Ev (NewPage b) (Returned pg) :: t2 /\ ev ∈ t2.
Proof.
  induction 1 as [|s ev0 s1 t s2 H1 _ IH]; intros Hin Hpg; [by apply elem_of_nil in Hin |].
  apply elem_of_cons in Hin as [->|Hin].
  - destruct (step_page_use _ _ _ _ H1 Hpg) as (p & b & -> & _). eauto.
  - destruct (IH Hin Hpg) as [(p & b & ->)|(t1 & b & t2 & -> & Hin2)].
    + apply step_opens in H1 as [->| ->]; [eauto |]. right. by exists [], b, t.
    + right. by exists (ev0 :: t1), b, t2.
Qed.

(** * Typing rules

    One rule per statement of [Python]; the judgment is preserved by the
    equivalence of programs and can be weakened in its postcondition. *)

Lemma typed_mono {R} (Q Q' : phase -> outcome R -> Prop) s (p : prog R) :
  (forall s' o, Q s' o -> Q' s' o) -> typed Q s p -> typed Q' s p.
Proof.
  intros HQ. revert s. induction p as [r|e|c k IH]; intros s; simpl; [auto.. |].
  intros H o. specialize (H o). destruct (next s (Ev c o)); simpl in *; auto.
Qed.

Lemma typed_peq {R} (Q : phase -> outcome R -> Prop) s (p q : prog R) :
  peq p q -> typed Q s p -> typed Q s q.
Proof.
  intros Hpq. revert s. induction Hpq as [r|e|c k k' _ IH]; intros s; simpl; [done.. |].
  intros H o. specialize (H o). destruct (next s (Ev c o)); simpl in *; auto.
Qed.

Lemma typed_bind {A R} (Q : phase -> outcome R -> Prop) s (p : prog A) (k : A -> prog R) :
  typed (fun s' o => match o with
                     | Returned a => typed Q s' (k a)
                     | Raised e => Q s' (Raised e)
                     end) s p ->
  typed Q s (bind p k).
Proof.
  revert s. induction p as [r|e|c j IH]; intros s; simpl; [done.. |].
  intros H o. specialize (H o). destruct (next s (Ev c o)); simpl in *; auto.
Qed.

Lemma typed_try_except {R} (Q : phase -> outcome R -> Prop) s (p : prog R)
    (catches : exn -> bool) (hd : exn -> prog R) :
  typed (fun s' o => match o with
                     | Returned r => Q s' (Returned r)
                     | Raised e => if catches e then typed Q s' (hd e) else Q s' (Raised e)
                     end) s p ->
  typed Q s (try_except p catches hd).
Proof.
  revert s. induction p as [r|e|c j IH]; intros s; simpl; [done | by destruct (catches e) |].
  intros H o. specialize (H o). destruct (next s (Ev c o)); simpl in *; auto.
Qed.

Lemma typed_try_finally {R} (Q : phase -> outcome R -> Prop) s (p : prog R) (f : prog unit) :
  typed (fun s' o => typed (fun s'' o' => Q s'' (after o' o)) s' f) s p ->
  typed Q s (try_finally p f).
Proof.
  revert s. induction p as [r|e|c j IH]; intros s.
  1-2: cbn [try_finally typed]; intros H; apply typed_bind; revert H;
    apply typed_mono; by intros ? [].
  simpl. intros H o. specialize (H o). destruct (next s (Ev c o)); simpl in *; auto.
Qed.

(** Soundness: the trace of a typed program is accepted by the machine,
    in every environment, and ends where the judgment says. *)
Lemma typed_sound {R W} (Q : phase -> outcome R -> Prop) s (p : prog R) (h : handler W) w :
  typed Q s p ->
  exists s', accept s (trace_of (run h p w)) = Some s' /\ Q s' (outcome_of (run h p w)).
Proof.
  revert s w. induction p as [r|e|c k IH]; intros s w; simpl; [eauto.. |].
  intros H. destruct (h c w) as [o w']. specialize (H o).
  unfold prepend; cbn [trace_of outcome_of app accept].
  destruct (next s (Ev c o)) as [s1|]; [|done]. apply (IH o s1 w' H).
Qed.

Lemma typed_perform s c (Q : phase -> outcome (ret c) -> Prop) :
  (forall o, from_option (fun s' => Q s' o) False (next s (Ev c o))) ->
  typed Q s (perform c).
Proof.
  intros H o. specialize (H o). destruct (next s (Ev c o)); [|done]. by destruct o.
Qed.

(** A sequence of calls that the machine allows in the phase [s] and that
    leave it in [s]. *)
Lemma typed_perform_all s cs :
  Forall (fun c => forall o, next s (Ev c o) = Some s) cs ->
  typed (fun s' _ => s' = s) s (perform_all cs).
Proof.
  induction 1 as [|c cs Hc _ IH]; [done |].
  rewrite perform_all_cons. apply typed_bind, typed_perform. intros o. rewrite Hc.
  by destruct o.
Qed.

(** Type a call: the machine must allow it whether it returns or raises;
    what is left is the typing of what follows each answer. *)
Ltac typed_call a e :=
  apply typed_perform; intros [a|e];
  cbn [next ev_call from_option page_of]; rewrite ?decide_True by done;
  cbn [from_option].

(** * The typing of the script *)

Lemma verify_app_typed p b pg :
  typed (fun s _ => s = Opened p b pg) (Opened p b pg) (verify_app pg).
Proof.
  eapply typed_peq; [symmetry; apply verify_app_script |].
  apply typed_perform_all. Forall_each ltac:(intros o; simpl; by rewrite ?decide_True).
Qed.

Lemma body_typed p : typed (fun s _ => s = Closing p) (Started p) (body p).
Proof.
  apply typed_bind; typed_call b e; [|done]. apply typed_bind; typed_call pg e; [|done].
  apply typed_try_finally, typed_try_except.
  eapply typed_mono; [|apply (verify_app_typed p b pg)]. intros s o ->.
  assert (typed (fun s' _ => s' = Closing p) (Opened p b pg) (close b)) as Hclose
    by (typed_call u e; done).
  destruct o as [[]|e]; [done |]. destruct (isinstance_Exception e); [|done].
  typed_call u e'; done.
Qed.

(** C19. The script is well typed against the protocol of its resources:
    from the phase in which nothing is held, every call [main] can make is
    one the protocol allows at that point, whatever the earlier calls
    answered, and [main] can only end in the phase in which everything is
    released. *)
Theorem main_well_typed : typed (fun s _ => s = Ended) Idle main.
Proof.
  apply typed_bind; typed_call p e; [|done].
  apply typed_try_finally. eapply typed_mono; [|apply body_typed]. intros s o ->.
  typed_call u e'; done.
Qed.

(** * The script follows the protocol *)

Section AnyEnvironment.
Context {W : Type} (h : handler W).
Implicit Types (w : W).

(** Every trace of [main] is a complete run of the machine. *)
Lemma main_steps w : steps Idle (trace_of (run h main w)) Ended.
Proof.
  destruct (run_main_session h w) as [e|p e ox|p b e ox|p b pg tv ov th oh oc ox Hv Hh];
    [eauto 6 with py.. |].
  do 3 (econstructor; [constructor |]).
  apply (steps_app _ _ (Opened p b pg)).
  { apply steps_loop, (verify_trace_Forall _ pg tv ov Hv).
    intros [c o] [Hpg|Hc]; simpl in *; [by apply step_use | subst; apply step_print]. }
  apply (steps_app _ _ (Opened p b pg)); [|eauto with py].
  apply steps_loop, (handled_Forall _ ov th oh Hh).
  intros [c o] s Hc; simpl in *; subst; apply step_print.
Qed.

(** C20. The script follows the protocol of its resources: the acceptor of
    the machine accepts every trace of [main], whatever the environment
    does, and ends in the phase in which everything is released. *)
Theorem main_follows_protocol w : accept Idle (trace_of (run h main w)) = Some Ended.
Proof. apply steps_accept, main_steps. Qed.

(** C18. The page is used only while it is open: every call of [main] on a
    page comes after the [new_page] event that returned that page, whatever
    the environment does. *)
Theorem main_uses_opened_page w ev pg :
  ev ∈ trace_of (run h main w) ->
  page_of (ev_call ev) = Some pg ->
  exists t1 b t2,
    trace_of (run h main w) = t1 ++ Ev (NewPage b) (Returned pg) :: t2 /\ ev ∈ t2.
Proof.
  intros Hin Hpg.
  by destruct (steps_page_use _ _ _ _ _ (main_steps w) Hin Hpg) as [(? & ? & ?)|?].
Qed.

End AnyEnvironment.

(** * An execution *)

Lemma main_uses_opened_page_witness :
  exists t1 b t2,
    trace_of (run scripted main all_return)
    = t1 ++ Ev (NewPage b) (Returned (Page 0)) :: t2
    /\ Ev (Screenshot (Page 0) "verification.png") (Returned tt) ∈ t2.
Proof.
  apply (main_uses_opened_page scripted all_return
           (Ev (Screenshot (Page 0) "verification.png") (Returned tt)) (Page 0));
    [apply (list_elem_of_lookup_2 _ 8) | ]; reflexivity.
Defined.
