(* ===== verification/Replay.v ===== *)
(** * Replay: the specification is exact

    [Verifier.run_main_session] shows that every execution of [main] is a
    session.  This file shows the converse: every session is an execution
    of [main], against the environment that replays the session's events.
    The specification [session] therefore describes exactly the
    behaviours of the script, not a superset of them. *)

From Stdlib Require Import Eqdep_dec.
From stdpp Require Import base strings list gmap.
From S2P Require Import Prelude Python Playwright App World Verifier.

#[local] Open Scope py_scope.
#[local] Open Scope string_scope.
#[local] Open Scope list_scope.

(** * The replaying environment *)

(** The outcome [o] of a call [c], as an outcome of the call [c'] when the
    two calls are the same. *)
Definition cast_outcome (c c' : call) (o : outcome (ret c)) : option (outcome (ret c')) :=
  match decide (c = c') with
  | left H => Some (eq_rect c (fun c => outcome (ret c)) o c' H)
  | right _ => None
  end.

Definition off_script : exn := Exn "AssertionError" true "call not in the recorded session".

(** The state is the list of events still to replay: a call that is the
    next recorded call gets the recorded outcome. *)
Definition replay : handler (list event) :=
  fun c w =>
    match w with
    | [] => (Raised off_script, [])
    | ev :: w' =>
        match cast_outcome (ev_call ev) c (ev_outcome ev) with
        | Some o => (o, w')
        | None => (Raised off_script, w')
        end
    end.

(** * Replaying *)

Lemma cast_outcome_refl c o : cast_outcome c c o = Some o.
Proof.
  unfold cast_outcome. destruct (decide (c = c)) as [H|]; [|done].
  by rewrite (UIP_dec call_eq_dec H eq_refl).
Qed.

Lemma replay_hit c o w : replay c (Ev c o :: w) = (o, w).
Proof. unfold replay. cbn [ev_call ev_outcome]. by rewrite cast_outcome_refl. Qed.

(** Replaying the recording of an execution reproduces it: the program
    makes the same calls, gets the same answers, ends with the same
    outcome, and leaves what was recorded after it. *)
Lemma run_replay {R W} (h : handler W) (p : prog R) w rest :
  run replay p (trace_of (run h p w) ++ rest)
  = Final (outcome_of (run h p w)) rest (trace_of (run h p w)).
Proof.
  revert w. induction p as [r|e|c k IH]; intros w; [done | done |].
  rewrite (run_Call h). destruct (h c w) as [o w'].
  unfold prepend; cbn [fst snd trace_of outcome_of app].
  rewrite run_Call, replay_hit. cbn [fst snd]. by rewrite IH.
Qed.

(** A straight-line script replays a fail-fast trace of its calls. *)
Lemma run_replay_script cs tv (ov : outcome unit) rest :
  map ev_call tv `prefix_of` cs ->
  fail_fast tv ov ->
  (ov = Returned tt -> map ev_call tv = cs) ->
  run replay (perform_all cs) (tv ++ rest) = Final ov rest tv.
Proof.
  revert cs. induction tv as [|[c o] tv IH]; intros cs Hp Hf Hr.
  - destruct (fail_fast_nil _ Hf) as [[] ->]. by rewrite <- Hr.
  - destruct cs as [|c' cs]; [by apply prefix_nil_inv in Hp |].
    simpl in Hp. apply prefix_cons_inv_1 in Hp as Hc. apply prefix_cons_inv_2 in Hp.
    subst c'. rewrite run_perform_all_cons.
    change ((Ev c o :: tv) ++ rest) with (Ev c o :: (tv ++ rest)).
    rewrite replay_hit. cbn [fst snd].
    destruct o as [a|e].
    + apply fail_fast_returned_first in Hf. rewrite IH; [done.. |].
      intros Ho. specialize (Hr Ho). by simplify_eq/=.
    + by apply fail_fast_raised_first in Hf as [-> ->].
Qed.

(** One call of the script, answered from the recording. *)
Ltac replay_call :=
  run_simpl; unfold answer; cbn [app]; rewrite !replay_hit; run_simpl.

(** [main] replays every session. *)
Lemma run_replay_main t o : session t o -> run replay main t = Final o [] t.
Proof.
  intros [e|p e ox|p b e ox|p b pg tv ov th oh oc ox (Hp & Hf & Hr) Hh]; unfold main.
  - replay_call. by run_done.
  - do 3 replay_call. run_done. by destruct ox.
  - do 4 replay_call. run_done. by destruct ox.
  - do 3 replay_call. rewrite run_verify_app, (run_replay_script _ tv ov _ Hp Hf Hr).
    destruct Hh as [|e o' He|e He]; run_simpl; rewrite ?He; do 2 replay_call; run_done;
      by rewrite ?replay_hit.
Qed.

(** C11. The specification is exact: a trace and an outcome form a session
    if and only if some environment makes [main] leave that trace and end
    with that outcome.  The sessions are the behaviours of the script, all
    of them and nothing else. *)
Theorem main_behaviours t o :
  session t o <->
  exists (W : Type) (h : handler W) (w : W),
    trace_of (run h main w) = t /\ outcome_of (run h main w) = o.
Proof.
  split.
  - intros Hs. exists (list event), replay, t. by rewrite (run_replay_main t o Hs).
  - intros (W & h & w & <- & <-). apply run_main_session.
Qed.

(** C24. The specification of [verify_app] is exact as well: the traces and
    outcomes that satisfy [verify_trace] (a prefix of the seven steps,
    fail-fast, complete when it returns) are exactly those [verify_app]
    leaves in some environment. *)
Theorem verify_app_behaviours pg t o :
  verify_trace pg t o <->
  exists (W : Type) (h : handler W) (w : W),
    trace_of (run h (verify_app pg) w) = t /\ outcome_of (run h (verify_app pg) w) = o.
Proof.
  split.
  - intros (Hp & Hf & Hr). exists (list event), replay, t.
    pose proof (run_replay_script _ t o [] Hp Hf Hr) as Hrun. rewrite app_nil_r in Hrun.
    by rewrite run_verify_app, Hrun.
  - intros (W & h & w & <- & <-). apply verify_app_trace.
Qed.
