(* ===== verification/Soundness.v ===== *)
(** * Soundness: the protocol against the world model

    The protocol of [Protocol] says in which order the driver, the
    browser and the page may be used; the world of [World] answers a call
    on a page that is not open, or on a browser that is not live, with
    the error [target_closed].  This file relates the two: each phase of
    the protocol says what is open in the world ([holds]), every step of
    the machine keeps that relation and is not answered with
    [target_closed], and therefore a program whose calls follow the
    protocol, [main] among them, never uses a closed page or browser, in
    any world. *)

From stdpp Require Import base strings list gmap.
From S2P Require Import Prelude Python Playwright App World Verifier Protocol.

#[local] Open Scope string_scope.
#[local] Open Scope list_scope.

(** * Definitions *)

(** What a phase of the protocol says of the world: the driver it names
    runs, the browser it names is live, the page it names is open. *)
Definition holds (s : phase) (w : world) : Prop :=
  match s with
  | Started p => p ∈ drivers w
  | Launched p b => is_Some (browsers w !! b)
  | Opened p b pg => is_Some (pages w !! pg)
  | Idle | Closing _ | Ended => True
  end.

(** An event that is the use of a closed page or browser. *)
Definition misuse (ev : event) : Prop := ev_raised ev = Some target_closed.

(** A script that breaks the protocol, for comparison: it closes the
    browser and then navigates the page. *)
Definition use_after_close : prog unit :=
  with_ sync_playwright sync_playwright_exit (fun p =>
    bind (launch p true) (fun browser =>
    bind (new_page browser) (fun page =>
    bind (close browser) (fun _ => goto page "http://localhost:3000")))).

(** * One step *)

Lemma pages_elapse t w pg : is_Some (pages w !! pg) -> is_Some (pages (elapse t w) !! pg).
Proof. simpl. rewrite lookup_fmap. by intros [tb ->]. Qed.

(** A call on an open page is answered, with a value or with an error of
    the application, and leaves the page open. *)
Lemma page_call_holds c pg w :
  page_of c = Some pg -> is_Some (pages w !! pg) ->
  raised (world_handler c w).1 <> Some target_closed
  /\ is_Some (pages (world_handler c w).2 !! pg).
Proof.
  intros Hc [tb Htb].
  destruct c; simplify_eq/=;
    unfold w_goto, w_wait_for_selector, w_fill, w_wait_for_timeout, w_screenshot, on_page;
    rewrite Htb; repeat case_match; simplify_eq;
    (split; [done |]); cbn [snd];
    first [apply pages_elapse | simpl; rewrite ?lookup_insert_eq]; by eauto.
Qed.

(** A step of the machine, answered by the world in a state the phase
    describes, is not a misuse, and the next phase describes the next
    state. *)
Lemma next_holds s c w s' :
  next s (Ev c (world_handler c w).1) = Some s' -> holds s w ->
  ~ misuse (Ev c (world_handler c w).1) /\ holds s' (world_handler c w).2.
Proof.
  intros Hn Hs. unfold misuse, ev_raised.
  destruct s, c; simpl in Hn; try done;
    try (by case_decide; simplify_eq; apply (page_call_holds _ pg)).
  - simplify_eq. split; [done |]. simpl. apply elem_of_union_l, elem_of_singleton. reflexivity.
  - revert Hn. simpl. unfold w_launch.
    destruct (_ && _); simpl; case_decide; intros; simplify_eq;
      (split; [done |]); simpl; by rewrite ?lookup_insert_eq.
  - destruct Hs as [q Hq]. revert Hn. simpl. destruct (decide (b0 = b)) as [->|Hb].
    + unfold w_new_page. rewrite Hq. simpl. intros; simplify_eq.
      split; [done |]. simpl. by rewrite lookup_insert_eq.
    + by destruct (w_new_page b0 w).1.
  - by simplify_eq.
  - by case_decide; simplify_eq.
  - by case_decide; simplify_eq.
Qed.

(** * Executions *)

(** An execution in the world whose trace the machine accepts, started in
    a state the phase describes, contains no misuse and ends in a state
    the final phase describes. *)
Lemma accepted_world_safe {R} (p : prog R) s w s' :
  holds s w -> accept s (trace_of (run world_handler p w)) = Some s' ->
  Forall (fun ev => ~ misuse ev) (trace_of (run world_handler p w))
  /\ holds s' (world_of (run world_handler p w)).
Proof.
  revert s w. induction p as [r|e|c k IH]; intros s w Hs; [by intros [= <-].. |].
  rewrite run_Call. cbn [prepend trace_of world_of app accept].
  destruct (next s (Ev c (world_handler c w).1)) as [s1|] eqn:Hn; [|done].
  destruct (next_holds s c w s1 Hn Hs) as [Hm Hs1]. intros Ha.
  destruct (IH _ s1 _ Hs1 Ha) as [Ht Hs']. split; [by constructor | done].
Qed.

(** A program typed against the protocol never uses a closed page or
    browser. *)
Lemma typed_world_safe {R} (Q : phase -> outcome R -> Prop) s (p : prog R) w :
  typed Q s p -> holds s w ->
  Forall (fun ev => ~ misuse ev) (trace_of (run world_handler p w)).
Proof.
  intros Hp Hs. destruct (typed_sound Q s p world_handler w Hp) as (s' & Ha & _).
  by destruct (accepted_world_safe p s w s' Hs Ha).
Qed.

(** C21. The script never uses a closed page or browser: in every state of
    the world, whatever is open or closed in it, no call of [main] is
    answered with the error of a closed target, because [main] uses only
    the driver, the browser and the page it has just obtained, and the
    page only before it closes the browser. *)
Theorem main_never_misuses w :
  Forall (fun ev => ~ misuse ev) (trace_of (run world_handler main w)).
Proof.
  pose proof (main_steps world_handler w) as Ha%steps_accept.
  by destruct (accepted_world_safe main Idle w Ended I Ha).
Qed.

(** The property separates scripts: the one that navigates after closing
    the browser is answered with the error of a closed target. *)
Lemma use_after_close_misuses :
  Exists misuse (trace_of (run world_handler use_after_close (initial scenario_setup))).
Proof. do 4 apply Exists_cons_tl. by apply Exists_cons_hd. Qed.
