(* ===== verification/Faults.v ===== *)
(** * Faults: failures injected into the calls on a page

    The specification asks that the script survive a failure injected at
    any of the steps 3 to 8, the calls on the page (property P3), and that
    the browser be released on every execution path (P2).  This file
    models the injection: an environment is wrapped with a plan, a list
    with one entry per call on a page, that says whether the call is
    answered by the environment or fails with a given exception before it
    reaches the environment.  The calls that are not on a page (the
    driver, the browser, [print]) always reach the environment.

    The wrapped environment is an environment like any other, so every
    theorem of [Verifier] that holds for all handlers holds under every
    plan; it honours the contract [Environment] whenever the environment
    it wraps does; with a plan without failures it behaves as the
    environment it wraps; and whatever is raised under a plan is raised by
    the environment or is a failure of the plan. *)

From stdpp Require Import base strings list gmap.
From S2P Require Import Prelude Python Playwright.

#[local] Open Scope list_scope.

(** * Definitions *)

(** One entry per call on a page, in order: [None] lets the call through,
    [Some e] makes it raise [e].  Past its end every call goes through. *)
Definition plan : Type := list (option exn).

(** The plan after the call [c], when [c] was not failed by it. *)
Definition rest (c : call) (f : plan) : plan :=
  match page_of c with
  | Some _ => tail f
  | None => f
  end.

(** The environment [h] under a plan. *)
Definition inject {W} (h : handler W) : handler (plan * W) :=
  fun c s =>
    match page_of c, s.1 with
    | Some _, Some e :: f => (Raised e, (f, s.2))
    | _, f => ((h c s.2).1, (rest c f, (h c s.2).2))
    end.

(** The plan that fails the call number [n] on a page (from 0) with [e],
    and goes on with [f]. *)
Definition fail_at (n : nat) (e : exn) (f : plan) : plan :=
  replicate n None ++ Some e :: f.

(** A plan without failures. *)
Definition quiet (f : plan) : Prop := Forall (fun o => o = None) f.

(** A plan whose failures all derive from [Exception]: it injects errors,
    not interrupts. *)
Definition benign (f : plan) : Prop :=
  Forall (fun o => forall e, o = Some e -> isinstance_Exception e = true) f.

(** An execution of the inner environment, seen as one under the plan it
    ended with. *)
Definition under {R W} (f : plan) (r : final R W) : final R (plan * W) :=
  Final (outcome_of r) (f, world_of r) (trace_of r).

(** * One call *)

Section Inject.
Context {W : Type} (h : handler W).
Implicit Types (c : call) (f : plan) (w : W) (e : exn).

(** A call that is not on a page reaches the environment. *)
Lemma inject_pass c f w :
  page_of c = None -> inject h c (f, w) = ((h c w).1, (f, (h c w).2)).
Proof. intros Hc. unfold inject, rest. by rewrite Hc. Qed.

(** So does every call when the plan does not start with a failure. *)
Lemma inject_through c f w :
  (forall e, head f <> Some (Some e)) ->
  inject h c (f, w) = ((h c w).1, (rest c f, (h c w).2)).
Proof.
  intros Hf. unfold inject; simpl. destruct (page_of c); [|done].
  destruct f as [|[e|] f']; [done | by destruct (Hf e) | done].
Qed.

(** A call on a page that the plan fails does not reach the environment. *)
Lemma inject_fault c e f w :
  is_Some (page_of c) -> inject h c (Some e :: f, w) = (Raised e, (f, w)).
Proof. intros [pg Hc]. unfold inject. by rewrite Hc. Qed.

(** These are the only two cases. *)
Lemma inject_cases c f w :
  inject h c (f, w) = ((h c w).1, (rest c f, (h c w).2))
  \/ exists e f', is_Some (page_of c) /\ f = Some e :: f'
       /\ inject h c (f, w) = (Raised e, (f', w)).
Proof.
  unfold inject, rest; simpl. destruct (page_of c) as [pg|] eqn:Hc; [|by left].
  destruct f as [|[e|] f']; [by left | right | by left]. by exists e, f'.
Qed.

Lemma rest_quiet c f : quiet f -> quiet (rest c f).
Proof.
  unfold rest, quiet. destruct (page_of c); [|done].
  intros Hf. destruct Hf; [constructor | done].
Qed.

Lemma quiet_head f e : quiet f -> head f <> Some (Some e).
Proof. unfold quiet. intros Hf. by destruct Hf as [|? ? ->]. Qed.

(** * Executions *)

(** Without failures in the plan, the execution is that of the
    environment. *)
Lemma run_inject_quiet {R} (p : prog R) f w :
  quiet f -> exists f', quiet f' /\ run (inject h) p (f, w) = under f' (run h p w).
Proof.
  revert f w. induction p as [r|e|c k IH]; intros f w Hf; [by exists f.. |].
  rewrite !run_Call, inject_through by (intros e; by apply quiet_head). cbn [fst snd].
  destruct (IH (h c w).1 (rest c f) (h c w).2) as (f' & Hf' & ->); [by apply rest_quiet |].
  by exists f'.
Qed.

Lemma run_inject_nil {R} (p : prog R) w :
  run (inject h) p ([], w) = under [] (run h p w).
Proof.
  revert w. induction p as [r|e|c k IH]; intros w; [done.. |].
  rewrite !run_Call, inject_through by done. cbn [fst snd].
  replace (rest c []) with (@nil (option exn)) by (unfold rest; by destruct (page_of c)).
  rewrite IH. reflexivity.
Qed.

(** A program that makes no call on a page does not see the plan. *)
Lemma run_inject_pass {R} (p : prog R) f w :
  calls_sat (fun c => page_of c = None) p ->
  run (inject h) p (f, w) = under f (run h p w).
Proof.
  intros Hp. revert w. induction Hp as [r|e|c k Hc _ IH]; intros w; [done.. |].
  rewrite !run_Call, inject_pass by done. cbn [fst snd]. by rewrite IH.
Qed.

(** The first failure of a plan, in a script of calls on a page: the calls
    before it are answered by the environment; if they return, the call
    the plan fails raises, and the script ends there. *)
Lemma run_inject_fail_at cs1 c cs2 e f w w1 t1 :
  Forall (fun c => is_Some (page_of c)) cs1 -> is_Some (page_of c) ->
  run h (perform_all cs1) w = Final (Returned tt) w1 t1 ->
  run (inject h) (perform_all (cs1 ++ c :: cs2)) (fail_at (length cs1) e f, w)
  = Final (Raised e) (f, w1) (t1 ++ [Ev c (Raised e)]).
Proof.
  intros Hcs Hc. revert w t1. induction Hcs as [|c0 cs1 [pg Hc0] _ IH]; intros w t1.
  - intros [= <- <-]. rewrite app_nil_l, run_perform_all_cons.
    unfold fail_at; simpl. by rewrite inject_fault.
  - rewrite <- app_comm_cons, !run_perform_all_cons.
    unfold fail_at; simpl. rewrite inject_through by done. unfold rest; rewrite Hc0; simpl.
    destruct (h c0 w) as [[a|e0] w']; simpl; [|done].
    destruct (run h (perform_all cs1) w') as [o1 w1' t1'] eqn:Hr. unfold prepend; simpl.
    intros [= -> -> <-]. fold (fail_at (length cs1) e f). by rewrite (IH w' t1' Hr).
Qed.

(** What is raised under a plan is raised by the environment or is a
    failure of the plan. *)
Lemma run_inject_raises {R} (P : exn -> Prop) (p : prog R) f w :
  (forall c w e, (h c w).1 = Raised e -> P e) ->
  Forall (fun o => forall e, o = Some e -> P e) f ->
  Forall (fun ev => forall e, ev_raised ev = Some e -> P e)
         (trace_of (run (inject h) p (f, w))).
Proof.
  intros Hh. revert f w. induction p as [r|e|c k IH]; intros f w Hf; [constructor.. |].
  rewrite run_Call. cbn [prepend trace_of app].
  destruct (inject_cases c f w) as [->|(e & f' & _ & -> & ->)]; cbn [fst snd].
  - constructor; [|apply IH; unfold rest; destruct (page_of c); [by destruct Hf | done]].
    intros e. unfold ev_raised; simpl. destruct (h c w).1 eqn:Ho; [done |].
    intros [= <-]. by eapply Hh.
  - apply Forall_cons_1 in Hf as [He Hf]. constructor; [|by apply IH].
    intros e'. unfold ev_raised; simpl. intros [= <-]. by apply He.
Qed.

End Inject.

(** * The contract

    An environment under a plan honours the contract when the environment
    does: a failed call changes nothing, and a call on a page neither
    changes the live browsers nor prints. *)

Section Contract.
Context `{Environment W}.

Lemma lines_of_page_call c (o : outcome (ret c)) :
  is_Some (page_of c) -> lines_of [Ev c o] = [].
Proof. intros [pg Hc]. destruct c; try done; by destruct o. Qed.

#[export, refine] Instance inject_environment : Environment (plan * W) := {
  env := inject env;
  live := fun s => live s.2;
  out := fun s => out s.2;
  ok := fun s => ok s.2
}.
Proof.
  - intros c [f w] Hok.
    destruct (inject_cases env c f w) as [->|(e & f' & _ & _ & ->)]; [by apply env_ok | done].
  - intros [f w] Hok. rewrite inject_pass by done. by apply env_enter.
  - intros [f w] p hl Hok. rewrite inject_pass by done. by apply env_launch.
  - intros [f w] b. rewrite inject_pass by done. apply env_close.
  - intros [f w] p. rewrite inject_pass by done. apply env_exit.
  - intros [f w] c. pose proof (env_live_other w c) as Hc.
    destruct (inject_cases env c f w) as [->|(e & f' & [pg Hpg] & _ & ->)]; [done |].
    by destruct c.
  - intros [f w] c.
    destruct (inject_cases env c f w) as [->|(e & f' & Hpg & _ & ->)]; [apply env_out |].
    cbn [fst snd]. by rewrite lines_of_page_call, app_nil_r.
Defined.

End Contract.
