(* ===== verification/Scenarios.v ===== *)
(** * Scenarios: the script in the world model

    The end-to-end behaviour of [Verifier.main] executed by
    [World.world_handler]: the scenarios of the specification (section 9:
    the happy path, the server down, an element missing), what [main]
    does in every world, a failure injected into a call on the page (P3),
    the screenshot artifact (P4), the sufficiency of the one-second wait
    for the application's debounce delay, idempotence of two successive
    runs (P1) and the release of every resource (P2).  The execution is
    symbolic: the world, its setup and the plan of injected failures are
    variables, constrained by hypotheses.  The world without injected
    failures is the world under the empty plan ([Faults.run_inject_nil]). *)

From stdpp Require Import base strings list gmap.
From S2P Require Import Prelude Python Playwright App World Verifier Faults.

#[local] Open Scope Z_scope.
#[local] Open Scope string_scope.
#[local] Open Scope list_scope.

(** * Definitions *)

(** The application after the script's two [fill] calls. *)
Definition filled (c : setup) : app_state :=
  app_input (debounce c) "#maxPoints" "100"
    (app_input (debounce c) "#examTitle" "Debounce Test Exam" (app_load (defaults c))).

(** What the page shows when the screenshot is taken: one second later. *)
Definition shot (c : setup) : app_state := app_elapse 1000 (filled c).

(** The trace of [verify_app] when every step returns. *)
Definition verify_events (pg : page) : list event :=
  [ Ev (Goto pg "http://localhost:3000") (Returned tt);
    Ev (WaitForSelector pg "#maxPoints") (Returned tt);
    Ev (Fill pg "#examTitle" "Debounce Test Exam") (Returned tt);
    Ev (Fill pg "#maxPoints" "100") (Returned tt);
    Ev (WaitForTimeout pg 1000) (Returned tt);
    Ev (Screenshot pg "verification.png") (Returned tt);
    Ev (PrintLine "Screenshot taken") (Returned tt) ].

(** The application is up and has the two inputs the script fills. *)
Definition serves (c : setup) : Prop :=
  server_up c = true /\ "#examTitle" ∈ elements c /\ "#maxPoints" ∈ elements c.

(** The handles an execution of [main] in the world [w] obtains. *)
Definition new_driver (w : world) : playwright := Playwright (next_id w).

Definition new_browser (w : world) : browser := Browser (S (next_id w)).

Definition new_tab (w : world) : page := Page (S (S (next_id w))).

(** The world after [sync_playwright()] is entered, after the browser is
    launched, after the page is opened. *)
Definition entered (w : world) : world :=
  bump (set_drivers ({[new_driver w]} ∪ drivers w) w).

Definition launched (w : world) : world :=
  bump (set_browsers (<[new_browser w := new_driver w]> (browsers w)) (entered w)).

Definition opened_world (w : world) : world :=
  with_tab (new_tab w) (Tab (new_browser w) None) (bump (launched w)).

(** The world after the [except] clause, given how [verify_app] ended. *)
Definition reported (ov : outcome unit) (w : world) : world :=
  match ov with
  | Returned _ => w
  | Raised e => if isinstance_Exception e then (w_print ("Error: " +:+ str e) w).2 else w
  end.

(** The outcome after the [except] clause, in a world in which [print]
    returns. *)
Definition caught (ov : outcome unit) : outcome unit :=
  match ov with
  | Returned _ => ov
  | Raised e => if isinstance_Exception e then Returned tt else ov
  end.

(** The world after [browser.close()] and the exit of the [with] statement. *)
Definition finish (w0 w : world) : world :=
  (w_exit (new_driver w0) (w_close (new_browser w0) w).2).2.

#[export] Instance serves_dec c : Decision (serves c).
Proof. unfold serves. apply _. Defined.

#[export] Instance quiescent_dec w : Decision (quiescent w).
Proof. unfold quiescent. apply _. Defined.

(** The time [main] takes in a world with the setup [c]: that of the wait
    it reaches. *)
Definition expected_duration (c : setup) : Z :=
  if negb (chromium_installed c) || negb (server_up c) then 0
  else if bool_decide (serves c) then 1000 else default_timeout.

(** What [main] prints in a world with the setup [c], and the files it
    leaves. *)
Definition expected_output (c : setup) : list string :=
  if negb (chromium_installed c) then []
  else if negb (server_up c) then ["Error: " +:+ str (refused app_url)]
  else if bool_decide (serves c) then ["Screenshot taken"]
  else ["Error: " +:+ str timed_out].

Definition expected_files (c : setup) (fs : gmap string image) : gmap string image :=
  if chromium_installed c && bool_decide (serves c)
  then <["verification.png" := Some (shot c)]> fs else fs.

(** The scenario worlds: the happy path, the server down, the page
    without its [#maxPoints] input, no browser installed, and a debounce
    delay longer than the script's wait. *)
Definition world_A : world := initial scenario_setup.

Definition world_B : world :=
  initial (Setup false true ["#examTitle"; "#maxPoints"] ∅ 500).

Definition world_C : world := initial (Setup true true ["#examTitle"] ∅ 500).

Definition world_D : world :=
  initial (Setup true false ["#examTitle"; "#maxPoints"] ∅ 500).

Definition world_slow : world :=
  initial (Setup true true ["#examTitle"; "#maxPoints"]
                 {[ "#examTitle" := ""; "#maxPoints" := "" ]} 1500).

(** A failure of the kind the specification calls an element interaction
    error, and the plan that injects it into the first [fill]. *)
Definition not_interactable : exn := Exn "Error" true "Element is not an <input>".

Definition plan_fill : plan := fail_at 2 not_interactable [].

(** * Executing the script *)

(** One step of [verify_app] on the open page, by the equation [lem] of
    the operation. *)
Ltac world_step lem :=
  rewrite run_perform_all_cons; cbn [world_handler]; rewrite lem by done;
  cbn [fst snd tab_elapse tab_browser tab_app fmap option_fmap option_map].

(** [verify_app] on an open page of a world that serves the application:
    all seven steps return. *)
Lemma run_verify_app_serves pg b oa w :
  serves (cfg w) ->
  run world_handler (verify_app pg) (with_tab pg (Tab b oa) w)
  = Final (Returned tt)
      (with_tab pg (Tab b (Some (shot (cfg w))))
         (set_stdout (stdout w ++ ["Screenshot taken"])
            (set_files (<["verification.png" := Some (shot (cfg w))]> (files w))
               (elapse 1000 w))))
      (verify_events pg).
Proof.
  intros (Hup & H1 & H2). rewrite run_verify_app. unfold verify_steps.
  world_step w_goto_open. world_step w_wait_for_selector_open.
  do 2 world_step w_fill_open. world_step w_wait_for_timeout_open.
  world_step w_screenshot_open. world_step w_print_with_tab.
  reflexivity.
Qed.

(** With the server down the navigation raises and nothing else happens. *)
Lemma run_verify_app_refused pg tb w :
  server_up (cfg w) = false ->
  run world_handler (verify_app pg) (with_tab pg tb w)
  = Final (Raised (refused app_url)) (with_tab pg tb w)
      [Ev (Goto pg app_url) (Raised (refused app_url))].
Proof.
  intros Hup. rewrite run_verify_app. unfold verify_steps.
  world_step w_goto_refused. reflexivity.
Qed.

(** Without one of the two inputs, the wait for [#maxPoints] or the first
    [fill] raises after the default timeout; the page stays as loaded. *)
Lemma run_verify_app_missing pg b oa w :
  server_up (cfg w) = true -> ~ serves (cfg w) ->
  exists tv,
    run world_handler (verify_app pg) (with_tab pg (Tab b oa) w)
    = Final (Raised timed_out)
        (with_tab pg (Tab b (Some (app_load (defaults (cfg w)))))
           (elapse default_timeout w))
        tv.
Proof.
  intros Hup Hno. rewrite run_verify_app. unfold verify_steps. world_step w_goto_open.
  destruct (decide ("#maxPoints" ∈ elements (cfg w))) as [Hmax|Hmax].
  - assert ("#examTitle" ∉ elements (cfg w)) as Htitle by (by intros ?; apply Hno).
    world_step w_wait_for_selector_open. world_step w_fill_missing. by eexists.
  - world_step w_wait_for_selector_missing. by eexists.
Qed.

(** The three calls before the [try] statement, where a browser can be
    launched. *)
Lemma enter_eq w :
  world_handler SyncPlaywrightEnter w = (Returned (new_driver w), entered w).
Proof. reflexivity. Qed.

Lemma launch_eq w hl :
  chromium_installed (cfg w) = true ->
  world_handler (Launch (new_driver w) hl) (entered w) = (Returned (new_browser w), launched w).
Proof.
  intros Hc. cbn [world_handler]. rewrite w_launch_running; [done | | done].
  apply elem_of_union_l, elem_of_singleton. reflexivity.
Qed.

Lemma new_page_eq w :
  world_handler (NewPage (new_browser w)) (launched w) = (Returned (new_tab w), opened_world w).
Proof.
  cbn [world_handler]. erewrite w_new_page_live; [done |]. apply lookup_insert_eq.
Qed.

(** The same three calls under a plan: they are not calls on a page. *)
Lemma enter_under f w :
  inject world_handler SyncPlaywrightEnter (f, w) = (Returned (new_driver w), (f, entered w)).
Proof. reflexivity. Qed.

Lemma launch_under f w hl :
  chromium_installed (cfg w) = true ->
  inject world_handler (Launch (new_driver w) hl) (f, entered w)
  = (Returned (new_browser w), (f, launched w)).
Proof. intros Hc. by rewrite inject_pass, launch_eq. Qed.

Lemma new_page_under f w :
  inject world_handler (NewPage (new_browser w)) (f, launched w)
  = (Returned (new_tab w), (f, opened_world w)).
Proof. by rewrite inject_pass, new_page_eq. Qed.

(** One call of [main], answered by the equation [lem]. *)
Ltac world_call lem := run_simpl; unfold answer; rewrite lem; run_simpl.

(** [main] in a world in which the browser can be launched, under a plan,
    given how [verify_app] ends on the page it opens: an exception of the
    class [Exception] is reported, any other is passed on; in both cases
    the browser is closed and the driver stopped. *)
Lemma run_main_opened_under f w ov fv wv tv :
  chromium_installed (cfg w) = true ->
  run (inject world_handler) (verify_app (new_tab w)) (f, opened_world w)
  = Final ov (fv, wv) tv ->
  outcome_of (run (inject world_handler) main (f, w)) = caught ov
  /\ world_of (run (inject world_handler) main (f, w)) = (fv, finish w (reported ov wv)).
Proof.
  intros Hc Hv. unfold main.
  world_call enter_under. world_call launch_under; [|done]. world_call new_page_under.
  rewrite Hv. destruct ov as [[]|e]; run_simpl; [|unfold caught, reported; case_match];
    run_simpl; unfold answer; run_simpl; run_done; done.
Qed.

(** Without a plan: whatever [verify_app] raises of the class [Exception]
    is reported, and [main] returns. *)
Lemma run_main_opened w ov wv tv :
  chromium_installed (cfg w) = true ->
  run world_handler (verify_app (new_tab w)) (opened_world w) = Final ov wv tv ->
  match ov with Returned _ => True | Raised e => isinstance_Exception e = true end ->
  outcome_of (run world_handler main w) = Returned tt
  /\ world_of (run world_handler main w) = finish w (reported ov wv).
Proof.
  intros Hc Hv He.
  destruct (run_main_opened_under [] w ov [] wv tv Hc) as [Ho Hw];
    [by rewrite run_inject_nil, Hv |].
  rewrite run_inject_nil in Ho, Hw. cbn [under outcome_of world_of] in Ho, Hw.
  injection Hw as Hw. split; [|done].
  rewrite Ho. destruct ov as [[]|e]; [done |]. simpl. by rewrite He.
Qed.

(** * Injected failures *)

(** Closing the browser and stopping the driver neither write nor print. *)
Lemma finish_keeps w0 w :
  files (finish w0 w) = files w /\ stdout (finish w0 w) = stdout w.
Proof. done. Qed.

(** Each of the first six steps is a call on the page, and the steps
    before it neither write a file nor print. *)
Lemma verify_steps_before pg n :
  (n < 6)%nat ->
  exists c, verify_steps pg !! n = Some c /\ is_Some (page_of c)
    /\ Forall (fun c => is_Some (page_of c)) (take n (verify_steps pg))
    /\ Forall silent (take n (verify_steps pg)).
Proof.
  intros Hn.
  do 6 (destruct n as [|n];
        [eexists; split_and!; [done | by eexists | repeat constructor; by eexists
                              | by repeat constructor] |]).
  lia.
Qed.

(** [verify_app] under a plan that fails one of the six calls on the page,
    where the application is served: the failure is the outcome, and no
    file was written nor line printed. *)
Lemma run_verify_app_fail_at pg b oa w n e f :
  serves (cfg w) -> (n < 6)%nat ->
  exists w1 tv,
    run (inject world_handler) (verify_app pg) (fail_at n e f, with_tab pg (Tab b oa) w)
    = Final (Raised e) (f, w1) tv
    /\ files w1 = files w /\ stdout w1 = stdout w.
Proof.
  intros Hs Hn. destruct (verify_steps_before pg n Hn) as (c & Hc & Hpg & Hpgs & Hsil).
  pose proof (f_equal outcome_of (run_verify_app_serves pg b oa w Hs)) as Hv.
  rewrite run_verify_app, <- (take_drop_middle _ _ _ Hc) in Hv.
  apply run_perform_all_app_returned in Hv.
  destruct (run_silent (perform_all (take n (verify_steps pg))) (with_tab pg (Tab b oa) w))
    as [Hf Ho]; [by apply calls_sat_perform_all |].
  destruct (run world_handler (perform_all (take n (verify_steps pg))) _)
    as [o1 w1 t1] eqn:Hr.
  simpl in Hv, Hf, Ho. subst o1. exists w1, (t1 ++ [Ev c (Raised e)]). split; [|done].
  rewrite run_verify_app, <- (take_drop_middle _ _ _ Hc).
  pose proof (run_inject_fail_at world_handler _ c (drop (S n) (verify_steps pg)) e f
                _ w1 t1 Hpgs Hpg Hr) as Hi.
  by rewrite length_take, Nat.min_l in Hi by (simpl; lia).
Qed.

(** * The application when the screenshot is taken *)

Lemma inputs_shot c :
  inputs (shot c)
  = <["#maxPoints" := "100"]> (<["#examTitle" := "Debounce Test Exam"]> (defaults c)).
Proof. unfold shot. by rewrite inputs_app_elapse. Qed.

Lemma shot_settled c : debounce c <= 1000 -> app_settled (shot c).
Proof. apply app_elapse_input_settled. Qed.

Lemma shot_stale c :
  1000 < debounce c ->
  rendered (shot c) = defaults c /\ timer (shot c) = Some (debounce c - 1000).
Proof.
  intros Hd. unfold shot, filled, app_elapse, app_input; simpl.
  by destruct (Z.leb_spec (debounce c) 1000); [lia |].
Qed.

(** * The final world of each scenario *)

Lemma run_main_serves w :
  chromium_installed (cfg w) = true -> serves (cfg w) ->
  outcome_of (run world_handler main w) = Returned tt
  /\ world_of (run world_handler main w)
     = finish w
         (with_tab (new_tab w) (Tab (new_browser w) (Some (shot (cfg w))))
            (set_stdout (stdout w ++ ["Screenshot taken"])
               (set_files (<["verification.png" := Some (shot (cfg w))]> (files w))
                  (elapse 1000 (bump (launched w)))))).
Proof.
  intros Hc Hs.
  exact (run_main_opened w _ _ _ Hc
           (run_verify_app_serves (new_tab w) (new_browser w) None (bump (launched w)) Hs) I).
Qed.

Lemma run_main_refused w :
  chromium_installed (cfg w) = true -> server_up (cfg w) = false ->
  outcome_of (run world_handler main w) = Returned tt
  /\ world_of (run world_handler main w)
     = finish w (reported (Raised (refused app_url)) (opened_world w)).
Proof.
  intros Hc Hup.
  exact (run_main_opened w _ _ _ Hc
           (run_verify_app_refused (new_tab w) (Tab (new_browser w) None) (bump (launched w)) Hup)
           eq_refl).
Qed.

Lemma run_main_missing w :
  chromium_installed (cfg w) = true -> server_up (cfg w) = true -> ~ serves (cfg w) ->
  outcome_of (run world_handler main w) = Returned tt
  /\ world_of (run world_handler main w)
     = finish w
         (reported (Raised timed_out)
            (with_tab (new_tab w)
               (Tab (new_browser w) (Some (app_load (defaults (cfg w)))))
               (elapse default_timeout (bump (launched w))))).
Proof.
  intros Hc Hup Hno.
  destruct (run_verify_app_missing (new_tab w) (new_browser w) None (bump (launched w))
              Hup Hno) as [tv Hv].
  exact (run_main_opened w _ _ _ Hc Hv eq_refl).
Qed.

(** Where no browser can be launched. *)
Lemma run_main_no_browser w :
  chromium_installed (cfg w) = false ->
  run world_handler main w
  = Final (Raised no_executable) (w_exit (new_driver w) (entered w)).2
      [Ev SyncPlaywrightEnter (Returned (new_driver w));
       Ev (Launch (new_driver w) true) (Raised no_executable);
       Ev (SyncPlaywrightExit (new_driver w)) (Returned tt)].
Proof.
  intros Hc. unfold main. world_call enter_eq. run_simpl. unfold answer.
  cbn [world_handler]. rewrite w_launch_failed by done. run_simpl. unfold answer. run_simpl.
  reflexivity.
Qed.

(** * The release of the resources *)

(** The body of the [with] statement starts and stops no driver. *)
Lemma in_session_drivers p c w :
  in_session p c -> drivers (world_handler c w).2 = drivers w.
Proof.
  destruct c; try done; intros _; simpl;
    unfold w_launch, w_new_page, w_goto, w_wait_for_selector, w_fill, w_wait_for_timeout,
      w_screenshot, on_page; by repeat case_match.
Qed.

Lemma in_session_drivers_under p c f w :
  in_session p c -> drivers (inject world_handler c (f, w)).2.2 = drivers w.
Proof.
  intros Hc.
  destruct (inject_cases world_handler c f w) as [->|(e & f' & _ & _ & ->)]; [|done].
  by apply (in_session_drivers p).
Qed.

(** Stopping the only driver, which owns every live browser, leaves
    nothing behind. *)
Lemma w_exit_quiescent p w :
  drivers w ⊆ {[p]} -> (forall b q, browsers w !! b = Some q -> q = p) ->
  quiescent (w_exit p w).2.
Proof.
  intros Hd Hb.
  assert (filter (fun bq : browser * playwright => bq.2 <> p) (browsers w) = ∅) as Hbs.
  { apply map_empty. intros b. apply map_lookup_filter_None. right. intros q Hq ?.
    by apply Hb in Hq. }
  split_and!; simpl.
  - apply set_eq. intros q. rewrite elem_of_difference.
    split; [by intros [Hq%Hd ?] | by intros ?%elem_of_empty].
  - done.
  - rewrite Hbs. apply map_empty. intros pg. apply map_lookup_filter_None. right.
    intros tb _ [? Hs]. by rewrite lookup_empty in Hs.
Qed.

(** * The artifact *)

(** No call removes a file. *)
Lemma world_files_mono c w path :
  is_Some (files w !! path) -> is_Some (files (world_handler c w).2 !! path).
Proof.
  intros Hf. destruct c; simpl; try done;
    unfold w_launch, w_new_page, w_goto, w_wait_for_selector, w_fill, w_wait_for_timeout,
      w_screenshot, on_page; repeat case_match; simpl; try done.
  rewrite lookup_insert. by case_decide.
Qed.

(** A screenshot that returns has written its file. *)
Lemma world_screenshot_file pg path w :
  returned (world_handler (Screenshot pg path) w).1 = true ->
  is_Some (files (world_handler (Screenshot pg path) w).2 !! path).
Proof.
  simpl. unfold w_screenshot, on_page. case_match; [|done]. simpl.
  by rewrite lookup_insert_eq.
Qed.

(** Both hold under a plan: a call that is failed changes nothing and
    does not return. *)
Lemma files_mono_under c f w path :
  is_Some (files w !! path) ->
  is_Some (files (inject world_handler c (f, w)).2.2 !! path).
Proof.
  intros Hf.
  destruct (inject_cases world_handler c f w) as [->|(e & f' & _ & _ & ->)]; [|done].
  by apply world_files_mono.
Qed.

Lemma screenshot_file_under pg path f w :
  returned (inject world_handler (Screenshot pg path) (f, w)).1 = true ->
  is_Some (files (inject world_handler (Screenshot pg path) (f, w)).2.2 !! path).
Proof.
  destruct (inject_cases world_handler (Screenshot pg path) f w)
    as [->|(e & f' & _ & _ & ->)]; [|done].
  apply world_screenshot_file.
Qed.

Lemma run_files_mono {R} (p : prog R) f w path :
  is_Some (files w !! path) ->
  is_Some (files (world_of (run (inject world_handler) p (f, w))).2 !! path).
Proof.
  revert f w. induction p as [r|e|c k IH]; intros f w Hf; [done | done |].
  rewrite run_Call. cbn [prepend world_of].
  destruct (inject world_handler c (f, w)) as [o [f' w']] eqn:Hi.
  apply IH. by rewrite <- (f_equal (fun x => x.2.2) Hi : _ = w'); apply files_mono_under.
Qed.

(** The file of a screenshot event that returned exists when the program
    ends. *)
Lemma run_screenshot_file {R} (p : prog R) f w ev pg path :
  ev ∈ trace_of (run (inject world_handler) p (f, w)) ->
  ev_call ev = Screenshot pg path -> ev_returned ev = true ->
  is_Some (files (world_of (run (inject world_handler) p (f, w))).2 !! path).
Proof.
  revert f w. induction p as [r|e|c k IH]; intros f w Hin Hc Hr;
    [by apply elem_of_nil in Hin.. |].
  rewrite run_Call in Hin |- *. cbn [prepend trace_of world_of app] in Hin |- *.
  pose proof (files_mono_under c f w path) as Hm.
  destruct (inject world_handler c (f, w)) as [o [f' w']] eqn:Hi. cbn [fst snd] in *.
  apply elem_of_cons in Hin as [->|Hin]; [|by apply IH].
  simpl in Hc, Hr. subst c. apply run_files_mono.
  pose proof (screenshot_file_under pg path f w) as Hs. rewrite Hi in Hs. by apply Hs.
Qed.

(** * The theorems of the scenarios *)

(** C30. Scenario A, the happy path: where a browser can be launched and
    the application is up with the two inputs of the script, [main]
    returns normally, prints exactly the line "Screenshot taken", writes
    (or overwrites) the file "verification.png" with what the page shows
    one second after the second [fill], and takes 1000 ms of the world's
    time. *)
Theorem main_happy_path w :
  chromium_installed (cfg w) = true -> serves (cfg w) ->
  outcome_of (run world_handler main w) = Returned tt
  /\ stdout (world_of (run world_handler main w)) = stdout w ++ ["Screenshot taken"]
  /\ files (world_of (run world_handler main w))
     = <["verification.png" := Some (shot (cfg w))]> (files w)
  /\ clock (world_of (run world_handler main w)) = clock w + 1000.
Proof. intros Hc Hs. by destruct (run_main_serves w Hc Hs) as [-> ->]. Qed.

(** C29. The one-second wait is enough for every debounce delay of at most
    1000 ms: the screenshot shows a settled page, whose table was computed
    from the values the script filled in ("Debounce Test Exam" and "100");
    its row for 96 percent gives 96 points, as the comment of the source
    (lines 19 to 21) expects. *)
Theorem screenshot_shows_filled_table w :
  chromium_installed (cfg w) = true -> serves (cfg w) -> debounce (cfg w) <= 1000 ->
  exists a,
    files (world_of (run world_handler main w)) !! "verification.png" = Some (Some a)
    /\ app_settled a
    /\ rendered a !! "#examTitle" = Some "Debounce Test Exam"
    /\ rendered a !! "#maxPoints" = Some "100"
    /\ table_points a 96 = Some 96.
Proof.
  intros Hc Hs Hd. destruct (run_main_serves w Hc Hs) as [_ ->].
  pose proof (shot_settled _ Hd) as Hset. pose proof (inputs_shot (cfg w)) as Hin.
  exists (shot (cfg w)). destruct Hset as [Ht Hr]. rewrite <- Hr in Hin.
  assert (rendered (shot (cfg w)) !! "#maxPoints" = Some "100") as Hmax
    by (rewrite Hin; apply lookup_insert_eq).
  split_and!; [apply lookup_insert_eq | done | | done |].
  - by rewrite Hin, lookup_insert_ne, lookup_insert_eq.
  - unfold table_points. by rewrite Hmax.
Qed.

(** C37. The wait is not enough for a longer debounce delay: with a delay
    above 1000 ms the screenshot shows the table computed from the initial
    values of the inputs, the recomputation still pending, and the script
    prints "Screenshot taken" all the same. *)
Theorem screenshot_stale_beyond_wait w :
  chromium_installed (cfg w) = true -> serves (cfg w) -> 1000 < debounce (cfg w) ->
  exists a,
    files (world_of (run world_handler main w)) !! "verification.png" = Some (Some a)
    /\ rendered a = defaults (cfg w)
    /\ ~ app_settled a
    /\ stdout (world_of (run world_handler main w)) = stdout w ++ ["Screenshot taken"].
Proof.
  intros Hc Hs Hd. destruct (run_main_serves w Hc Hs) as [_ ->].
  destruct (shot_stale _ Hd) as [Hr Ht]. exists (shot (cfg w)).
  split_and!; [apply lookup_insert_eq | done | | done].
  intros [Hn _]. by rewrite Ht in Hn.
Qed.

(** C32. Scenario B, the server is down: [page.goto] raises, the [except]
    clause prints the error, no file is written, no time is spent
    waiting, and [main] returns normally. *)
Theorem main_server_down w :
  chromium_installed (cfg w) = true -> server_up (cfg w) = false ->
  outcome_of (run world_handler main w) = Returned tt
  /\ stdout (world_of (run world_handler main w))
     = stdout w ++ ["Error: net::ERR_CONNECTION_REFUSED at http://localhost:3000"]
  /\ files (world_of (run world_handler main w)) = files w
  /\ clock (world_of (run world_handler main w)) = clock w.
Proof. intros Hc Hup. by destruct (run_main_refused w Hc Hup) as [-> ->]. Qed.

(** C33. Scenario C, the page lacks one of the elements "#maxPoints" and
    "#examTitle": [page.wait_for_selector], or the first [page.fill],
    raises after the default timeout of 30000 ms, the [except] clause
    prints the timeout error, no file is written, and [main] returns
    normally. *)
Theorem main_element_missing w :
  chromium_installed (cfg w) = true -> server_up (cfg w) = true -> ~ serves (cfg w) ->
  outcome_of (run world_handler main w) = Returned tt
  /\ stdout (world_of (run world_handler main w))
     = stdout w ++ ["Error: Timeout 30000ms exceeded."]
  /\ files (world_of (run world_handler main w)) = files w
  /\ clock (world_of (run world_handler main w)) = clock w + 30000.
Proof. intros Hc Hup Hno. by destruct (run_main_missing w Hc Hup Hno) as [-> ->]. Qed.

(** C40. Scenario D: no browser can be launched.  [p.chromium.launch]
    raises outside the [try] statement, so nothing is printed,
    [browser.close()] is not called, no file is written, the [with]
    statement stops the driver and the exception propagates out of
    [main]. *)
Theorem main_no_browser w :
  chromium_installed (cfg w) = false ->
  outcome_of (run world_handler main w) = Raised no_executable
  /\ stdout (world_of (run world_handler main w)) = stdout w
  /\ files (world_of (run world_handler main w)) = files w
  /\ map ev_call (trace_of (run world_handler main w))
     = [SyncPlaywrightEnter; Launch (new_driver w) true; SyncPlaywrightExit (new_driver w)].
Proof. intros Hc. by rewrite run_main_no_browser. Qed.

(** C27. Non-propagation (P3) in the world model: where the browser can be
    launched and the application is served, a failure injected into any
    of the six calls on the page (steps 3 to 8) is reported on the
    standard output and [main] returns, when the exception derives from
    [Exception]; an exception that does not (an interrupt) is passed on
    and nothing is printed.  In both cases no file is written and the
    rest of the plan is left untouched: nothing runs after the failure
    but the report, the closing of the browser and the stopping of the
    driver. *)
Theorem main_injected_failure w n e f :
  chromium_installed (cfg w) = true -> serves (cfg w) -> (n < 6)%nat ->
  outcome_of (run (inject world_handler) main (fail_at n e f, w))
  = (if isinstance_Exception e then Returned tt else Raised e)
  /\ stdout (world_of (run (inject world_handler) main (fail_at n e f, w))).2
     = stdout w ++ (if isinstance_Exception e then ["Error: " +:+ str e] else [])
  /\ files (world_of (run (inject world_handler) main (fail_at n e f, w))).2 = files w
  /\ (world_of (run (inject world_handler) main (fail_at n e f, w))).1 = f.
Proof.
  intros Hc Hs Hn.
  destruct (run_verify_app_fail_at (new_tab w) (new_browser w) None (bump (launched w))
              n e f Hs Hn) as (w1 & tv & Hv & Hf & Ho).
  destruct (run_main_opened_under _ w _ _ _ _ Hc Hv) as [-> ->].
  cbn [fst snd caught reported]. destruct (finish_keeps w w1) as [Hf1 Ho1].
  destruct (isinstance_Exception e); split_and!; try done.
  - rewrite (proj2 (finish_keeps _ _)). simpl. by rewrite Ho.
  - by rewrite Ho1, Ho, app_nil_r.
Qed.

(** C28. The four scenarios cover every world: no browser; the server
    down; the application up without one of its inputs; the application up
    with both.  In the world model, whatever the setup, [main] returns
    normally exactly when a browser can be launched (the process then
    exits with status 0, and with an error status otherwise); it prints
    one line, the confirmation or the error, unless no browser can be
    launched; it writes the screenshot exactly when a browser can be
    launched and the application is served; and the time it takes is that
    of the wait it reaches. *)
Theorem main_world_summary w :
  outcome_of (run world_handler main w)
  = (if chromium_installed (cfg w) then Returned tt else Raised no_executable)
  /\ stdout (world_of (run world_handler main w)) = stdout w ++ expected_output (cfg w)
  /\ files (world_of (run world_handler main w)) = expected_files (cfg w) (files w)
  /\ clock (world_of (run world_handler main w)) = clock w + expected_duration (cfg w).
Proof.
  unfold expected_duration, expected_output, expected_files.
  destruct (chromium_installed (cfg w)) eqn:Hc;
    [|by rewrite run_main_no_browser, Z.add_0_r, app_nil_r].
  destruct (server_up (cfg w)) eqn:Hup; cbn [negb orb andb].
  - case_bool_decide as Hs.
    + by destruct (run_main_serves w Hc Hs) as [-> ->].
    + by destruct (run_main_missing w Hc Hup Hs) as [-> ->].
  - destruct (run_main_refused w Hc Hup) as [-> ->].
    rewrite bool_decide_eq_false_2 by (intros [Hs _]; congruence). by rewrite Z.add_0_r.
Qed.

(** C26. Non-propagation (P3) in the world model, for every setup and every
    plan: where a browser can be launched, whatever the application
    serves and whichever calls on the page are failed with exceptions
    that derive from [Exception], [main] returns normally and prints
    exactly one line, the confirmation or the report of an error. *)
Theorem main_always_reports f w :
  chromium_installed (cfg w) = true -> benign f ->
  outcome_of (run (inject world_handler) main (f, w)) = Returned tt
  /\ exists line,
       stdout (world_of (run (inject world_handler) main (f, w))).2 = stdout w ++ [line]
       /\ (line = "Screenshot taken" \/ exists e, line = "Error: " +:+ str e).
Proof.
  intros Hc Hf.
  pose proof (verify_app_trace (inject world_handler) (new_tab w) (f, opened_world w)) as Hv.
  pose proof (run_inject_raises world_handler (fun e => isinstance_Exception e = true)
                (verify_app (new_tab w)) f (opened_world w) world_raises_Exception Hf) as He.
  pose proof (run_out (verify_app (new_tab w)) (f, opened_world w)) as Ho.
  change (@env (plan * world) _) with (inject world_handler) in Ho.
  destruct (run (inject world_handler) (verify_app (new_tab w)) (f, opened_world w))
    as [ov [fv wv] tv] eqn:Hr.
  cbn [outcome_of trace_of world_of out inject_environment world_environment snd] in Hv, He, Ho.
  destruct (run_main_opened_under f w ov fv wv tv Hc Hr) as [-> ->].
  cbn [snd]. rewrite (proj2 (finish_keeps _ _)), (verify_trace_lines _ _ _ Hv) in *.
  destruct ov as [[]|e]; simpl in *.
  - split; [done |]. exists "Screenshot taken". by split; [|left].
  - destruct Hv as (_ & (t' & ev & -> & _ & Hev) & _).
    apply Forall_app in He as [_ [He _]%Forall_cons_1]. rewrite (He e Hev). simpl.
    split; [done |]. exists ("Error: " +:+ str e). rewrite Ho, app_nil_r. eauto.
Qed.

(** C36. Idempotence (P1): a second run after a successful run succeeds,
    leaves the files as the first run left them (the screenshot is
    overwritten with the same image) and appends a second confirmation
    line. *)
Theorem main_twice w :
  chromium_installed (cfg w) = true -> serves (cfg w) ->
  outcome_of (run world_handler main (world_of (run world_handler main w))) = Returned tt
  /\ files (world_of (run world_handler main (world_of (run world_handler main w))))
     = files (world_of (run world_handler main w))
  /\ stdout (world_of (run world_handler main (world_of (run world_handler main w))))
     = stdout w ++ ["Screenshot taken"; "Screenshot taken"].
Proof.
  intros Hc Hs. destruct (run_main_serves w Hc Hs) as [_ Hw].
  set (w1 := world_of (run world_handler main w)) in *.
  assert (cfg w1 = cfg w) as Hcfg by by rewrite Hw.
  destruct (run_main_serves w1) as [-> ->]; [by rewrite Hcfg.. |].
  split_and!; [done | |]; simpl; rewrite ?Hcfg, Hw; simpl.
  - apply insert_insert_eq.
  - by rewrite <- app_assoc.
Qed.

(** C34. Resource safety (P2) in the world model, on every execution
    path: for every setup and every plan of failures injected into the
    calls on the page, started in a well-formed world in which no driver
    runs, no browser is live and no page is open, [main] ends in such a
    world, whether it returns or raises. *)
Theorem main_world_quiescent f w :
  wf w -> quiescent w ->
  quiescent (world_of (run (inject world_handler) main (f, w))).2.
Proof.
  intros Hwf (Hd & Hb & _). rewrite world_of_main. cbn [inject page_of fst snd rest].
  cbn [world_handler w_enter fst snd].
  set (p := Playwright (next_id w)). set (w1 := bump _).
  destruct (run_invariant (in_session p)
              (fun s => (ok s /\ owned_or_old p (f, w1) s) /\ drivers s.2 = drivers w1)
              (inject world_handler) (body p) (f, w1)) as [[_ Ho] Hdr].
  - apply body_in_session.
  - intros c [f' w'] Hc [Hi Hdr].
    split; [exact (in_session_owned p (f, w1) c (f', w') Hc Hi) |].
    by rewrite (in_session_drivers_under p).
  - split; [split; [by apply (world_handler_wf SyncPlaywrightEnter) | by intros b q; right] | done].
  - apply w_exit_quiescent.
    + rewrite Hdr. simpl. rewrite Hd. apply union_subseteq; split; [done | apply empty_subseteq].
    + intros b q Hq. destruct (Ho b q Hq) as [?|Hq']; [done |].
      simpl in Hq'. by rewrite Hb, lookup_empty in Hq'.
Qed.

(** C31. Artifact existence (P4) in the world model, for every world,
    every setup and every plan of injected failures: if [main] printed
    "Screenshot taken", the file "verification.png" exists when [main]
    ends. *)
Theorem confirmation_implies_artifact f w :
  "Screenshot taken" ∈ lines_of (trace_of (run (inject world_handler) main (f, w))) ->
  is_Some (files (world_of (run (inject world_handler) main (f, w))).2 !! "verification.png").
Proof.
  unfold lines_of. intros (ev & Hin & Hev)%list_elem_of_omap.
  destruct (ev_returned ev) eqn:Hr; [|done].
  assert (ev_call ev = PrintLine "Screenshot taken") as Hc.
  { destruct ev as [[] o]; by simplify_eq/=. }
  destruct (session_confirmation _ _ _ (run_main_session (inject world_handler) (f, w)) Hin Hc)
    as (t1 & pg & t2 & Ht).
  apply (run_screenshot_file main f w (Ev (Screenshot pg "verification.png") (Returned tt)) pg);
    [|done..].
  rewrite Ht. apply elem_of_app. right. apply elem_of_cons. by left.
Qed.

(** * The scenarios, executed

    The theorems above at the scenario worlds; the hypotheses are decided
    by computation. *)

Lemma main_happy_path_witness :
  outcome_of (run world_handler main world_A) = Returned tt
  /\ stdout (world_of (run world_handler main world_A))
     = stdout world_A ++ ["Screenshot taken"]
  /\ files (world_of (run world_handler main world_A))
     = <["verification.png" := Some (shot (cfg world_A))]> (files world_A)
  /\ clock (world_of (run world_handler main world_A)) = clock world_A + 1000.
Proof. apply (main_happy_path world_A); compute_done. Defined.

Lemma screenshot_shows_filled_table_witness :
  exists a,
    files (world_of (run world_handler main world_A)) !! "verification.png" = Some (Some a)
    /\ app_settled a
    /\ rendered a !! "#examTitle" = Some "Debounce Test Exam"
    /\ rendered a !! "#maxPoints" = Some "100"
    /\ table_points a 96 = Some 96.
Proof. apply (screenshot_shows_filled_table world_A); compute_done. Defined.

Lemma screenshot_stale_beyond_wait_witness :
  exists a,
    files (world_of (run world_handler main world_slow)) !! "verification.png"
    = Some (Some a)
    /\ rendered a = defaults (cfg world_slow)
    /\ ~ app_settled a
    /\ stdout (world_of (run world_handler main world_slow))
       = stdout world_slow ++ ["Screenshot taken"].
Proof. apply (screenshot_stale_beyond_wait world_slow); compute_done. Defined.

Lemma main_server_down_witness :
  outcome_of (run world_handler main world_B) = Returned tt
  /\ stdout (world_of (run world_handler main world_B))
     = stdout world_B ++ ["Error: net::ERR_CONNECTION_REFUSED at http://localhost:3000"]
  /\ files (world_of (run world_handler main world_B)) = files world_B
  /\ clock (world_of (run world_handler main world_B)) = clock world_B.
Proof. apply (main_server_down world_B); compute_done. Defined.

Lemma main_element_missing_witness :
  outcome_of (run world_handler main world_C) = Returned tt
  /\ stdout (world_of (run world_handler main world_C))
     = stdout world_C ++ ["Error: Timeout 30000ms exceeded."]
  /\ files (world_of (run world_handler main world_C)) = files world_C
  /\ clock (world_of (run world_handler main world_C)) = clock world_C + 30000.
Proof. apply (main_element_missing world_C); compute_done. Defined.

Lemma main_no_browser_witness :
  outcome_of (run world_handler main world_D) = Raised no_executable
  /\ stdout (world_of (run world_handler main world_D)) = stdout world_D
  /\ files (world_of (run world_handler main world_D)) = files world_D
  /\ map ev_call (trace_of (run world_handler main world_D))
     = [SyncPlaywrightEnter; Launch (new_driver world_D) true;
        SyncPlaywrightExit (new_driver world_D)].
Proof. apply (main_no_browser world_D); compute_done. Defined.

Lemma main_twice_witness :
  outcome_of (run world_handler main (world_of (run world_handler main world_A)))
  = Returned tt
  /\ files (world_of (run world_handler main (world_of (run world_handler main world_A))))
     = files (world_of (run world_handler main world_A))
  /\ stdout (world_of (run world_handler main (world_of (run world_handler main world_A))))
     = stdout world_A ++ ["Screenshot taken"; "Screenshot taken"].
Proof. apply (main_twice world_A); compute_done. Defined.

Lemma main_world_quiescent_witness :
  quiescent (world_of (run (inject world_handler) main (plan_fill, world_A))).2.
Proof.
  apply (main_world_quiescent plan_fill world_A); [apply wf_initial | compute_done].
Defined.

Lemma confirmation_implies_artifact_witness :
  is_Some (files (world_of (run (inject world_handler) main ([], world_A))).2
           !! "verification.png").
Proof. apply (confirmation_implies_artifact [] world_A). compute_done. Defined.

Lemma main_injected_failure_witness :
  outcome_of (run (inject world_handler) main (plan_fill, world_A)) = Returned tt
  /\ stdout (world_of (run (inject world_handler) main (plan_fill, world_A))).2
     = stdout world_A ++ ["Error: Element is not an <input>"]
  /\ files (world_of (run (inject world_handler) main (plan_fill, world_A))).2
     = files world_A
  /\ (world_of (run (inject world_handler) main (plan_fill, world_A))).1 = [].
Proof.
  apply (main_injected_failure world_A 2 not_interactable []); [compute_done.. | lia].
Defined.

Lemma main_always_reports_witness :
  outcome_of (run (inject world_handler) main (plan_fill, world_B)) = Returned tt
  /\ exists line,
       stdout (world_of (run (inject world_handler) main (plan_fill, world_B))).2
       = stdout world_B ++ [line]
       /\ (line = "Screenshot taken" \/ exists e, line = "Error: " +:+ str e).
Proof.
  apply (main_always_reports plan_fill world_B); [compute_done |].
  repeat constructor; by intros e [= <-].
Defined.
